(** * Schedule availability detector: the pixel-geometry pipeline of app.js

    A shallow embedding of the layered pipeline of [src/app.js]
    (tick detection and validation, global tick ladder, day dividers,
    slot bands, background calibration, cell classification, and the
    saved-schedule query) together with the properties stated about it.

    Modelling conventions.
    - A JavaScript number that is always an integer in the code (pixel
      coordinates, tick positions, counters, colour channels) is a [Z].
      A number that may be fractional (the median spacing [dy], the running
      [expected] position, area fractions, scores, thresholds) is an exact
      rational [Q]; [NaN] is [None] in an [option Q].  A fraction that is
      one quotient of small integers is compared as the exact rational: the
      comparison of the doubles gives the same.  Where the code compares or
      floors a sum or a product of fractions (the score of a divider
      candidate, [h * 0.35]) each operation is rounded to the nearest
      double with [toDouble].
    - [Math.floor] is [Qfloor], [Math.round] is [Qfloor (q + 1/2)] (ties go
      up), [Math.ceil] is [Qceiling].
    - Typed arrays ([imgData], [whiteP], [darkP]) are read-only index
      functions [Z -> Z].
    - [Math.random()] is an oracle [rand : nat -> Q]; every function that
      draws threads the index of the next unused draw.
    - The ambient object [window] is an explicit record that is passed in
      and returned; [Date.now()] is a parameter of the function that reads
      it.
    - A call that may throw returns an [Outcome]: the value, or the text of
      the exception.
    - [console.log] and the diagnostic fields that only feed it are left
      out. *)

From Stdlib Require Import String Ascii DecimalString ZArith QArith Qround Qabs.
From Stdlib Require Import List Bool Lia Lqa Arith Sorted Permutation.
Import ListNotations.

Open Scope Z_scope.

(** ** JavaScript arithmetic helpers *)

Module JS.

Definition Qlt_bool (x y : Q) : bool := negb (Qle_bool y x).

(** [Math.round]: nearest integer, ties towards +infinity. *)
Definition round (q : Q) : Z := Qfloor (q + (1 # 2)).

(** [clamp(n, lo, hi)] of app.js on integers: [Math.max(lo, Math.min(hi, n))]. *)
Definition clamp (n lo hi : Z) : Z := Z.max lo (Z.min hi n).

(** The same on a fractional argument. *)
Definition clampQ (n : Q) (lo hi : Z) : Q :=
  let m := if Qle_bool (inject_Z hi) n then inject_Z hi else n in
  if Qle_bool m (inject_Z lo) then inject_Z lo else m.

(** The double nearest to [q], ties going to the even mantissa: the value
    of an arithmetic operation of JavaScript whose exact result is [q].
    The mantissa has 53 bits; the results the pipeline rounds are far from
    the ends of the exponent range, which is left unbounded. *)
Definition toDouble (q : Q) : Q :=
  let n := Qnum q in
  let d := Z.pos (Qden q) in
  if n =? 0 then 0%Q
  else
    let a := Z.abs n in
    let e1 := Z.log2 a - Z.log2 d - 52 in
    let scaled := fun e : Z => if 0 <=? e then (a, d * 2 ^ e) else (a * 2 ^ (- e), d) in
    let e := if fst (scaled e1) / snd (scaled e1) <? 2 ^ 52 then e1 - 1 else e1 in
    let sn := fst (scaled e) in
    let sd := snd (scaled e) in
    let m := sn / sd in
    let r := sn mod sd in
    let m' := if (sd <? 2 * r) || ((sd =? 2 * r) && Z.odd m) then m + 1 else m in
    let v := if 0 <=? e then inject_Z (m' * 2 ^ e) else Qmake m' (Z.to_pos (2 ^ (- e))) in
    if n <? 0 then Qopp v else v.

(** Truncation towards zero. *)
Definition trunc (q : Q) : Z :=
  if Qle_bool 0 q then Qfloor q else Qceiling q.

(** 2^31 and 2^32. *)
Definition two31 : Z := 2147483648.
Definition two32 : Z := 4294967296.

(** [ToInt32]: wrap an integer into the signed 32-bit range. *)
Definition wrap32 (z : Z) : Z := (z + two31) mod two32 - two31.

(** [q | 0]. *)
Definition toInt32 (q : Q) : Z := wrap32 (trunc q).

(** [z >>> 0]. *)
Definition toUint32 (z : Z) : Z := z mod two32.

(** The integers [lo, lo+1, ..., lo+n-1]: the values of a counting loop. *)
Fixpoint zseq (lo : Z) (n : nat) : list Z :=
  match n with
  | O => []
  | S k => lo :: zseq (lo + 1) k
  end.

(** [for (v = lo; v < hi; v++)]. *)
Definition range (lo hi : Z) : list Z := zseq lo (Z.to_nat (hi - lo)).

(** [for (v = lo; v <= hi; v += step)] with a positive [step]. *)
Fixpoint zseqStep (lo step : Z) (n : nat) : list Z :=
  match n with
  | O => []
  | S k => lo :: zseqStep (lo + step) step k
  end.

Definition rangeStep (lo hi step : Z) : list Z :=
  if hi <? lo then [] else zseqStep lo step (Z.to_nat ((hi - lo) / step + 1)).

(** [for (v = hi; v >= lo; v -= step)] with a positive [step]. *)
Fixpoint zseqDown (hi step : Z) (n : nat) : list Z :=
  match n with
  | O => []
  | S k => hi :: zseqDown (hi - step) step k
  end.

Definition rangeDown (hi lo step : Z) : list Z :=
  if hi <? lo then [] else zseqDown hi step (Z.to_nat ((hi - lo) / step + 1)).

(** [arr.sort((a, b) => a - b)]: ascending, stable. *)
Fixpoint insertAsc (x : Z) (l : list Z) : list Z :=
  match l with
  | [] => [x]
  | y :: t => if x <? y then x :: l else y :: insertAsc x t
  end.

Fixpoint sortAsc (l : list Z) : list Z :=
  match l with
  | [] => []
  | x :: t => insertAsc x (sortAsc t)
  end.

(** [arr[i]] on an array of integers; reads past the end do not occur in the
    code paths modelled and yield 0 here. *)
Definition nthZ (l : list Z) (i : nat) : Z := nth i l 0.

(** [arr.slice(-n)]: the last [n] elements. *)
Definition lastN {A : Type} (n : nat) (l : list A) : list A :=
  skipn (length l - n) l.

End JS.

Import JS.

(** What a call that may throw ends with: the value it returns, or the
    text [e?.message || String(e)] of the exception [e] it throws. *)
Inductive Outcome (A : Type) : Type :=
| Returned (a : A)
| Thrown (message : string).

Arguments Returned {A} a.
Arguments Thrown {A} message.

(** ** Layer E: the precomputed pixel data

    [pre] as built by [buildPrecomputeFromCanvas]: the image size, the RGBA
    bytes, the two summed-area tables over the near-white and dark masks
    ([W = w + 1] is the row stride of the tables) and the time stamp
    [meta.ts]. *)

Record Pre : Type := mkPre {
  pre_w : Z;
  pre_h : Z;
  imgData : Z -> Z;
  whiteP : Z -> Z;
  darkP : Z -> Z;
  pre_W : Z;
  pre_ts : Z
}.

Definition NEAR_WHITE_THRESH : Z := 240.
Definition CAL_PICK_TOP : nat := 3.
Definition BG_TOL_BASE : Z := 34.
Definition BG_TOL_MAX : Z := 60.
Definition TIME_STEP_MIN : Z := 30.

Inductive Weekday : Type := Monday | Tuesday | Wednesday | Thursday | Friday.

Definition WEEKDAYS : list Weekday := [Monday; Tuesday; Wednesday; Thursday; Friday].

(** [idxOf(x, y, w)]: byte offset of pixel (x, y). *)
Definition idxOf (x y w : Z) : Z := wrap32 ((y * w + x) * 4).

(** [rectSum(P, W, x0, y0, x1, y1)]: population of [x0,x1) x [y0,y1). *)
Definition rectSum (P : Z -> Z) (W x0 y0 x1 y1 : Z) : Z :=
  let A := P (y0 * W + x0) in
  let B := P (y0 * W + x1) in
  let C := P (y1 * W + x0) in
  let D := P (y1 * W + x1) in
  toUint32 (D - B - C + A).

Definition isNearWhite (r g b : Z) : bool :=
  (NEAR_WHITE_THRESH <=? r) && (NEAR_WHITE_THRESH <=? g) && (NEAR_WHITE_THRESH <=? b).

(** [count / area] as a fraction. *)
Definition frac (count area : Z) : Q := inject_Z count / inject_Z area.

(** ** Layer F: raw tick detection in a left lane *)

Record LaneFrac : Type := mkLaneFrac { x0Frac : Q; x1Frac : Q }.

Record TickScan : Type := mkTickScan {
  ts_ticks : list Z;
  ts_inBlack : bool;
  ts_runStart : Z
}.

(** One iteration of the row scan of [detectTimeTicksFromLeftLane]
    ([bandH = 3], [darkFrac = 0.22], [minRunPx = 2]). *)
Definition tickScanStep (pre : Pre) (x0 x1 : Z) (st : TickScan) (y : Z) : TickScan :=
  let score := rectSum (darkP pre) (pre_W pre) x0 y x1 (y + 3) in
  let bandArea := (x1 - x0) * 3 in
  let isBlack := Qlt_bool (inject_Z bandArea * (22 # 100)) (inject_Z score) in
  if isBlack && negb (ts_inBlack st) then
    mkTickScan (ts_ticks st) true y
  else if negb isBlack && ts_inBlack st then
    let runLen := y - ts_runStart st in
    mkTickScan
      (if 2 <=? runLen then ts_ticks st ++ [(ts_runStart st + y) / 2] else ts_ticks st)
      false (ts_runStart st)
  else st.

(** The dedupe pass: keep a tick only if it is more than [dedupePx = 10]
    away from the last one kept. *)
Definition dedupeStep (out : list Z) (y : Z) : list Z :=
  match rev out with
  | [] => out ++ [y]
  | l :: _ => if 10 <? Z.abs (y - l) then out ++ [y] else out
  end.

Definition detectTimeTicksFromLeftLane (pre : Pre) (lane : LaneFrac) : list Z :=
  let w := pre_w pre in
  let h := pre_h pre in
  let yPad := 6 in
  let x0 := clamp (Qfloor (inject_Z w * x0Frac lane)) 0 (w - 1) in
  let x1 := clamp (Qfloor (inject_Z w * x1Frac lane)) (x0 + 1) w in
  let st := fold_left (tickScanStep pre x0 x1) (range yPad (h - yPad))
                      (mkTickScan [] false 0) in
  let ticks :=
    if ts_inBlack st then
      let runLen := (h - yPad) - ts_runStart st in
      if 2 <=? runLen then ts_ticks st ++ [(ts_runStart st + (h - yPad)) / 2]
      else ts_ticks st
    else ts_ticks st in
  fold_left dedupeStep ticks [].

(** ** Layer F0: pick the tick lane *)

Definition defaultLanes : list LaneFrac :=
  [ mkLaneFrac (15 # 1000) (55 # 1000);
    mkLaneFrac (30 # 1000) (70 # 1000);
    mkLaneFrac (45 # 1000) (85 # 1000);
    mkLaneFrac (60 # 1000) (95 # 1000);
    mkLaneFrac (75 # 1000) (110 # 1000) ].

(** The loop of [pickBestTickLane] over the remaining lanes; [best] is the
    lane kept so far with its score ([minGood = 8] ends the loop). *)
Fixpoint pickLaneLoop (pre : Pre) (lanes : list LaneFrac)
    (best : option (LaneFrac * nat)) : option (LaneFrac * nat) :=
  match lanes with
  | [] => best
  | lane :: rest =>
      let score := length (detectTimeTicksFromLeftLane pre lane) in
      let best1 :=
        match best with
        | None => Some (lane, score)
        | Some (_, bs) => if (bs <? score)%nat then Some (lane, score) else best
        end in
      if (8 <=? score)%nat then Some (lane, score)
      else pickLaneLoop pre rest best1
  end.

Definition pickBestTickLane (pre : Pre) : LaneFrac :=
  match pickLaneLoop pre defaultLanes None with
  | Some (lane, _) => lane
  | None => mkLaneFrac (15 # 1000) (55 # 1000)
  end.

(** ** Layer G: tick validation *)

Record TickHit : Type := mkTickHit { hit_y : Z; hit_idx : nat; hit_dist : Q }.

(** The scan of [nearestTickWithin] over [rest = rawTicks[i..]]. *)
Fixpoint nearestLoop (rest : list Z) (i : nat) (expectedY : Q) (snapWin : Z)
    (best : option TickHit) : option TickHit :=
  match rest with
  | [] => best
  | y :: tl =>
      let d := Qabs (inject_Z y - expectedY) in
      let better :=
        match best with
        | None => true
        | Some b => Qlt_bool d (hit_dist b)
        end in
      nearestLoop tl (S i) expectedY snapWin
        (if Qle_bool d (inject_Z snapWin) && better then Some (mkTickHit y i d) else best)
  end.

Definition nearestTickWithin (rawTicks : list Z) (expectedY : Q) (snapWin : Z)
    (startIdx : nat) : option TickHit :=
  nearestLoop (skipn startIdx rawTicks) startIdx expectedY snapWin None.

(** The loop of [computeMedianDy] collecting the positive differences
    [ticks[i] - ticks[i-1]]; [prev] is [ticks[i-1]]. *)
Fixpoint diffsLoop (prev : Z) (rest : list Z) (diffs : list Z) : list Z :=
  match rest with
  | [] => diffs
  | t :: tl =>
      let d := t - prev in
      diffsLoop t tl (if 0 <? d then diffs ++ [d] else diffs)
  end.

Definition computeMedianDy (ticks : list Z) : option Q :=
  match ticks with
  | [] => None
  | [_] => None
  | t0 :: rest =>
      let diffs := sortAsc (diffsLoop t0 rest []) in
      match diffs with
      | [] => None
      | _ =>
          let mid := (length diffs / 2)%nat in
          if Nat.odd (length diffs) then Some (inject_Z (nthZ diffs mid))
          else Some ((inject_Z (nthZ diffs (mid - 1)) + inject_Z (nthZ diffs mid)) / 2)%Q
      end
  end.

(** The candidate loop of [validateTicksFromFirst]: indices of the leading
    raw ticks at or below [topCut], at most [candidateCount = 8] of them. *)
Fixpoint candidatesLoop (rest : list Z) (i : nat) (topCut : Q) (cands : list nat)
    : list nat :=
  match rest with
  | [] => cands
  | y :: tl =>
      if (length cands <? 8)%nat then
        if Qle_bool (inject_Z y) topCut then candidatesLoop tl (S i) topCut (cands ++ [i])
        else cands
      else cands
  end.

(** The [while (true)] loop of [validateFromIndex].  Each round either
    stops or moves [rawIdx] past the accepted tick, so [length rawTicks]
    rounds always suffice; [fuel] counts the rounds still allowed and
    [None] reports that it ran out. *)
Fixpoint validateLoop (fuel : nat) (rawTicks : list Z) (dy : Q) (snapWin : Z)
    (expected : Q) (rawIdx : nat) (validated : list Z) : option (list Z) :=
  match fuel with
  | O => None
  | S k =>
      let expected1 := (expected + dy)%Q in
      match nearestTickWithin rawTicks expected1 snapWin rawIdx with
      | None => Some validated
      | Some hit =>
          validateLoop k rawTicks dy snapWin expected1 (S (hit_idx hit))
                       (validated ++ [hit_y hit])
      end
  end.

Definition validateFromIndex (rawTicks : list Z) (dy : Q) (snapWin : Z)
    (startIndex : nat) : option (list Z) :=
  let y0 := nthZ rawTicks startIndex in
  validateLoop (S (length rawTicks)) rawTicks dy snapWin (inject_Z y0)
               (S startIndex) [y0].

(** The selection loop: the first chain that is strictly longer than all
    earlier ones is kept. *)
Fixpoint bestChainLoop (rawTicks : list Z) (dy : Q) (snapWin : Z)
    (cands : list nat) (best : option (list Z * nat)) : option (option (list Z * nat)) :=
  match cands with
  | [] => Some best
  | c :: rest =>
      match validateFromIndex rawTicks dy snapWin c with
      | None => None
      | Some v =>
          let best1 :=
            match best with
            | None => Some (v, c)
            | Some (bt, _) => if (length bt <? length v)%nat then Some (v, c) else best
            end in
          bestChainLoop rawTicks dy snapWin rest best1
      end
  end.

Record TickValidation : Type := mkTickValidation {
  tv_ok : bool;
  tv_ticks : list Z;
  tv_dy : option Q;
  tv_snapWin : Z;
  tv_startIndex : nat;
  tv_reason : string
}.

Definition dyInRange (dy : option Q) : bool :=
  match dy with
  | None => false
  | Some d => Qle_bool 10 d && Qle_bool d 90
  end.

Definition snapWinOf (dy : Q) : Z := clamp (round (dy * (10 # 100))) 4 18.

Definition topCutOf (rawTicks : list Z) : Q :=
  let yMin := nthZ rawTicks 0 in
  let yMax := nthZ rawTicks (length rawTicks - 1) in
  (inject_Z yMin + inject_Z (yMax - yMin) * (20 # 100))%Q.

Definition candidatesOf (rawTicks : list Z) : list nat :=
  match candidatesLoop rawTicks 0 (topCutOf rawTicks) [] with
  | [] => [0%nat]
  | cs => cs
  end.

(** [validateTicksFromFirst(rawTicks)] with its default options.  The outer
    [option] is [None] only if an inner chain loop ran out of rounds, which
    [validateTicksFromFirst_total] below excludes. *)
Definition validateTicksFromFirst (rawTicks : list Z) : option TickValidation :=
  if (length rawTicks <? 2)%nat then
    Some (mkTickValidation false rawTicks None 0 0 "too few raw ticks")
  else
    let dyO := computeMedianDy rawTicks in
    match dyO with
    | None => Some (mkTickValidation false rawTicks dyO 0 0 "bad median dy")
    | Some dy =>
        if negb (dyInRange dyO) then
          Some (mkTickValidation false rawTicks dyO 0 0 "bad median dy")
        else
          let snapWin := snapWinOf dy in
          match bestChainLoop rawTicks dy snapWin (candidatesOf rawTicks) None with
          | None => None
          | Some best =>
              let outTicks :=
                match best with
                | Some (t, _) => t
                | None => firstn 2 rawTicks
                end in
              let ok := (6 <=? length outTicks)%nat in
              Some (mkTickValidation ok outTicks dyO snapWin
                      (match best with Some (_, s) => s | None => 0%nat end)
                      (if ok then "ok" else "too few validated ticks"))
        end
    end.

(** ** Day regions and the ambient [window] state *)

Record DayRegion : Type := mkDayRegion { dr_x0 : Z; dr_x1 : Z }.

Definition weekday_eqb (a b : Weekday) : bool :=
  match a, b with
  | Monday, Monday | Tuesday, Tuesday | Wednesday, Wednesday
  | Thursday, Thursday | Friday, Friday => true
  | _, _ => false
  end.

(** The object [{ Monday: {x0, x1}, ... }], keys in insertion order. *)
Definition DayRegions : Type := list (Weekday * DayRegion).

Fixpoint lookupDay {A : Type} (m : list (Weekday * A)) (day : Weekday) : option A :=
  match m with
  | [] => None
  | (d, v) :: rest => if weekday_eqb d day then Some v else lookupDay rest day
  end.

(** [window.__TICK_LANE__]: the pixel lane stashed for the terminal tick. *)
Record TickLane : Type := mkTickLane {
  tl_x0 : Z;
  tl_x1 : Z;
  tl_x0Frac : Q;
  tl_x1Frac : Q
}.

(** One half-hour row: the pixel rows between two adjacent ticks. *)
Record SlotBand : Type := mkSlotBand {
  yStart : Z;
  yEnd : Z;
  topTick : Z;
  botTick : Z
}.

(** A calibrated background: the median colour and the tolerance.  A
    channel is [None] when the median of no samples was read
    ([undefined]).  The diagnostic fields [samples] and [whiteFrac] are
    left out. *)
Record BackgroundColor : Type := mkBackgroundColor {
  bg_r : option Z;
  bg_g : option Z;
  bg_b : option Z;
  bg_tol : Z
}.

(** [preMeta] of a nav: the image size and the time stamp. *)
Record PreMeta : Type := mkPreMeta { pm_w : Z; pm_h : Z; pm_ts : Z }.

(** The frozen geometry and calibration of one image, as returned by
    [computeFrozenNavFromPre].  [anchorStartTime] is [None] when the field
    is missing or the empty string. *)
Record Nav : Type := mkNav {
  dayRegions : option DayRegions;
  slotBands : option (list SlotBand);
  ticksForMap : list Z;
  bgWhite : option BackgroundColor;
  anchorStartTime : option string;
  preMeta : PreMeta;
  laneMeta : LaneFrac;
  dividerXs : option (list Z)
}.

(** The part of [window] the pipeline reads or writes. *)
Record Window : Type := mkWindow {
  TICK_LANE : option TickLane;
  DIV_XS : option (list Z);
  LAST_NAV : option Nav
}.

(** ** Layer G2: the global tick ladder *)

Definition hSpans : list (Q * Q) :=
  [ (8 # 100, 98 # 100); (12 # 100, 96 # 100); (18 # 100, 92 # 100) ].

(** [best] of [findBestHLinePeak]: the row (initially [null]) and its
    fraction (initially -1). *)
Definition hPeakSpanStep (pre : Pre) (y : Z) (best : option Z * Q) (sp : Q * Q)
    : option Z * Q :=
  let w := pre_w pre in
  let x0 := clamp (Qfloor (inject_Z w * fst sp)) 0 (w - 1) in
  let x1 := clamp (Qfloor (inject_Z w * snd sp)) (x0 + 1) w in
  let score := rectSum (darkP pre) (pre_W pre) x0 y x1 (y + 3) in
  let area := (x1 - x0) * ((y + 3) - y) in
  let fr := if area =? 0 then 0%Q else frac score area in
  if Qlt_bool (snd best) fr then (Some y, fr) else best.

Definition hPeakRowStep (pre : Pre) (best : option Z * Q) (y : Z) : option Z * Q :=
  fold_left (hPeakSpanStep pre y) hSpans best.

(** [findBestHLinePeak(pre, expectedY, { snapWin })]: [Some y] when
    [ok], [None] for the failure "no strong line peak". *)
Definition findBestHLinePeak (pre : Pre) (expectedY : Q) (snapWin : Z) : option Z :=
  let h := pre_h pre in
  let yLo := clamp (Qfloor (expectedY - inject_Z snapWin)) 0 (h - 3) in
  let yHi := clamp (Qfloor (expectedY + inject_Z snapWin)) 0 (h - 3) in
  let best := fold_left (hPeakRowStep pre) (rangeStep yLo yHi 1) (None, (-1)%Q) in
  match fst best with
  | None => None
  | Some y => if Qlt_bool (snd best) (14 # 100) then None else Some y
  end.

Record StripeStats : Type := mkStripeStats {
  ss_x0 : Z;
  ss_x1 : Z;
  ss_nonWhiteFrac : Q;
  ss_darkFrac : Q;
  ss_score : Q
}.

(** [stripeStats(xc)] inside [hasVerticalDayStructureAtY] ([stripeW = 9]). *)
Definition stripeStats (pre : Pre) (y0 y1 : Z) (xc : Z) : option StripeStats :=
  let w := pre_w pre in
  let x0 := clamp (Qfloor (inject_Z xc - (9 # 2))) 0 (w - 1) in
  let x1 := clamp (x0 + 9) (x0 + 1) w in
  let area := (x1 - x0) * (y1 - y0) in
  if area <=? 0 then None
  else
    let whiteCount := rectSum (whiteP pre) (pre_W pre) x0 y0 x1 y1 in
    let nonWhiteFrac := frac (area - whiteCount) area in
    let darkCount := rectSum (darkP pre) (pre_W pre) x0 y0 x1 y1 in
    let darkFrac := frac darkCount area in
    Some (mkStripeStats x0 x1 nonWhiteFrac darkFrac
            (nonWhiteFrac + (25 # 100) * darkFrac)%Q).

Definition stripeSearchStep (pre : Pre) (y0 y1 : Z) (xcBase : Z)
    (best : option StripeStats) (dx : Z) : option StripeStats :=
  let xc := clamp (xcBase + dx) 0 (pre_w pre - 1) in
  match stripeStats pre y0 y1 xc with
  | None => best
  | Some s =>
      match best with
      | None => Some s
      | Some b => if Qlt_bool (ss_score b) (ss_score s) then Some s else best
      end
  end.

(** Whether the divider guessed at [xc0] shows a stripe
    ([searchDx = 14], [searchStep = 2], [minNonWhiteFrac = 0.22],
    [minDarkFrac = 0.06]). *)
Definition dividerHit (pre : Pre) (y0 y1 : Z) (xc0 : Z) : bool :=
  let xcBase := clamp xc0 0 (pre_w pre - 1) in
  match fold_left (stripeSearchStep pre y0 y1 xcBase) (rangeStep (-14) 14 2) None with
  | None => false
  | Some best =>
      Qle_bool (22 # 100) (ss_nonWhiteFrac best) || Qle_bool (6 # 100) (ss_darkFrac best)
  end.

(** [hasVerticalDayStructureAtY(pre, y, { dividerXs, requireCount }).ok]
    ([bandH = 22]). *)
Definition hasVerticalDayStructureAtY (pre : Pre) (y : Q) (dividerXs : list Z)
    (requireCount : nat) : bool :=
  let h := pre_h pre in
  let y0 := clamp (Qfloor (y - 11)) 0 (h - 1) in
  let y1 := clamp (y0 + 22) (y0 + 1) h in
  match dividerXs with
  | [] => false
  | _ =>
      let hits := length (filter (dividerHit pre y0 y1) dividerXs) in
      (requireCount <=? hits)%nat
  end.

(** [evalBand(x0, x1).ok] inside [hasRowLikeStructure]; [None] is the
    [null] of an empty band ([minNonWhiteFrac = 0.06], [maxDarkFrac = 0.22]). *)
Definition evalBand (pre : Pre) (y0 y1 : Z) (bx0 bx1 : Q) : option bool :=
  let w := pre_w pre in
  let x0 := clamp (Qfloor bx0) 0 (w - 1) in
  let x1 := clamp (Qfloor bx1) (x0 + 1) w in
  let area := (x1 - x0) * (y1 - y0) in
  if area <=? 0 then None
  else
    let whiteCount := rectSum (whiteP pre) (pre_W pre) x0 y0 x1 y1 in
    let nonWhiteFrac := frac (area - whiteCount) area in
    let darkCount := rectSum (darkP pre) (pre_W pre) x0 y0 x1 y1 in
    let darkFrac := frac darkCount area in
    Some (Qle_bool (6 # 100) nonWhiteFrac && Qle_bool darkFrac (22 # 100)).

Definition fallbackSpans : list (Q * Q) :=
  [ (14 # 100, 30 # 100); (34 # 100, 50 # 100);
    (54 # 100, 70 # 100); (74 # 100, 90 # 100) ].

Definition countTrue (l : list bool) : nat := length (filter (fun b => b) l).

(** Keep the defined results of a list of optional ones ([continue] on
    [null]). *)
Fixpoint somes {A : Type} (l : list (option A)) : list A :=
  match l with
  | [] => []
  | Some a :: t => a :: somes t
  | None :: t => somes t
  end.

(** The type of a page-level [trimDayRegionByDivider(region, dividerXs,
    insetPx)]: the second argument is [None] when the caller passes [null],
    the result [None] stands for a falsy result, and the call may throw. *)
Definition TrimFunction : Type :=
  DayRegion -> option (list Z) -> Z -> Outcome (option DayRegion).

Section Pipeline.

(** [trimDayRegionByDivider] is called by the pipeline and defined by none
    of the scripts: it is [None] on a page that loads these scripts only,
    and [Some f] on a page that defines it elsewhere. *)
Variable trimDayRegionByDivider : option TrimFunction.

(** [Math.random()]: the n-th draw. *)
Variable rand : nat -> Q.

(** [Date.now()] as [computeFrozenNavFromPre] reads it. *)
Variable now : Z.

(** The call [trimDayRegionByDivider(r, dividerXs, 6)] by the bare
    identifier: a [ReferenceError] where nothing defines it. *)
Definition callTrimDayRegionByDivider (r : DayRegion) (dividerXs : option (list Z))
    (insetPx : Z) : Outcome (option DayRegion) :=
  match trimDayRegionByDivider with
  | Some f => f r dividerXs insetPx
  | None => Thrown "trimDayRegionByDivider is not defined"
  end.

(** The sample of one weekday in [hasRowLikeStructure]. *)
Definition rowSampleOfDay (pre : Pre) (y0 y1 : Z) (dayRegions : DayRegions)
    (dividerXs : list Z) (day : Weekday) : Outcome (option bool) :=
  match lookupDay dayRegions day with
  | None => Returned None
  | Some r =>
      match callTrimDayRegionByDivider r (Some dividerXs) 6 with
      | Thrown message => Thrown message
      | Returned None => Returned None
      | Returned (Some t) =>
          let span := dr_x1 t - dr_x0 t in
          let inset := clamp (round (inject_Z span * (10 # 100))) 6 22 in
          Returned (evalBand pre y0 y1 (inject_Z (dr_x0 t + inset))
                             (inject_Z (dr_x1 t - inset)))
      end
  end.

(** The loop [for (const day of WEEKDAYS)] of [hasRowLikeStructure]: the
    [ok] of the samples pushed, unless a round throws. *)
Fixpoint rowSamples (pre : Pre) (y0 y1 : Z) (dayRegions : DayRegions)
    (dividerXs : list Z) (days : list Weekday) : Outcome (list bool) :=
  match days with
  | [] => Returned []
  | day :: rest =>
      match rowSampleOfDay pre y0 y1 dayRegions dividerXs day with
      | Thrown message => Thrown message
      | Returned s =>
          match rowSamples pre y0 y1 dayRegions dividerXs rest with
          | Thrown message => Thrown message
          | Returned l => Returned (match s with Some b => b :: l | None => l end)
          end
      end
  end.

(** [hasRowLikeStructure(pre, y, { dayRegions, dividerXs }).ok]
    ([bandH = 10], [requireDaysOk = 3]). *)
Definition hasRowLikeStructure (pre : Pre) (y : Q) (dayRegions : option DayRegions)
    (dividerXs : list Z) : Outcome bool :=
  let w := pre_w pre in
  let h := pre_h pre in
  let y0 := clamp (Qfloor (y - 5)) 0 (h - 1) in
  let y1 := clamp (y0 + 10) (y0 + 1) h in
  let fallback :=
    let samples :=
      somes (map (fun sp => evalBand pre y0 y1 (inject_Z w * fst sp) (inject_Z w * snd sp))
                 fallbackSpans) in
    (Nat.max 2 (Z.to_nat (Qceiling (inject_Z (Z.of_nat (length samples)) * (5 # 10))))
       <=? countTrue samples)%nat in
  match dayRegions, dividerXs with
  | Some regions, _ :: _ =>
      match rowSamples pre y0 y1 regions dividerXs WEEKDAYS with
      | Thrown message => Thrown message
      | Returned samples => Returned (3 <=? countTrue samples)%nat
      end
  | _, _ => Returned fallback
  end.

Record LaneMark : Type := mkLaneMark {
  lm_y : Z;
  lm_nonWhiteFrac : Q;
  lm_score : Q
}.

(** One row of the scan of [findBestLaneMarkNearY] ([bandH = 14]). *)
Definition laneMarkStep (pre : Pre) (x0 x1 : Z) (best : option LaneMark) (y0 : Z)
    : option LaneMark :=
  let y1 := y0 + 14 in
  let area := (x1 - x0) * (y1 - y0) in
  if area <=? 0 then best
  else
    let whiteCount := rectSum (whiteP pre) (pre_W pre) x0 y0 x1 y1 in
    let nonWhiteFrac := frac (area - whiteCount) area in
    let darkCount := rectSum (darkP pre) (pre_W pre) x0 y0 x1 y1 in
    let darkFrac := frac darkCount area in
    let score := (nonWhiteFrac + (25 # 100) * darkFrac)%Q in
    let cand := mkLaneMark (y0 + 7) nonWhiteFrac score in
    match best with
    | None => Some cand
    | Some b => if Qlt_bool (lm_score b) score then Some cand else best
    end.

(** [findBestLaneMarkNearY(pre, expectedY, { lane, bandH: 14,
    minNonWhiteFrac: 0.05, snapWin })]: the [y] of the result, [None] for
    [null]. *)
Definition findBestLaneMarkNearY (pre : Pre) (expectedY : Q) (lane : option TickLane)
    (snapWin : Z) : option Z :=
  match lane with
  | None => None
  | Some L =>
      let w := pre_w pre in
      let h := pre_h pre in
      let x0 := clamp (tl_x0 L) 0 (w - 1) in
      let x1 := clamp (tl_x1 L) (x0 + 1) w in
      let yLo := clamp (Qfloor (expectedY - inject_Z snapWin)) 0 (h - 14) in
      let yHi := clamp (Qfloor (expectedY + inject_Z snapWin)) 0 (h - 14) in
      match fold_left (laneMarkStep pre x0 x1) (rangeStep yLo yHi 1) None with
      | None => None
      | Some best =>
          if Qlt_bool (lm_nonWhiteFrac best) (5 # 100) then None else Some (lm_y best)
      end
  end.

Record LadderOpts : Type := mkLadderOpts {
  lo_dividerXs : list Z;
  lo_dayRegions : option DayRegions;
  lo_requireCount : option nat
}.

(** The loop variables of [buildGlobalTickLadder]. *)
Record LadderState : Type := mkLadderState {
  ls_out : list Z;
  ls_prev : Q;
  ls_consecutiveVGood : nat;
  ls_allowedGapUsed : bool
}.

(** The outcome of one round of the loop: [continue] with new variables,
    [break] with the final ticks and [stopReason], or an exception. *)
Inductive LadderStep : Type :=
| Continue (st : LadderState)
| Break (out : list Z) (stopReason : string)
| Throw (message : string).

Definition ladderSnapWin (dy : Q) : Z := clamp (round (dy * (12 # 100))) 4 18.

Definition snapWinTermOf (dy : Q) : Z := clamp (round (dy * (7 # 10))) 10 28.

(** The end of a round in which no cue accepted: the terminal tick from the
    left lane, then [break]. *)
Definition terminalStep (pre : Pre) (win : Window) (dy : Q) (expected : Q)
    (out : list Z) : LadderStep :=
  let snapWinTerm := snapWinTermOf dy in
  match findBestLaneMarkNearY pre expected (TICK_LANE win) snapWinTerm with
  | Some y =>
      if Qle_bool (Qabs (inject_Z y - expected)) (inject_Z snapWinTerm)
      then Break (out ++ [y]) "no strong line peak"
      else Break out "no strong line peak"
  | None => Break out "no strong line peak"
  end.

(** One round of the [while (steps < maxSteps)] loop. *)
Definition ladderStep (pre : Pre) (win : Window) (dy : Q) (snapWin : Z)
    (opts : LadderOpts) (st : LadderState) : LadderStep :=
  let expected := (ls_prev st + dy)%Q in
  if Qle_bool (inject_Z (pre_h pre - 2)) expected then
    Break (ls_out st) "hit image bottom"
  else
    match findBestHLinePeak pre expected snapWin with
    | Some y =>
        Continue (mkLadderState (ls_out st ++ [y]) (inject_Z y) 0 false)
    | None =>
        let requireCount :=
          match lo_requireCount opts with Some n => n | None => 3%nat end in
        if hasVerticalDayStructureAtY pre expected (lo_dividerXs opts) requireCount then
          match hasRowLikeStructure pre expected (lo_dayRegions opts) (lo_dividerXs opts)
          with
          | Thrown message => Throw message
          | Returned false => Break (ls_out st) "left table (row band failed)"
          | Returned true =>
              Continue (mkLadderState (ls_out st ++ [round expected]) expected
                          (S (ls_consecutiveVGood st)) false)
          end
        else
          let stableRun := (5 <=? ls_consecutiveVGood st)%nat in
          if stableRun then
            if hasVerticalDayStructureAtY pre expected (lo_dividerXs opts) 2 then
              match hasRowLikeStructure pre expected (lo_dayRegions opts)
                                        (lo_dividerXs opts)
              with
              | Thrown message => Throw message
              | Returned false =>
                  Break (ls_out st) "left table (row band failed on retry)"
              | Returned true =>
                  Continue (mkLadderState (ls_out st ++ [round expected]) expected 1 false)
              end
            else if negb (ls_allowedGapUsed st) then
              Continue (mkLadderState (ls_out st) (ls_prev st)
                          (ls_consecutiveVGood st) true)
            else terminalStep pre win dy expected (ls_out st)
          else terminalStep pre win dy expected (ls_out st)
    end.

(** The loop itself: [fuel] is [maxSteps - steps]; the ticks and the
    [stopReason] at the exit, or the exception that ended the loop, and
    with them the value of [steps]. *)
Fixpoint ladderLoop (fuel : nat) (pre : Pre) (win : Window) (dy : Q) (snapWin : Z)
    (opts : LadderOpts) (steps : nat) (st : LadderState)
    : Outcome (list Z * string) * nat :=
  match fuel with
  | O => (Returned (ls_out st, "unknown"%string), steps)
  | S k =>
      match ladderStep pre win dy snapWin opts st with
      | Continue st1 => ladderLoop k pre win dy snapWin opts (S steps) st1
      | Break out reason => (Returned (out, reason), S steps)
      | Throw message => (Thrown message, S steps)
      end
  end.

Record LadderResult : Type := mkLadderResult {
  lr_ok : bool;
  lr_ticks : list Z;
  lr_dy : Q;
  lr_snapWin : Z;
  lr_stopReason : string
}.

Definition maxSteps : nat := 120.

(** [buildGlobalTickLadder(pre, vTicks, dy, opts)]. *)
Definition buildGlobalTickLadder (pre : Pre) (win : Window) (vTicks : list Z) (dy : Q)
    (opts : LadderOpts) : Outcome LadderResult :=
  if (length vTicks <? 2)%nat then
    Returned (mkLadderResult false vTicks dy 0 "missing inputs")
  else
    let snapWin := ladderSnapWin dy in
    let v0 := nthZ vTicks 0 in
    match fst (ladderLoop maxSteps pre win dy snapWin opts 0
                          (mkLadderState [v0] (inject_Z v0) 0 false)) with
    | Thrown message => Thrown message
    | Returned (out, stopReason) =>
        Returned (mkLadderResult (2 <=? length out)%nat out dy snapWin stopReason)
    end.

(** ** Layer H0: day dividers *)

Definition pickDayBandY (pre : Pre) (vTicks : list Z) : Z :=
  let h := pre_h pre in
  if (length vTicks <? 6)%nat then
    clamp (Qfloor (toDouble (inject_Z h * toDouble (35 # 100)))) 0 (h - 1)
  else
    let i := Z.to_nat (clamp 8 2 (Z.of_nat (length vTicks) - 3)) in
    let y := (nthZ vTicks i + nthZ vTicks (S i)) / 2 in
    clamp y 0 (h - 1).

Record VLine : Type := mkVLine {
  vl_x : Z;
  vl_nonWhiteFrac : Q;
  vl_darkFrac : Q;
  vl_score : Q
}.

(** [scoreVLineAtX(pre, x, yCenter, { bandH: 160, stripeW: 5 })]; the
    [score] field is filled in by the callers. *)
Definition scoreVLineAtX (pre : Pre) (x : Z) (yCenter : Z) : option VLine :=
  let w := pre_w pre in
  let h := pre_h pre in
  let x0 := clamp (Qfloor (inject_Z x - (5 # 2))) 0 (w - 1) in
  let x1 := clamp (x0 + 5) (x0 + 1) w in
  let y0 := clamp (yCenter - 80) 0 (h - 1) in
  let y1 := clamp (y0 + 160) (y0 + 1) h in
  let area := (x1 - x0) * (y1 - y0) in
  if area =? 0 then None
  else
    let whiteCount := rectSum (whiteP pre) (pre_W pre) x0 y0 x1 y1 in
    let nonWhiteFrac := frac (area - whiteCount) area in
    let darkCount := rectSum (darkP pre) (pre_W pre) x0 y0 x1 y1 in
    let darkFrac := frac darkCount area in
    Some (mkVLine x nonWhiteFrac darkFrac 0).

(** [nonWhiteFrac + darkFrac * 0.25] on the doubles of the two quotients,
    as a double. *)
Definition vlineScore (nonWhiteFrac darkFrac : Q) : Q :=
  toDouble (toDouble nonWhiteFrac + toDouble (toDouble darkFrac * (25 # 100))).

Definition withScore (s : VLine) : VLine :=
  mkVLine (vl_x s) (vl_nonWhiteFrac s) (vl_darkFrac s)
          (vlineScore (vl_nonWhiteFrac s) (vl_darkFrac s)).

(** One offset of the search of [findBestDividerNearX]
    ([minNonWhiteFrac = 0.18]). *)
Definition dividerSearchStep (pre : Pre) (yCenter : Z) (xGuess : Q)
    (best : option VLine) (dx : Z) : option VLine :=
  let x := Qfloor (xGuess + inject_Z dx) in
  if (x <=? 0) || (pre_w pre <=? x) then best
  else
    match scoreVLineAtX pre x yCenter with
    | None => best
    | Some s =>
        if Qlt_bool (vl_nonWhiteFrac s) (18 # 100) then best
        else
          let c := withScore s in
          match best with
          | None => Some c
          | Some b => if Qlt_bool (vl_score b) (vl_score c) then Some c else best
          end
    end.

(** [findBestDividerNearX(pre, yCenter, xGuess, { bandH, stripeW })]: the
    defaults [searchPx = 40] and [scanStep = 1] apply. *)
Definition findBestDividerNearX (pre : Pre) (yCenter : Z) (xGuess : Q) : option VLine :=
  fold_left (dividerSearchStep pre yCenter xGuess) (rangeStep (-40) 40 1) None.

(** The anchor scans of [findDayDividers]: the first [x] of the given
    sequence whose stripe has a non-white fraction of at least 0.22. *)
Fixpoint firstAnchor (pre : Pre) (yCenter : Z) (xs : list Z) : option VLine :=
  match xs with
  | [] => None
  | x :: rest =>
      match scoreVLineAtX pre x yCenter with
      | None => firstAnchor pre yCenter rest
      | Some s =>
          if Qlt_bool (vl_nonWhiteFrac s) (22 # 100) then firstAnchor pre yCenter rest
          else Some (withScore s)
      end
  end.

Record DividerResult : Type := mkDividerResult {
  dv_ok : bool;
  dv_reason : string;
  dv_yCenter : Z;
  dv_xs : list Z
}.

Definition digitString (i : nat) : string :=
  match i with
  | 0%nat => "0" | 1%nat => "1" | 2%nat => "2" | 3%nat => "3" | 4%nat => "4"
  | 5%nat => "5" | 6%nat => "6" | 7%nat => "7" | 8%nat => "8" | _ => "9"
  end.

(** The walk over the expected positions [i, i+1, ...]: [inl divs] when
    every search found a divider, [inr i] for "missing divider i". *)
Fixpoint walkDividers (pre : Pre) (yCenter : Z) (leftX : Z) (step : Q)
    (idxs : list nat) (divs : list VLine) : list VLine + nat :=
  match idxs with
  | [] => inl divs
  | i :: rest =>
      let guess := (inject_Z leftX + step * inject_Z (Z.of_nat i))%Q in
      match findBestDividerNearX pre yCenter guess with
      | None => inr i
      | Some best => walkDividers pre yCenter leftX step rest (divs ++ [best])
      end
  end.

(** [findDayDividers(pre, vTicks)] ([expected = 6], [xStartFrac = 0.10],
    [xEndFrac = 0.985]). *)
Definition findDayDividers (pre : Pre) (vTicks : list Z) : DividerResult :=
  let yCenter := pickDayBandY pre vTicks in
  let w := pre_w pre in
  let xStart := Qfloor (inject_Z w * (10 # 100)) in
  let xEnd := Qfloor (inject_Z w * (985 # 1000)) in
  match firstAnchor pre yCenter (rangeStep xStart xEnd 2) with
  | None => mkDividerResult false "could not find leftmost divider" yCenter []
  | Some leftA =>
      match firstAnchor pre yCenter (rangeDown xEnd xStart 2) with
      | None => mkDividerResult false "could not find rightmost divider" yCenter []
      | Some rightA =>
          if vl_x rightA <=? vl_x leftA + 50 then
            mkDividerResult false "could not find rightmost divider" yCenter []
          else
            let span := vl_x rightA - vl_x leftA in
            let step := (inject_Z span / 5)%Q in
            match walkDividers pre yCenter (vl_x leftA) step (seq 0 6) [] with
            | inr i =>
                mkDividerResult false ("missing divider " ++ digitString i) yCenter []
            | inl divs =>
                let xs := map vl_x divs in
                mkDividerResult (length xs =? 6)%nat "ok" yCenter xs
            end
      end
  end.

Record FreezeResult : Type := mkFreezeResult {
  fr_ok : bool;
  fr_reason : string;
  fr_regions : DayRegions;
  fr_xs : list Z
}.

(** The loop [for (i = 0; i < 5; i++)] of [freezeDayRegionsFromDividers]. *)
Definition regionsOf (xs : list Z) : DayRegions :=
  map (fun p => (snd p, mkDayRegion (nthZ xs (fst p)) (nthZ xs (S (fst p)))))
      (combine (seq 0 5) WEEKDAYS).

Definition freezeDayRegionsFromDividers (ok : bool) (dxs : list Z) : FreezeResult :=
  if negb ok then mkFreezeResult false "no dividers" [] []
  else
    let xs := sortAsc dxs in
    if negb (length xs =? 6)%nat then mkFreezeResult false "bad divider count" [] []
    else mkFreezeResult true "ok" (regionsOf xs) xs.

(** ** Layer H: slot bands *)

Record LineBand : Type := mkLineBand { lb_y0 : Z; lb_y1 : Z; lb_cy : Z }.

Definition isDarkRow (pre : Pre) (x0 x1 rowDarkThresh : Z) (y : Z) : bool :=
  if (y <? 0) || (pre_h pre <=? y) then false
  else rowDarkThresh <=? rectSum (darkP pre) (pre_W pre) x0 y x1 (y + 1).

(** [while (y0 > 0 && isDarkRow(y0 - 1)) y0--]; the row can move up at
    most [y0] times, which is the [fuel] handed in. *)
Fixpoint growUp (fuel : nat) (pre : Pre) (x0 x1 thr : Z) (y0 : Z) : Z :=
  match fuel with
  | O => y0
  | S k => if (0 <? y0) && isDarkRow pre x0 x1 thr (y0 - 1)
           then growUp k pre x0 x1 thr (y0 - 1) else y0
  end.

(** [while (y1 < h - 1 && isDarkRow(y1 + 1)) y1++]. *)
Fixpoint growDown (fuel : nat) (pre : Pre) (x0 x1 thr : Z) (y1 : Z) : Z :=
  match fuel with
  | O => y1
  | S k => if (y1 <? pre_h pre - 1) && isDarkRow pre x0 x1 thr (y1 + 1)
           then growDown k pre x0 x1 thr (y1 + 1) else y1
  end.

Definition estimateLineBandAtTick (pre : Pre) (yCenter : Z) (lane : LaneFrac) : LineBand :=
  let w := pre_w pre in
  let h := pre_h pre in
  let x0 := clamp (Qfloor (inject_Z w * x0Frac lane)) 0 (w - 1) in
  let x1 := clamp (Qfloor (inject_Z w * x1Frac lane)) (x0 + 1) w in
  let rowDarkThresh := Z.max 2 (Qfloor (inject_Z (x1 - x0) * (12 # 100))) in
  let yc := clamp yCenter 0 (h - 1) in
  let y0 := growUp (Z.to_nat yc) pre x0 x1 rowDarkThresh yc in
  let y1 := growDown (Z.to_nat (h - yc)) pre x0 x1 rowDarkThresh yc in
  mkLineBand y0 (y1 + 1) yc.

(** The pairing loop of [buildSlotBandsFromTicks]. *)
Fixpoint pairBands (pre : Pre) (lineBands : list LineBand) : list SlotBand :=
  match lineBands with
  | top :: ((bot :: _) as rest) =>
      let ys := clamp (lb_y1 top) 0 (pre_h pre - 1) in
      let ye := clamp (lb_y0 bot) 1 (pre_h pre) in
      if 8 <=? ye - ys
      then mkSlotBand ys ye (lb_cy top) (lb_cy bot) :: pairBands pre rest
      else pairBands pre rest
  | _ => []
  end.

Definition buildSlotBandsFromTicks (pre : Pre) (ticks : list Z) (lane : LaneFrac)
    : list SlotBand :=
  if (length ticks <? 2)%nat then []
  else
    let lineBands := map (fun t => estimateLineBandAtTick pre t lane) ticks in
    if (length lineBands <? 2)%nat then [] else pairBands pre lineBands.

(** ** Layer I: background calibration *)

Inductive CalResult : Type :=
| CalOk (bg : BackgroundColor)
| CalFail (reason : string).

(** A candidate cell with its measured whiteness. *)
Record CalCell : Type := mkCalCell {
  cc_x0 : Z;
  cc_x1 : Z;
  cc_y0 : Z;
  cc_y1 : Z;
  cc_whiteFrac : Q
}.

Definition rectWhiteFrac (pre : Pre) (x0 y0 x1 y1 : Z) : Q :=
  let area := (x1 - x0) * (y1 - y0) in
  if area <=? 0 then 0%Q
  else frac (rectSum (whiteP pre) (pre_W pre) x0 y0 x1 y1) area.

(** [candidates.sort((a, b) => b.whiteFrac - a.whiteFrac)]: descending and
    stable. *)
Fixpoint insertByWhite (c : CalCell) (l : list CalCell) : list CalCell :=
  match l with
  | [] => [c]
  | y :: t =>
      if Qle_bool (cc_whiteFrac y) (cc_whiteFrac c) then c :: l
      else y :: insertByWhite c t
  end.

Fixpoint sortByWhite (l : list CalCell) : list CalCell :=
  match l with
  | [] => []
  | c :: t => insertByWhite c (sortByWhite t)
  end.

Definition sumQ (l : list Q) : Q := fold_left Qplus l 0%Q.

(** [chosen.reduce((acc, c) => acc + c.whiteFrac, 0) / chosen.length];
    [None] is the [NaN] of an empty [chosen]. *)
Definition meanWhite (chosen : list CalCell) : option Q :=
  match chosen with
  | [] => None
  | _ => Some (sumQ (map cc_whiteFrac chosen) / inject_Z (Z.of_nat (length chosen)))%Q
  end.

(** [mean < minAcceptWhiteFrac] with [minAcceptWhiteFrac = 0.70]. *)
Definition belowAccept (mean : option Q) : bool :=
  match mean with
  | None => false
  | Some m => Qlt_bool m (70 # 100)
  end.

Definition Pixel : Type := (Z * Z * Z)%type.

Definition readPixel (pre : Pre) (x y : Z) : Pixel :=
  let p := idxOf x y (pre_w pre) in
  (imgData pre p, imgData pre (p + 1), imgData pre (p + 2)).

Definition chanR (p : Pixel) : Z := fst (fst p).
Definition chanG (p : Pixel) : Z := snd (fst p).
Definition chanB (p : Pixel) : Z := snd p.

(** The inner sampling loop of [calibrateFridayBackground] for one chosen
    cell; [n] is the index of the next draw. *)
Fixpoint fridaySamples (pre : Pre) (c : CalCell) (count : nat) (n : nat)
    : list Pixel :=
  match count with
  | O => []
  | S k =>
      let x := toInt32 (clampQ (inject_Z (cc_x0 c) + rand n * inject_Z (cc_x1 c - cc_x0 c))
                               0 (pre_w pre - 1)) in
      let y := toInt32 (clampQ (inject_Z (cc_y0 c)
                                + rand (S n) * inject_Z (cc_y1 c - cc_y0 c))
                               0 (pre_h pre - 1)) in
      readPixel pre x y :: fridaySamples pre c k (S (S n))
  end.

(** The inner sampling loop of [calibrateGlobalBackground]. *)
Fixpoint globalSamples (pre : Pre) (c : CalCell) (count : nat) (n : nat)
    : list Pixel :=
  match count with
  | O => []
  | S k =>
      let x := toInt32 (inject_Z (cc_x0 c) + rand n * inject_Z (cc_x1 c - cc_x0 c)) in
      let y := toInt32 (inject_Z (cc_y0 c) + rand (S n) * inject_Z (cc_y1 c - cc_y0 c)) in
      readPixel pre x y :: globalSamples pre c k (S (S n))
  end.

(** The outer loop [for (const c of chosen)] with [samplesPerSlot = 60]. *)
Fixpoint sampleChosen (sampler : CalCell -> nat -> nat -> list Pixel)
    (chosen : list CalCell) (n : nat) : list Pixel * nat :=
  match chosen with
  | [] => ([], n)
  | c :: rest =>
      let here := sampler c 60%nat n in
      let '(more, n1) := sampleChosen sampler rest (n + 120)%nat in
      (here ++ more, n1)
  end.

(** [arr.sort((a, b) => a - b); arr[arr.length >> 1]]. *)
Definition medianOf (l : list Z) : option Z :=
  nth_error (sortAsc l) (length l / 2).

(** [mad(arr, m)]. *)
Definition mad (arr : list Z) (m : Z) : Z :=
  let d := sortAsc (map (fun v => Z.abs (v - m)) arr) in
  nthZ d (length d / 2).

Definition orZero (o : option Z) : Z := match o with Some z => z | None => 0 end.

Definition fridayCandidate (pre : Pre) (fx0 fx1 : Z) (s : SlotBand) : CalCell :=
  let w := pre_w pre in
  let h := pre_h pre in
  let x0 := clamp (fx0 + 8) 0 (w - 1) in
  let x1 := clamp (fx1 - 8) (x0 + 1) w in
  let y0 := clamp (yStart s + 2) 0 (h - 1) in
  let y1 := clamp (yEnd s - 2) (y0 + 1) h in
  mkCalCell x0 x1 y0 y1 (rectWhiteFrac pre x0 y0 x1 y1).

(** The slots chosen by the Friday strategy: the [CAL_PICK_TOP] whitest of
    the bottom [pickBottom = 8] slot bands. *)
Definition fridayChosen (pre : Pre) (fri : DayRegion) (slotBands : list SlotBand)
    : list CalCell :=
  firstn (Nat.max 1 CAL_PICK_TOP)
         (sortByWhite (map (fridayCandidate pre (dr_x0 fri) (dr_x1 fri))
                           (lastN 8 slotBands))).

Definition fridayTol (spread : Z) : Z :=
  clamp (round (inject_Z BG_TOL_BASE + inject_Z spread * (25 # 10))) BG_TOL_BASE BG_TOL_MAX.

(** [calibrateFridayBackground(pre, dayRegions, slotBands)]; [n] is the
    index of the next random draw, returned advanced. *)
Definition calibrateFridayBackground (pre : Pre) (dayRegions : DayRegions)
    (slotBands : list SlotBand) (n : nat) : CalResult * nat :=
  match lookupDay dayRegions Friday with
  | None => (CalFail "missing inputs", n)
  | Some fri =>
      if (length slotBands <? 4)%nat then (CalFail "missing inputs", n)
      else
        let chosen := fridayChosen pre fri slotBands in
        if belowAccept (meanWhite chosen) then
          (CalFail "friday too busy/colored (low whiteness)", n)
        else
          let '(px, n1) := sampleChosen (fridaySamples pre) chosen n in
          let rs := map chanR px in
          let gs := map chanG px in
          let bs := map chanB px in
          if (length rs <? 80)%nat then (CalFail "too few samples", n1)
          else
            let rMed := medianOf rs in
            let gMed := medianOf gs in
            let bMed := medianOf bs in
            let spread :=
              Z.max (Z.max (mad rs (orZero rMed)) (mad gs (orZero gMed)))
                    (mad bs (orZero bMed)) in
            (CalOk (mkBackgroundColor rMed gMed bMed (fridayTol spread)), n1)
  end.

Definition globalCandidate (pre : Pre) (day : DayRegion) (s : SlotBand) : CalCell :=
  let w := pre_w pre in
  let h := pre_h pre in
  let y0 := clamp (yStart s + 2) 0 (h - 1) in
  let y1 := clamp (yEnd s - 2) (y0 + 1) h in
  let rx0 := clamp (dr_x0 day + 8) 0 (w - 1) in
  let rx1 := clamp (dr_x1 day - 8) (rx0 + 1) w in
  mkCalCell rx0 rx1 y0 y1 (rectWhiteFrac pre rx0 y0 rx1 y1).

(** The slots chosen by the global strategy: the [CAL_PICK_TOP] whitest of
    all (day, slot) cells. *)
Definition globalChosen (pre : Pre) (dayRegions : DayRegions) (slotBands : list SlotBand)
    : list CalCell :=
  firstn (Nat.max 1 CAL_PICK_TOP)
         (sortByWhite
            (flat_map (fun d => map (globalCandidate pre (snd d)) slotBands) dayRegions)).

Definition globalTol : Z :=
  clamp (round (inject_Z BG_TOL_BASE + 10)) BG_TOL_BASE BG_TOL_MAX.

(** [calibrateGlobalBackground(pre, dayRegions, slotBands)]. *)
Definition calibrateGlobalBackground (pre : Pre) (dayRegions : DayRegions)
    (slotBands : list SlotBand) (n : nat) : CalResult * nat :=
  let chosen := globalChosen pre dayRegions slotBands in
  if belowAccept (meanWhite chosen) then (CalFail "global fallback too colored", n)
  else
    let '(px, n1) := sampleChosen (globalSamples pre) chosen n in
    (CalOk (mkBackgroundColor (medianOf (map chanR px)) (medianOf (map chanG px))
              (medianOf (map chanB px)) globalTol), n1).

(** ** Layer H/I glue: the frozen nav *)

Definition tickLaneOf (pre : Pre) (lane : LaneFrac) : TickLane :=
  mkTickLane (Qfloor (inject_Z (pre_w pre) * x0Frac lane))
             (Qfloor (inject_Z (pre_w pre) * x1Frac lane))
             (x0Frac lane) (x1Frac lane).

(** Step 7 of [computeFrozenNavFromPre]: Friday first, then the global
    fallback. *)
Definition calibrateBackground (pre : Pre) (regions : DayRegions)
    (bands : list SlotBand) (n : nat) : option BackgroundColor * nat :=
  match calibrateFridayBackground pre regions bands n with
  | (CalOk bg, n1) => (Some bg, n1)
  | (CalFail _, n1) =>
      match calibrateGlobalBackground pre regions bands n1 with
      | (CalOk bg, n2) => (Some bg, n2)
      | (CalFail _, n2) => (None, n2)
      end
  end.

(** [computeFrozenNavFromPre(pre)]: the nav or [null], or the exception of
    the row check of the ladder, with the [window] and the random index it
    leaves behind. *)
Definition computeFrozenNavFromPre (preO : option Pre) (win : Window) (n : nat)
    : Outcome (option Nav) * Window * nat :=
  match preO with
  | None => (Returned None, win, n)
  | Some pre =>
      let lane := pickBestTickLane pre in
      let win1 := mkWindow (Some (tickLaneOf pre lane)) (DIV_XS win) (LAST_NAV win) in
      let rawTicks := detectTimeTicksFromLeftLane pre lane in
      if (length rawTicks <? 2)%nat then (Returned None, win1, n)
      else
        match validateTicksFromFirst rawTicks with
        | None => (Returned None, win1, n)
        | Some v =>
            if negb (tv_ok v) || (length (tv_ticks v) <? 2)%nat
            then (Returned None, win1, n)
            else
            match tv_dy v with
            | None => (Returned None, win1, n)
                (* not reached: [ok] comes with a finite [dy] *)
            | Some dy =>
                  let vTicks := tv_ticks v in
                  let divRes := findDayDividers pre vTicks in
                  if negb (dv_ok divRes) || (length (dv_xs divRes) <? 6)%nat
                  then (Returned None, win1, n)
                  else
                    let xs := dv_xs divRes in
                    let normXs :=
                      if (length xs =? 6)%nat then xs else firstn 6 (skipn 1 xs) in
                    let fr := freezeDayRegionsFromDividers (dv_ok divRes) normXs in
                    if negb (fr_ok fr) || negb (length (fr_xs fr) =? 6)%nat
                    then (Returned None, win1, n)
                    else
                      let regions := fr_regions fr in
                      let dXs := fr_xs fr in
                      match buildGlobalTickLadder pre win1 vTicks dy
                              (mkLadderOpts dXs (Some regions) None) with
                      | Thrown message => (Thrown message, win1, n)
                      | Returned g =>
                      if negb (lr_ok g) || (length (lr_ticks g) <? 2)%nat
                      then (Returned None, win1, n)
                      else
                        let ticks := lr_ticks g in
                        let bands := buildSlotBandsFromTicks pre ticks lane in
                        if (length bands <? 1)%nat then (Returned None, win1, n)
                        else
                          match calibrateBackground pre regions bands n with
                          | (None, n1) => (Returned None, win1, n1)
                          | (Some bg, n1) =>
                              let ts := if pre_ts pre =? 0 then now else pre_ts pre in
                              (Returned
                                 (Some (mkNav (Some regions) (Some bands) ticks (Some bg)
                                          (Some "8:00 AM"%string)
                                          (mkPreMeta (pre_w pre) (pre_h pre) ts) lane
                                          (Some dXs))),
                               win1, n1)
                          end
                      end
            end
        end
  end.

Inductive NavResult : Type :=
| NavOk (nav : Nav)
| NavFail (reason : string).

(** [buildAndPublishNav(pre)]: an exception of the builder is caught and
    its text returned as the reason. *)
Definition buildAndPublishNav (preO : option Pre) (win : Window) (n : nat)
    : NavResult * Window * nat :=
  match preO with
  | None =>
      (NavFail "Nav build failed: pre is null/undefined (LAST_PRE never published?)",
       win, n)
  | Some _ =>
      match computeFrozenNavFromPre preO win n with
      | (Thrown message, win1, n1) => (NavFail message, win1, n1)
      | (Returned None, win1, n1) =>
          (NavFail "Nav builder returned null/undefined", win1, n1)
      | (Returned (Some nav), win1, n1) =>
          match dayRegions nav, slotBands nav, bgWhite nav with
          | None, _, _ => (NavFail "nav missing dayRegions", win1, n1)
          | _, None, _ => (NavFail "nav missing slotBands", win1, n1)
          | _, _, None => (NavFail "nav missing bg/bgWhite", win1, n1)
          | Some _, Some _, Some _ =>
              (NavOk nav, mkWindow (TICK_LANE win1) (DIV_XS win1) (Some nav), n1)
          end
      end
  end.

(** ** Layer J: availability from the frozen nav *)

Definition isBgMatch (p : Pixel) (bg : BackgroundColor) : bool :=
  match bg_r bg, bg_g bg, bg_b bg with
  | Some r, Some g, Some b =>
      let tol := bg_tol bg in
      (Z.abs (chanR p - r) <=? tol) && (Z.abs (chanG p - g) <=? tol)
      && (Z.abs (chanB p - b) <=? tol)
  | _, _, _ => false
  end.

(** [PURPLE_WORK = { r: 213, g: 43, b: 255, tol: 55 }]. *)
Definition isPurpleMatch (p : Pixel) : bool :=
  (Z.abs (chanR p - 213) <=? 55) && (Z.abs (chanG p - 43) <=? 55)
  && (Z.abs (chanB p - 255) <=? 55).

Definition isNonWhite (p : Pixel) : bool := negb (isNearWhite (chanR p) (chanG p) (chanB p)).

(** The sampling rectangle of a cell ([insetX = 8], [insetY = 2]). *)
Record Rect : Type := mkRect { rx0 : Z; rx1 : Z; ry0 : Z; ry1 : Z }.

Definition insetRect (pre : Pre) (slotBand : SlotBand) (dayRegion : DayRegion) : Rect :=
  let w := pre_w pre in
  let h := pre_h pre in
  let x0 := clamp (dr_x0 dayRegion + 8) 0 (w - 1) in
  let x1 := clamp (dr_x1 dayRegion - 8) (x0 + 1) w in
  let y0 := clamp (yStart slotBand + 2) 0 (h - 1) in
  let y1 := clamp (yEnd slotBand - 2) (y0 + 1) h in
  mkRect x0 x1 y0 y1.

(** The pixel drawn with the draws [n] and [n + 1]:
    [x = (x0 + Math.random() * (x1 - x0)) | 0], likewise [y]. *)
Definition samplePixel (pre : Pre) (rc : Rect) (n : nat) : Pixel :=
  let x := toInt32 (inject_Z (rx0 rc) + rand n * inject_Z (rx1 rc - rx0 rc)) in
  let y := toInt32 (inject_Z (ry0 rc) + rand (S n) * inject_Z (ry1 rc - ry0 rc)) in
  readPixel pre x y.

(** The loop of [measurePurpleFrac]: [count] samples are still to be
    drawn, [purpleCount] matched so far. *)
Fixpoint purpleLoop (pre : Pre) (rc : Rect) (count : nat) (n : nat) (purpleCount : Z)
    : Z * nat :=
  match count with
  | O => (purpleCount, n)
  | S k =>
      let p := samplePixel pre rc n in
      purpleLoop pre rc k (S (S n))
                 (if isPurpleMatch p then purpleCount + 1 else purpleCount)
  end.

(** [measurePurpleFrac(pre, slotBand, dayRegion, { samples: 160, insetX: 8,
    insetY: 2 })]. *)
Definition measurePurpleFrac (pre : Pre) (slotBand : SlotBand) (dayRegion : DayRegion)
    (n : nat) : Q * nat :=
  let rc := insetRect pre slotBand dayRegion in
  let '(purpleCount, n1) := purpleLoop pre rc 160 n 0 in
  (frac purpleCount 160, n1).

Record Counts : Type := mkCounts {
  bgCount : Z;
  nonWhiteCount : Z;
  purpleCount : Z;
  occupiedCount : Z
}.

(** The loop of [classifySlotSample]. *)
Fixpoint classifyLoop (pre : Pre) (rc : Rect) (bg : BackgroundColor) (count : nat)
    (n : nat) (c : Counts) : Counts * nat :=
  match count with
  | O => (c, n)
  | S k =>
      let p := samplePixel pre rc n in
      let isBg := isBgMatch p bg in
      let isPurple := isPurpleMatch p in
      let isNW := isNonWhite p in
      classifyLoop pre rc bg k (S (S n))
        (mkCounts (if isBg then bgCount c + 1 else bgCount c)
                  (if isNW then nonWhiteCount c + 1 else nonWhiteCount c)
                  (if isPurple then purpleCount c + 1 else purpleCount c)
                  (if isNW && negb isPurple && negb isBg
                   then occupiedCount c + 1 else occupiedCount c))
  end.

Inductive ClassifyResult : Type :=
| ClassifyOk (free : bool) (bgFrac inkFrac purpleFrac occupiedFrac : Q)
| ClassifyFail (reason : string).

(** [classifySlotSample(pre, slotBand, dayRegion, bg, opts)] with the
    defaults [samples = 140], [bgFracMin = 0.82], [inkFracMax = 0.12],
    [busyFracMin = 0.50].  The fractions are returned unrounded. *)
Definition classifySlotSample (pre : Pre) (slotBand : SlotBand) (dayRegion : DayRegion)
    (bg : BackgroundColor) (n : nat) : ClassifyResult * nat :=
  if dr_x1 dayRegion <=? dr_x0 dayRegion then (ClassifyFail "bad dayRegion", n)
  else if yEnd slotBand <=? yStart slotBand then (ClassifyFail "bad slotBand", n)
  else
    let rc := insetRect pre slotBand dayRegion in
    let '(c, n1) := classifyLoop pre rc bg 140 n (mkCounts 0 0 0 0) in
    let bgFrac := frac (bgCount c) 140 in
    let inkFrac := frac (nonWhiteCount c) 140 in
    let purpleFrac := frac (purpleCount c) 140 in
    let occupiedFrac := frac (occupiedCount c) 140 in
    if Qle_bool (50 # 100) occupiedFrac then
      (ClassifyOk false bgFrac inkFrac purpleFrac occupiedFrac, n1)
    else
      let free :=
        Qle_bool (82 # 100) bgFrac
        || (Qle_bool (55 # 100) bgFrac && Qle_bool inkFrac (12 # 100)) in
      (ClassifyOk free bgFrac inkFrac purpleFrac occupiedFrac, n1).

Definition rectNonWhiteFrac (pre : Pre) (x0 y0 x1 y1 : Z) : Q :=
  (1 - rectWhiteFrac pre x0 y0 x1 y1)%Q.

Definition Qmax (a b : Q) : Q := if Qle_bool a b then b else a.

(** [detectGridSpill(pre, slotBand, dayRegion, { insetX: 8, insetY: 2 }).spill]. *)
Definition detectGridSpill (pre : Pre) (slotBand : SlotBand) (dayRegion : DayRegion)
    : bool :=
  let w := pre_w pre in
  let h := pre_h pre in
  let x0 := clamp (dr_x0 dayRegion) 0 (w - 1) in
  let x1 := clamp (dr_x1 dayRegion) (x0 + 1) w in
  let y0 := clamp (yStart slotBand) 0 (h - 1) in
  let y1 := clamp (yEnd slotBand) (y0 + 1) h in
  let ix0 := clamp (x0 + 8) 0 (w - 1) in
  let ix1 := clamp (x1 - 8) (ix0 + 1) w in
  let iy0 := clamp (y0 + 2) 0 (h - 1) in
  let iy1 := clamp (y1 - 2) (iy0 + 1) h in
  let cxPad := Z.max 10 (Qfloor (inject_Z (ix1 - ix0) * (18 # 100))) in
  let cyPad := Z.max 4 (Qfloor (inject_Z (iy1 - iy0) * (18 # 100))) in
  let cx0 := clamp (ix0 + cxPad) 0 (w - 1) in
  let cx1 := clamp (ix1 - cxPad) (cx0 + 1) w in
  let cy0 := clamp (iy0 + cyPad) 0 (h - 1) in
  let cy1 := clamp (iy1 - cyPad) (cy0 + 1) h in
  let lx0 := ix0 in
  let lx1 := clamp (ix0 + 8) (lx0 + 1) ix1 in
  let rx1 := ix1 in
  let rx0 := clamp (ix1 - 8) ix0 (rx1 - 1) in
  let ty0 := iy0 in
  let ty1 := clamp (iy0 + 4) (ty0 + 1) iy1 in
  let by1 := iy1 in
  let by0 := clamp (iy1 - 4) iy0 (by1 - 1) in
  let centerNW := rectNonWhiteFrac pre cx0 cy0 cx1 cy1 in
  let leftNW := rectNonWhiteFrac pre lx0 iy0 lx1 iy1 in
  let rightNW := rectNonWhiteFrac pre rx0 iy0 rx1 iy1 in
  let topNW := rectNonWhiteFrac pre ix0 ty0 ix1 ty1 in
  let botNW := rectNonWhiteFrac pre ix0 by0 ix1 by1 in
  let edgeSpill :=
    Qle_bool centerNW (10 # 100) && Qle_bool (25 # 100) (Qmax leftNW rightNW) in
  let hSpill :=
    Qle_bool centerNW (10 # 100) && Qle_bool (22 # 100) (Qmax topNW botNW) in
  edgeSpill || hSpill.

(** The inset-only trim [safeTrimDayRegion] falls back to. *)
Definition insetRegion (region : DayRegion) (insetPx : Z) : DayRegion :=
  let x0 := dr_x0 region + insetPx in
  let x1 := dr_x1 region - insetPx in
  if x1 <=? x0 + 4 then region else mkDayRegion x0 x1.

(** [safeTrimDayRegion(region, dividerXs, 6)]: the result of
    [window.trimDayRegionByDivider] where it is a function and does not
    throw, and the inset-only trim otherwise. *)
Definition safeTrimDayRegion (region : DayRegion) (dXs : option (list Z)) : option DayRegion :=
  match trimDayRegionByDivider with
  | Some f =>
      match f region dXs 6 with
      | Returned r => r
      | Thrown _ => Some (insetRegion region 6)
      end
  | None => Some (insetRegion region 6)
  end.

Inductive SpillPolicy : Type := SpillNone | SoftFree.

(** What the body of the slot loop of [computeAvailFromFrozenNav] stores
    for one cell: [workArr[i]] and [arr[i]]. *)
Record CellOut : Type := mkCellOut { cell_work : bool; cell_avail : bool }.

(** The body of the loop [for (let i = 0; i < slotBands.length; i++)]. *)
Definition classifyCell (pre : Pre) (bg : BackgroundColor) (policy : SpillPolicy)
    (region : DayRegion) (slot : SlotBand) (n : nat) : CellOut * nat :=
  let '(purpleFrac, n1) := measurePurpleFrac pre slot region n in
  let isWork := Qle_bool (18 # 100) purpleFrac in
  if isWork then (mkCellOut isWork true, n1)
  else
    let '(base, n2) := classifySlotSample pre slot region bg n1 in
    let free :=
      match base with
      | ClassifyFail _ => false
      | ClassifyOk free0 _ _ _ _ =>
          match policy with
          | SoftFree => if negb free0 then detectGridSpill pre slot region else free0
          | SpillNone => free0
          end
      end in
    (mkCellOut isWork free, n2).

(** The slot loop for one day: [arr] and [workArr] at the end. *)
Fixpoint classifySlots (pre : Pre) (bg : BackgroundColor) (policy : SpillPolicy)
    (region : DayRegion) (slots : list SlotBand) (n : nat)
    : (list bool * list bool) * nat :=
  match slots with
  | [] => (([], []), n)
  | slot :: rest =>
      let '(c, n1) := classifyCell pre bg policy region slot n in
      let '((arr, workArr), n2) := classifySlots pre bg policy region rest n1 in
      ((cell_avail c :: arr, cell_work c :: workArr), n2)
  end.

Record AvailabilityGrid : Type := mkAvailabilityGrid {
  av_version : Z;
  av_anchorStartTime : string;
  av_slots : nat;
  av_days : list (Weekday * list bool);
  av_workDays : list (Weekday * list bool);
  av_spillPolicy : SpillPolicy
}.

(** [AvailThrow] is the [TypeError] raised when the trimmed region is
    [null] and its [x0] is read. *)
Inductive AvailResult : Type :=
| AvailOk (avail : AvailabilityGrid)
| AvailFail (reason : string)
| AvailThrow.

(** The loop [for (const day of WEEKDAYS)]: [None] when a round threw. *)
Fixpoint classifyDays (pre : Pre) (bg : BackgroundColor) (policy : SpillPolicy)
    (regions : DayRegions) (dXs : option (list Z)) (slots : list SlotBand)
    (days : list Weekday) (n : nat)
    : option (list (Weekday * list bool) * list (Weekday * list bool)) * nat :=
  match days with
  | [] => (Some ([], []), n)
  | day :: rest =>
      match lookupDay regions day with
      | None =>
          match classifyDays pre bg policy regions dXs slots rest n with
          | (Some (ds, ws), n1) => (Some ((day, []) :: ds, (day, []) :: ws), n1)
          | (None, n1) => (None, n1)
          end
      | Some rawRegion =>
          match safeTrimDayRegion rawRegion dXs with
          | None =>
              match slots with
              | [] =>
                  match classifyDays pre bg policy regions dXs slots rest n with
                  | (Some (ds, ws), n1) => (Some ((day, []) :: ds, (day, []) :: ws), n1)
                  | (None, n1) => (None, n1)
                  end
              | _ :: _ => (None, n)
              end
          | Some region =>
              let '((arr, workArr), n1) := classifySlots pre bg policy region slots n in
              match classifyDays pre bg policy regions dXs slots rest n1 with
              | (Some (ds, ws), n2) => (Some ((day, arr) :: ds, (day, workArr) :: ws), n2)
              | (None, n2) => (None, n2)
              end
          end
      end
  end.

Definition bgChannelsFinite (bg : BackgroundColor) : bool :=
  match bg_r bg, bg_g bg, bg_b bg with
  | Some _, Some _, Some _ => true
  | _, _, _ => false
  end.

(** [computeAvailFromFrozenNav(pre, nav, { spillPolicy, classify: {} })]. *)
Definition computeAvailFromFrozenNav (pre : Pre) (nav : Nav) (policy : SpillPolicy)
    (win : Window) (n : nat) : AvailResult * nat :=
  let dXs := match dividerXs nav with Some d => Some d | None => DIV_XS win end in
  match dayRegions nav, slotBands nav with
  | Some regions, Some ((_ :: _) as slots) =>
      match bgWhite nav with
      | None => (AvailFail "missing bg/bgWhite in nav", n)
      | Some bg =>
          if negb (bgChannelsFinite bg) then (AvailFail "missing bg/bgWhite in nav", n)
          else
            match classifyDays pre bg policy regions dXs slots WEEKDAYS n with
            | (None, n1) => (AvailThrow, n1)
            | (Some (daysOut, workDaysOut), n1) =>
                (AvailOk (mkAvailabilityGrid 1
                            (match anchorStartTime nav with
                             | Some a => if String.eqb a "" then "8:00 AM"%string else a
                             | None => "8:00 AM"%string
                             end)
                            (length slots) daysOut workDaysOut policy), n1)
            end
      end
  | _, _ => (AvailFail "bad nav (missing dayRegions/slotBands)", n)
  end.

End Pipeline.

(** ** upload.js: the second phase of an upload *)

(** [a || b] on strings, the empty string being falsy. *)
Definition orElse (a b : string) : string := if String.eqb a "" then b else a.

(** [tryFinalizeNavWithStartTime(navCore, anchorStartTime)]: a copy of the
    nav with [anchorStartTime || nav.anchorStartTime || "8:00 AM"].  Neither
    [buildTimeIndexFromNav] nor [buildTimeIndexFromTicks] is defined by the
    scripts, so no [timeIndex] is added. *)
Definition tryFinalizeNavWithStartTime (navCore : Nav) (anchor : string) : Nav :=
  let own := match anchorStartTime navCore with Some a => a | None => ""%string end in
  mkNav (dayRegions navCore) (slotBands navCore) (ticksForMap navCore) (bgWhite navCore)
        (Some (orElse anchor (orElse own "8:00 AM")))
        (preMeta navCore) (laneMeta navCore) (dividerXs navCore).

(** What [runPhase2Finalize] ends with: nothing, for want of a nav from
    phase 1 or of a published precompute; the refusal of the availability
    compute, on which it returns without publishing; the exception of that
    compute; or the session it hands to [publishSession]. *)
Inductive Phase2Result : Type :=
| NothingToFinalize
| NotPublished (reason : string)
| Phase2Threw
| Published (nav : Nav) (avail : AvailabilityGrid).

(** [runPhase2Finalize()]: [navCore] is [__PHASE1__.navCore], [lastPre] is
    [window.LAST_PRE], and [startValue] is the trimmed value of the
    start-time field. *)
Definition runPhase2Finalize
    (trimDayRegionByDivider : option TrimFunction)
    (rand : nat -> Q) (navCore : option Nav) (lastPre : option Pre) (win : Window)
    (n : nat) (startValue : string) : Phase2Result * nat :=
  match navCore with
  | None => (NothingToFinalize, n)
  | Some core =>
      let startTime := orElse startValue "8:00 AM" in
      let navFinal := tryFinalizeNavWithStartTime core startTime in
      match lastPre with
      | None => (NothingToFinalize, n)
      | Some pre =>
          match computeAvailFromFrozenNav trimDayRegionByDivider rand pre navFinal
                                          SoftFree win n with
          | (AvailOk a, n2) =>
              (Published navFinal
                 (mkAvailabilityGrid (av_version a) startTime (av_slots a) (av_days a)
                                     (av_workDays a) (av_spillPolicy a)),
               n2)
          | (AvailFail reason, n2) => (NotPublished reason, n2)
          | (AvailThrow, n2) => (Phase2Threw, n2)
          end
      end
  end.

(** ** The saved-schedule query *)

Module Query.

Import Ascii.

Definition isSpace (c : ascii) : bool :=
  let n := nat_of_ascii c in
  (n =? 32)%nat || ((9 <=? n)%nat && (n <=? 13)%nat).

Definition isDigit (c : ascii) : bool :=
  let n := nat_of_ascii c in (48 <=? n)%nat && (n <=? 57)%nat.

Definition digitVal (c : ascii) : Z := Z.of_nat (nat_of_ascii c) - 48.

Fixpoint dropSpaces (l : list ascii) : list ascii :=
  match l with
  | c :: t => if isSpace c then dropSpaces t else l
  | [] => []
  end.

(** [String(str).trim()] on ASCII white space. *)
Definition trim (l : list ascii) : list ascii :=
  rev (dropSpaces (rev (dropSpaces l))).

Definition upper (c : ascii) : ascii :=
  let n := nat_of_ascii c in
  if (97 <=? n)%nat && (n <=? 122)%nat then ascii_of_nat (n - 32) else c.

(** The tail [\s*(AM|PM)$] of the pattern, case-insensitive: [Some true]
    for PM. *)
Definition parseAmPm (l : list ascii) : option bool :=
  match map upper (dropSpaces l) with
  | ["A"; "M"]%char => Some false
  | ["P"; "M"]%char => Some true
  | _ => None
  end.

(** The part [(\d{2})\s*(AM|PM)$] after the colon, then the conversion to
    minutes since midnight. *)
Definition parseAfterColon (hh : Z) (l : list ascii) : option Z :=
  match l with
  | m1 :: m2 :: rest =>
      if isDigit m1 && isDigit m2 then
        match parseAmPm rest with
        | None => None
        | Some pm =>
            let mm := digitVal m1 * 10 + digitVal m2 in
            if (hh <? 1) || (12 <? hh) then None
            else if (mm <? 0) || (59 <? mm) then None
            else
              let hh24 :=
                if pm then (if hh =? 12 then hh else hh + 12)
                else (if hh =? 12 then 0 else hh) in
              Some (hh24 * 60 + mm)
        end
      else None
  | _ => None
  end.

(** [timeStrToMinutes(str)]: [None] is [NaN]. *)
Definition timeStrToMinutes (str : string) : option Z :=
  match trim (list_ascii_of_string str) with
  | h1 :: ":"%char :: rest =>
      if isDigit h1 then parseAfterColon (digitVal h1) rest else None
  | h1 :: h2 :: ":"%char :: rest =>
      if isDigit h1 && isDigit h2 then parseAfterColon (digitVal h1 * 10 + digitVal h2) rest
      else None
  | _ => None
  end.

Definition decimal (z : Z) : string :=
  DecimalString.NilZero.string_of_uint (Nat.to_uint (Z.to_nat z)).

(** [minutesToTimeStr(totalMinutes)] on a finite integer argument. *)
Definition minutesToTimeStr (totalMinutes : Z) : string :=
  let total := Z.max 0 totalMinutes in
  let hour := total / 60 in
  let minute := total mod 60 in
  let ampm := if 12 <=? hour then "PM"%string else "AM"%string in
  let displayHour := if hour mod 12 =? 0 then 12 else hour mod 12 in
  let pad := if minute <? 10 then "0"%string else ""%string in
  (decimal displayHour ++ ":" ++ pad ++ decimal minute ++ " " ++ ampm)%string.

(** A range of minutes since midnight; the code stores both ends formatted
    by [minutesToTimeStr]. *)
Record TimeRange : Type := mkTimeRange { startMin : Z; endMin : Z }.

Record FormattedRange : Type := mkFormattedRange { start_ : string; end_ : string }.

Definition formatRange (r : TimeRange) : FormattedRange :=
  mkFormattedRange (minutesToTimeStr (startMin r)) (minutesToTimeStr (endMin r)).

(** [maskArr[i] === true]. *)
Definition maskAt (maskArr : list bool) (i : Z) : bool :=
  if i <? 0 then false else nth (Z.to_nat i) maskArr false.

(** [_boolAt(arr, i)] on an array of booleans; [None] is a value that is
    not an array. *)
Definition _boolAt (arr : option (list bool)) (i : Z) : bool :=
  match arr with
  | Some a => maskAt a i
  | None => false
  end.

(** [_isFreeSlot(daysArr, workArr, i)]: available and not work. *)
Definition _isFreeSlot (daysArr workArr : option (list bool)) (i : Z) : bool :=
  _boolAt daysArr i && negb (_boolAt workArr i).

(** [_isWorkSlot(workArr, i)]. *)
Definition _isWorkSlot (workArr : option (list bool)) (i : Z) : bool := _boolAt workArr i.

Record RunState : Type := mkRunState {
  ranges : list TimeRange;
  runStartIdx : option Z
}.

(** One round of the loop of [buildRangesFromMask]. *)
Definition rangeStepFn (maskArr : list bool) (anchorMin step clampStartMin clampEndMin : Z)
    (st : RunState) (i : Z) : RunState :=
  if maskAt maskArr i then
    match runStartIdx st with
    | None => mkRunState (ranges st) (Some i)
    | Some _ => st
    end
  else
    match runStartIdx st with
    | None => st
    | Some r =>
        let runStartMin := Z.max clampStartMin (anchorMin + r * step) in
        let runEndMin := Z.min clampEndMin (anchorMin + i * step) in
        mkRunState
          (if runStartMin <? runEndMin
           then ranges st ++ [mkTimeRange runStartMin runEndMin] else ranges st)
          None
    end.

(** [buildRangesFromMask(maskArr, i0, i1, anchorMin, step, clampStartMin,
    clampEndMin)], the ranges in minutes before they are formatted. *)
Definition buildRangesFromMask (maskArr : list bool)
    (i0 i1 anchorMin step clampStartMin clampEndMin : Z) : list TimeRange :=
  let st := fold_left (rangeStepFn maskArr anchorMin step clampStartMin clampEndMin)
                      (range i0 i1) (mkRunState [] None) in
  match runStartIdx st with
  | None => ranges st
  | Some r =>
      let runStartMin := Z.max clampStartMin (anchorMin + r * step) in
      let runEndMin := clampEndMin in
      if runStartMin <? runEndMin
      then ranges st ++ [mkTimeRange runStartMin runEndMin] else ranges st
  end.

(** The availability part of a saved record.  [slots] and [metaSlots] are
    [None] when the field is missing or not a number. *)
Record SavedAvail : Type := mkSavedAvail {
  sa_slots : option Z;
  sa_metaSlots : option Z;
  sa_anchorStartTime : option string;
  sa_days : list (Weekday * list bool);
  sa_workDays : option (list (Weekday * list bool))
}.

Record SavedRecord : Type := mkSavedRecord {
  rec_person : option string;
  rec_avail : option SavedAvail;
  rec_navAnchorStartTime : option string
}.

Inductive RecordOutcome : Type :=
| Listed (person : string) (freeRanges workRanges : list TimeRange)
| Skipped (person : string) (reason : string).

(** The derived mask of the query: [dayArr[i] === true && workArr[i] !== true]. *)
Definition derivedFreeMask (dayArr workArr : list bool) (slotsFinal : nat) : list bool :=
  map (fun i => maskAt dayArr i && negb (maskAt workArr i))
      (range 0 (Z.of_nat slotsFinal)).

Definition firstNonEmpty (a b : option string) (dflt : string) : string :=
  match a with
  | Some s => if String.eqb s "" then
                match b with
                | Some t => if String.eqb t "" then dflt else t
                | None => dflt
                end
              else s
  | None =>
      match b with
      | Some t => if String.eqb t "" then dflt else t
      | None => dflt
      end
  end.

(** The body of the loop over the saved records in
    [queryAllSavedSchedulesDayRange], for a query window that parsed to
    [startMin < endMin]. *)
Definition queryRecord (day : Weekday) (qStart qEnd : Z) (rec : SavedRecord)
    : RecordOutcome :=
  let person := firstNonEmpty (rec_person rec) None "(unnamed)" in
  let dayArrO :=
    match rec_avail rec with
    | Some a => lookupDay (sa_days a) day
    | None => None
    end in
  let slotsRaw :=
    match rec_avail rec with
    | Some a =>
        match sa_slots a with
        | Some s => Some s
        | None => sa_metaSlots a
        end
    | None => None
    end in
  let slots := match slotsRaw with Some s => s | None => 0 end in
  match dayArrO with
  | None => Skipped person "No availability grid for this day"
  | Some dayArr =>
      let slotsFinal := if 0 <? slots then slots else Z.of_nat (length dayArr) in
      if negb (Z.of_nat (length dayArr) =? slotsFinal) then
        Skipped person "No availability grid for this day"
      else
        let anchor :=
          firstNonEmpty
            (match rec_avail rec with Some a => sa_anchorStartTime a | None => None end)
            (rec_navAnchorStartTime rec) "8:00 AM" in
        match timeStrToMinutes anchor with
        | None => Skipped person "Bad anchorStartTime"
        | Some anchorMin =>
            let step := TIME_STEP_MIN in
            let schedStart := anchorMin in
            let schedEnd := anchorMin + slotsFinal * step in
            let clampStart := Z.max qStart schedStart in
            let clampEnd := Z.min qEnd schedEnd in
            if clampEnd <=? clampStart then
              Skipped person
                ("Query window outside schedule range (" ++ minutesToTimeStr schedStart
                 ++ "–" ++ minutesToTimeStr schedEnd ++ ")")
            else
              let i0 := Z.max 0 ((clampStart - anchorMin) / step) in
              let i1 := Z.min slotsFinal
                              (Qceiling (inject_Z (clampEnd - anchorMin) / inject_Z step)) in
              let workArrO :=
                match rec_avail rec with
                | Some a =>
                    match sa_workDays a with
                    | Some wd => lookupDay wd day
                    | None => None
                    end
                | None => None
                end in
              let workOk :=
                match workArrO with
                | Some workArr => Z.of_nat (length workArr) =? slotsFinal
                | None => false
                end in
              let freeMask :=
                match workArrO with
                | Some workArr =>
                    if workOk then derivedFreeMask dayArr workArr (Z.to_nat slotsFinal)
                    else dayArr
                | None => dayArr
                end in
              let freeRanges :=
                buildRangesFromMask freeMask i0 i1 anchorMin step qStart qEnd in
              let workRanges :=
                match workArrO with
                | Some workArr =>
                    if workOk
                    then buildRangesFromMask workArr i0 i1 anchorMin step qStart qEnd
                    else []
                | None => []
                end in
              match freeRanges, workRanges with
              | [], [] => Skipped person "No free or placement time in range"
              | _, _ => Listed person freeRanges workRanges
              end
        end
  end.

Record QueryResult : Type := mkQueryResult {
  q_ok : bool;
  q_reason : string;
  q_outcomes : list RecordOutcome
}.

(** [queryAllSavedSchedulesDayRange(day, startStr, endStr)] over the list
    returned by [loadSchedulesList()]. *)
Definition queryAllSavedSchedulesDayRange (saved : list SavedRecord) (day : Weekday)
    (startStr endStr : string) : QueryResult :=
  match timeStrToMinutes startStr, timeStrToMinutes endStr with
  | Some qStart, Some qEnd =>
      if qEnd <=? qStart then mkQueryResult false "Invalid time range" []
      else mkQueryResult true "" (map (queryRecord day qStart qEnd) saved)
  | _, _ => mkQueryResult false "Invalid time range" []
  end.

End Query.

(** ** Layer E: building [pre] from the pixels

    [buildPrecomputeFromCanvas] without the canvas: the size (positive, as
    a canvas has it) and the RGBA bytes are handed in.  The luma weights
    are taken as exact decimals. *)

Module Precompute.

(** The body of the pixel loop: the near-white and the dark bit of pixel
    (x, y) ([nearWhiteThresh = 240], [darkLumaThresh = 215]). *)
Definition maskBits (img : Z -> Z) (w y x : Z) : Z * Z :=
  let p := idxOf x y w in
  let r := img p in
  let g := img (p + 1) in
  let b := img (p + 2) in
  let isW := (NEAR_WHITE_THRESH <=? r) && (NEAR_WHITE_THRESH <=? g)
             && (NEAR_WHITE_THRESH <=? b) in
  let luma := ((2126 # 10000) * inject_Z r + (7152 # 10000) * inject_Z g
               + (722 # 10000) * inject_Z b)%Q in
  (if isW then 1 else 0, if Qle_bool luma 215 then 1 else 0).

(** [whiteMask] and [darkMask], row by row. *)
Definition buildMasks (img : Z -> Z) (w h : Z) : list (list (Z * Z)) :=
  map (fun y => map (maskBits img w y) (range 0 w)) (range 0 h).

(** One row of the table in [buildPrefixFromMask]: [maskRow] holds the mask
    bits of row [y - 1] from column [x - 1] on, [prevTail] holds
    [P[(y-1)*W + x ..]]. *)
Fixpoint prefixRow (maskRow : list Z) (rowSum : Z) (prevTail : list Z) : list Z :=
  match maskRow, prevTail with
  | m :: ms, p :: ps =>
      let rs := rowSum + m in
      toUint32 (p + rs) :: prefixRow ms rs ps
  | _, _ => []
  end.

(** The rows [1 .. h] of the table, given row [y - 1]. *)
Fixpoint prefixRows (maskRows : list (list Z)) (prevRow : list Z) : list (list Z) :=
  match maskRows with
  | [] => []
  | mr :: rest =>
      let row := 0 :: prefixRow mr 0 (tl prevRow) in
      row :: prefixRows rest row
  end.

(** [buildPrefixFromMask(mask, w, h)]: the table as rows of [W = w + 1]
    entries. *)
Definition buildPrefixFromMask (maskRows : list (list Z)) (w : Z) : list (list Z) :=
  let row0 := repeat 0 (Z.to_nat (w + 1)) in
  row0 :: prefixRows maskRows row0.

(** Reading [P[i]] from the rows. *)
Definition readTable (rows : list (list Z)) (W : Z) (i : Z) : Z :=
  if (i <? 0) || (W <=? 0) then 0
  else nth (Z.to_nat (i mod W)) (nth (Z.to_nat (i / W)) rows []) 0.

Definition buildPrecompute (w h : Z) (img : Z -> Z) (now : Z) : option Pre :=
  if (w <=? 0) || (h <=? 0) then None
  else
    let masks := buildMasks img w h in
    let whiteRows := buildPrefixFromMask (map (map fst) masks) w in
    let darkRows := buildPrefixFromMask (map (map snd) masks) w in
    let W := w + 1 in
    Some (mkPre w h img (readTable whiteRows W) (readTable darkRows W) W now).

End Precompute.

(** ** Test images

    Synthetic schedule sheets: a white page with black grid lines and a few
    coloured cells, given by the colour of each pixel. *)

Module Fixtures.

Definition white : Pixel := (255, 255, 255).
Definition black : Pixel := (0, 0, 0).
Definition red : Pixel := (255, 0, 0).
Definition purple : Pixel := (213, 43, 255).

(** The RGBA bytes of an image given by its pixel colours. *)
Definition imgOf (w : Z) (pix : Z -> Z -> Pixel) (i : Z) : Z :=
  let p := i / 4 in
  let c := i mod 4 in
  let px := pix (p mod w) (p / w) in
  if c =? 0 then chanR px else if c =? 1 then chanG px
  else if c =? 2 then chanB px else 255.

Definition inZ (v : Z) (l : list Z) : bool := existsb (Z.eqb v) l.

Definition between (lo v hi : Z) : bool := (lo <=? v) && (v <? hi).

(** The page that loads the scripts only: nothing defines
    [trimDayRegionByDivider]. *)
Definition noTrim : option TrimFunction := None.

(** The time stamp of the fixtures, and a later reading of the clock. *)
Definition stamp : Z := 1762000000000.

(** A fixed sequence of draws in [0, 1). *)
Definition draws (n : nat) : Q := (Z.of_nat n * 7919 + 13) mod 1000 # 1000.

(** The sequence whose every draw is one half. *)
Definition halfDraws (n : nat) : Q := 1 # 2.


Definition emptyWindow : Window := mkWindow None None None.

(** A coloured cell: the columns [x0 .. x1 - 1] of the rows [y0 .. y1 - 1]
    painted in one colour. *)
Record Patch : Type := mkPatch {
  pa_x0 : Z; pa_x1 : Z; pa_y0 : Z; pa_y1 : Z; pa_colour : Pixel
}.

Definition inPatch (x y : Z) (p : Patch) : bool :=
  between (pa_x0 p) x (pa_x1 p) && between (pa_y0 p) y (pa_y1 p).

(** A grid sheet: black at the rows [rows] and the columns [cols], the
    colour of the first patch that holds the pixel, white elsewhere. *)
Definition gridPix (rows cols : list Z) (patches : list Patch) (x y : Z) : Pixel :=
  if inZ y rows then black
  else if inZ x cols then black
  else match find (inPatch x y) patches with
       | Some p => pa_colour p
       | None => white
       end.

Definition countBelow (l : list Z) (v : Z) : Z :=
  Z.of_nat (length (filter (fun r => (0 <=? r) && (r <? v)) l)).

Definition patchArea (x y : Z) (p : Patch) : Z :=
  Z.max 0 (Z.min x (pa_x1 p) - pa_x0 p) * Z.max 0 (Z.min y (pa_y1 p) - pa_y0 p).

(** The number of pixels that are not white among the columns below [x] of
    the rows below [y], for patches that are neither white nor crossed by a
    line: the line rows, the line columns less the crossings, and the
    patches. *)
Definition inkBelow (rows cols : list Z) (patches : list Patch) (x y : Z) : Z :=
  let nr := countBelow rows y in
  let nc := countBelow cols x in
  nr * x + nc * y - nr * nc + fold_right Z.add 0 (map (patchArea x y) patches).

(** The precompute of a grid sheet whose patches are dark and not near
    white: both tables in closed form, [whiteP] counting the white pixels
    and [darkP] the others. *)
Definition gridPre (w h : Z) (rows cols : list Z) (patches : list Patch) : Pre :=
  let W := w + 1 in
  mkPre w h (imgOf w (gridPix rows cols patches))
        (fun i => let x := i mod W in let y := i / W in
                  x * y - inkBelow rows cols patches x y)
        (fun i => inkBelow rows cols patches (i mod W) (i / W))
        W stamp.


(** Sheet A, 290 x 125: two-pixel grid lines every 12 rows from row 10, six
    one-pixel dividers every 48 columns from column 30, Tuesday slot 3 red
    and Friday slot 5 purple. *)
Definition preA : Pre :=
  gridPre 290 125
    [10; 11; 22; 23; 34; 35; 46; 47; 58; 59; 70; 71; 82; 83; 94; 95; 106; 107]
    [30; 78; 126; 174; 222; 270]
    [mkPatch 84 122 48 57 red; mkPatch 228 266 72 81 purple].

Definition sheetA : option Pre := Some preA.

(** Sheet B, 290 x 210: the same dividers, two-pixel grid lines at rows 10,
    37, 68, 99, 130, 160 and 190, so that the median spacing is 30.5. *)
Definition preB : Pre :=
  gridPre 290 210
    [10; 11; 37; 38; 68; 69; 99; 100; 130; 131; 160; 161; 190; 191]
    [30; 78; 126; 174; 222; 270] [].

Definition sheetB : option Pre := Some preB.

(** Sheet C, 290 x 60: grid lines at rows 10 and 22 only. *)
Definition preC : Pre :=
  gridPre 290 60 [10; 11; 22; 23] [30; 78; 126; 174; 222; 270] [].




(** Sheet E: the rows of sheet B with dividers at columns 30, 100, 150, 200
    and 270 only, so that two of the six expected positions fall on the
    divider at column 100. *)
Definition preE : Pre :=
  gridPre 290 210
    [10; 11; 37; 38; 68; 69; 99; 100; 130; 131; 160; 161; 190; 191]
    [30; 100; 150; 200; 270] [].

Definition sheetE : option Pre := Some preE.

(** The nav the build returns for sheets B and D, and for sheet E. *)
Definition whiteBg : BackgroundColor :=
  mkBackgroundColor (Some 255) (Some 255) (Some 255) 34.

Definition bandsB : list SlotBand :=
  [mkSlotBand 12 36 10 36; mkSlotBand 39 67 36 67; mkSlotBand 70 98 67 98;
   mkSlotBand 101 129 98 129; mkSlotBand 132 159 129 159; mkSlotBand 162 189 159 189].

Definition navOfDividers (xs : list Z) : Nav :=
  mkNav (Some (regionsOf xs)) (Some bandsB) [10; 36; 67; 98; 129; 159; 189]
        (Some whiteBg) (Some "8:00 AM"%string) (mkPreMeta 290 210 stamp)
        (mkLaneFrac (15 # 1000) (55 # 1000)) (Some xs).

Definition navB : Nav := navOfDividers [29; 77; 125; 173; 221; 269].
Definition navE : Nav := navOfDividers [29; 99; 99; 149; 199; 269].

(** A small sheet, 14 x 11, for comparing the closed form of the tables
    with the tables [buildPrecompute] builds. *)
Definition smallRows : list Z := [2; 3; 7].
Definition smallCols : list Z := [4; 9].
Definition smallPatches : list Patch := [mkPatch 5 8 4 6 red; mkPatch 10 13 8 10 purple].
Definition smallSheet : Pre := gridPre 14 11 smallRows smallCols smallPatches.

(** A white page of 20 x 20 pixels, with a nav of one slot band and five
    day regions of four columns. *)
Definition blankPage : Pre := gridPre 20 20 [] [] [].
Definition blankNav : Nav :=
  mkNav (Some (regionsOf [0; 4; 8; 12; 16; 20])) (Some [mkSlotBand 2 18 0 20]) [0; 20]
        (Some (mkBackgroundColor (Some 255) (Some 255) (Some 255) 34))
        (Some "8:00 AM"%string) (mkPreMeta 20 20 stamp) (mkLaneFrac 0 1)
        (Some [0; 4; 8; 12; 16; 20]).

End Fixtures.

(** ** Reference notions for the tick validator

    What the validator is meant to compute, stated without its loops. *)

Module TickSpec.

(** The differences [l[i] - l[i-1]]. *)
Fixpoint consecutiveDiffs (l : list Z) : list Z :=
  match l with
  | a :: ((b :: _) as t) => (b - a) :: consecutiveDiffs t
  | _ => []
  end.

Definition positiveDiffs (l : list Z) : list Z :=
  filter (fun d => 0 <? d) (consecutiveDiffs l).

(** The median of an ascending list: the middle element, or the mean of
    the two middle ones; [None] for the empty list. *)
Definition medianOfSorted (s : list Z) : option Q :=
  match s with
  | [] => None
  | _ =>
      let mid := (length s / 2)%nat in
      if Nat.odd (length s) then Some (inject_Z (nthZ s mid))
      else Some ((inject_Z (nthZ s (mid - 1)) + inject_Z (nthZ s mid)) / 2)%Q
  end.

(** The median of the positive consecutive differences. *)
Definition medianDy (raw : list Z) : option Q :=
  medianOfSorted (sortAsc (positiveDiffs raw)).

(** The distance of raw tick [k] from the expected position [e]. *)
Definition dist (raw : list Z) (e : Q) (k : nat) : Q :=
  Qabs (inject_Z (nthZ raw k) - e).

(** Raw tick [j] is the nearest to [e] among the ticks of index at least
    [from] that lie within [snap] of [e], and the first of the equally
    near ones. *)
Definition NearestHit (raw : list Z) (e : Q) (snap : Z) (from j : nat) : Prop :=
  (from <= j < length raw)%nat /\
  (dist raw e j <= inject_Z snap)%Q /\
  forall k, (from <= k < length raw)%nat -> (dist raw e k <= inject_Z snap)%Q ->
            (dist raw e j <= dist raw e k)%Q /\
            ((dist raw e k <= dist raw e j)%Q -> (j <= k)%nat).

(** No tick of index at least [from] lies within [snap] of [e]. *)
Definition NoHit (raw : list Z) (e : Q) (snap : Z) (from : nat) : Prop :=
  forall k, (from <= k < length raw)%nat -> ~ (dist raw e k <= inject_Z snap)%Q.

(** [GreedyChain raw dy snap e from ch]: [ch] lists the ticks accepted
    after the position [e] when only ticks of index at least [from] are
    still unused: the expected position advances by [dy], the nearest tick
    within the window is accepted, and the chain stops at the first
    expected position with no tick in its window. *)
Inductive GreedyChain (raw : list Z) (dy : Q) (snap : Z) : Q -> nat -> list Z -> Prop :=
| chain_stop : forall e from,
    NoHit raw (e + dy) snap from ->
    GreedyChain raw dy snap e from []
| chain_step : forall e from j rest,
    NearestHit raw (e + dy) snap from j ->
    GreedyChain raw dy snap (e + dy)%Q (S j) rest ->
    GreedyChain raw dy snap e from (nthZ raw j :: rest).

(** The chain started at raw tick [c]. *)
Definition ChainFrom (raw : list Z) (dy : Q) (snap : Z) (c : nat) (ch : list Z) : Prop :=
  exists rest, ch = nthZ raw c :: rest /\
               GreedyChain raw dy snap (inject_Z (nthZ raw c)) (S c) rest.

(** The upper end of the top 20% of the raw-tick range. *)
Definition topCut (raw : list Z) : Q :=
  (inject_Z (nthZ raw 0)
   + inject_Z (nthZ raw (length raw - 1) - nthZ raw 0) * (20 # 100))%Q.

(** Index [c] is a start candidate: one of the first 8 ticks, with every
    tick up to it inside the top band; or the first tick when even that one
    is outside the band. *)
Definition StartCandidate (raw : list Z) (c : nat) : Prop :=
  ((c < 8)%nat /\ (c < length raw)%nat /\
   forall k, (k <= c)%nat -> (inject_Z (nthZ raw k) <= topCut raw)%Q)
  \/ (c = 0%nat /\ ~ (inject_Z (nthZ raw 0) <= topCut raw)%Q).

(** The snap window [clamp(round(dy * 0.10), 4, 18)]. *)
Definition snapWindow (dy : Q) : Z :=
  Z.max 4 (Z.min 18 (Qfloor (dy * (1 # 10) + (1 # 2)))).

End TickSpec.

(** ** Reference notions for the tick ladder *)

Module LadderSpec.

(** The pairs of consecutive ticks. *)
Definition adjacent (l : list Z) : list (Z * Z) := combine l (tl l).

(** The second tick lies below the first on the page, and their gap is
    within [tol] of [dy]. *)
Definition GapWithin (dy tol : Q) (p : Z * Z) : Prop :=
  fst p < snd p /\ (Qabs (inject_Z (snd p - fst p) - dy) <= tol)%Q.

Definition StrictlyIncreasing (l : list Z) : Prop :=
  Forall (fun p => fst p < snd p) (adjacent l).

(** [dy] is a multiple of one half, as the median of integer gaps is. *)
Definition HalfIntegral (dy : Q) : Prop := exists d2 : Z, dy == d2 # 2.

End LadderSpec.

Import TickSpec LadderSpec.

(** * Invariants and reference notions of the later proofs *)

(** ** Tick validation *)

(** What [best] records after the ticks of index [from] up to [upto] were
    seen, for the expected position [e] and the window [snap]. *)
Definition nearestInv (raw : list Z) (e : Q) (snap : Z) (from upto : nat)
    (best : option TickHit) : Prop :=
  match best with
  | None => forall k, (from <= k < upto)%nat -> ~ (dist raw e k <= inject_Z snap)%Q
  | Some b =>
      hit_y b = nthZ raw (hit_idx b) /\ hit_dist b = dist raw e (hit_idx b) /\
      (from <= hit_idx b < upto)%nat /\ (hit_idx b < length raw)%nat /\
      (dist raw e (hit_idx b) <= inject_Z snap)%Q /\
      forall k, (from <= k < upto)%nat -> (dist raw e k <= inject_Z snap)%Q ->
                (dist raw e (hit_idx b) <= dist raw e k)%Q /\
                ((dist raw e k <= dist raw e (hit_idx b))%Q -> (hit_idx b <= k)%nat)
  end.

(** What the selection loop has kept after trying the candidates [tried]. *)
Definition bestInv (raw : list Z) (dy : Q) (snap : Z) (tried : list nat)
    (best : option (list Z * nat)) : Prop :=
  match best with
  | None => tried = []
  | Some (t, c) =>
      In c tried /\ ChainFrom raw dy snap c t /\
      forall c' ch, In c' tried -> ChainFrom raw dy snap c' ch -> (length ch <= length t)%nat
  end.

(** The spacing is plausible: a median exists and lies in [10, 90]. *)
Definition DyPlausible (raw : list Z) : Prop :=
  exists dy, medianDy raw = Some dy /\ (10 <= dy <= 90)%Q.

(** Every chain started at a candidate has fewer than 6 ticks. *)
Definition ChainsShort (raw : list Z) : Prop :=
  forall dy c ch, medianDy raw = Some dy -> StartCandidate raw c ->
                  ChainFrom raw dy (snapWindow dy) c ch -> (length ch < 6)%nat.

(** ** The tick ladder *)

(** The loop variables between two rounds, for a spacing [dy = d2 / 2]:
    [prev] is [p2 / 2] and not negative, it is an integer whenever [dy] is,
    the last tick is [prev] rounded, and every gap so far is within the
    snap window (and one half) of [dy]. *)
Definition LadderInv (dy : Q) (d2 : Z) (st : LadderState) : Prop :=
  exists p2 front,
    ls_prev st == p2 # 2 /\ 0 <= p2 /\ (d2 mod 2 = 0 -> p2 mod 2 = 0) /\
    ls_out st = front ++ [(p2 + 1) / 2] /\
    Forall (GapWithin dy (inject_Z (ladderSnapWin dy) + (1 # 2))) (adjacent (ls_out st)).

(** The ticks at the exit: the ticks [good] of the last round's state,
    possibly followed by one terminal tick within the wide window. *)
Definition LadderExit (dy : Q) (good out : list Z) : Prop :=
  out = good \/
  exists front lastT y,
    good = front ++ [lastT] /\ out = good ++ [y] /\
    GapWithin dy (inject_Z (snapWinTermOf dy) + (1 # 2)) (lastT, y).

(** What holds of the ticks a ladder returns: they increase strictly,
    every gap is within the terminal window (and one half) of [dy], and
    every gap but the last is within the snap window (and one half). *)
Definition LadderTicksOk (dy : Q) (ticks : list Z) : Prop :=
  StrictlyIncreasing ticks /\
  Forall (GapWithin dy (inject_Z (snapWinTermOf dy) + (1 # 2))) (adjacent ticks) /\
  Forall (GapWithin dy (inject_Z (ladderSnapWin dy) + (1 # 2)))
         (removelast (adjacent ticks)).

(** Both cues fail at the position expected after [st]: no horizontal peak,
    and no vertical structure, not even with the relaxed count where the
    streak allows it. *)
Definition BothCuesFail (pre : Pre) (dy : Q) (snapWin : Z) (opts : LadderOpts)
    (st : LadderState) : Prop :=
  let expected := (ls_prev st + dy)%Q in
  (expected < inject_Z (pre_h pre - 2))%Q /\
  findBestHLinePeak pre expected snapWin = None /\
  hasVerticalDayStructureAtY pre expected (lo_dividerXs opts)
    (match lo_requireCount opts with Some n => n | None => 3%nat end) = false /\
  ((5 <= ls_consecutiveVGood st)%nat ->
   hasVerticalDayStructureAtY pre expected (lo_dividerXs opts) 2 = false).

(** The ticks are those of [st], possibly followed by one tick that the
    lane search returned for the wide window around the expected
    position. *)
Definition TerminalExit (pre : Pre) (win : Window) (dy : Q) (st : LadderState)
    (out : list Z) : Prop :=
  let expected := (ls_prev st + dy)%Q in
  out = ls_out st \/
  exists y, out = ls_out st ++ [y] /\
            findBestLaneMarkNearY pre expected (TICK_LANE win) (snapWinTermOf dy) = Some y /\
            (Qabs (inject_Z y - expected) <= inject_Z (snapWinTermOf dy))%Q.

(** ** The raw tick scan and the stages of a nav build *)

(** The scan of an image of height [h] keeps its ticks and the start of the
    open run below the top pad. *)
Definition scanInv (h : Z) (st : TickScan) : Prop :=
  Forall (fun t => 6 <= t) (ts_ticks st)
  /\ (ts_inBlack st = true -> 6 <= ts_runStart st < h - 6).

(** The row scan before row [y]: the ticks so far increase strictly and lie
    from the top pad on, before the open run, or before [y] when no run is
    open; an open run started before [y]. *)
Definition scanOrdered (y : Z) (st : TickScan) : Prop :=
  StronglySorted Z.lt (ts_ticks st) /\
  Forall (fun t => 6 <= t < (if ts_inBlack st then ts_runStart st else y)) (ts_ticks st) /\
  (ts_inBlack st = true -> 6 <= ts_runStart st < y).

(** Consecutive ticks lie more than 10 rows apart. *)
Definition SpacedTicks (ticks : list Z) : Prop :=
  Forall (fun p => fst p + 10 < snd p) (adjacent ticks).

(** The number of raw ticks a lane gives. *)
Definition laneScore (pre : Pre) (lane : LaneFrac) : nat :=
  length (detectTimeTicksFromLeftLane pre lane).

(** [chosen] is the lane the scan over [lanes] stops at or keeps: the lanes
    before it give fewer ticks than it and fewer than 8; and it gives at
    least 8, or no later lane gives more than it or as many as 8. *)
Definition LaneChoice (pre : Pre) (lanes : list LaneFrac) (chosen : LaneFrac) : Prop :=
  exists before after,
    lanes = before ++ chosen :: after /\
    Forall (fun l => (laneScore pre l < laneScore pre chosen)%nat
                     /\ (laneScore pre l < 8)%nat) before /\
    ((8 <= laneScore pre chosen)%nat \/
     Forall (fun l => (laneScore pre l <= laneScore pre chosen)%nat
                      /\ (laneScore pre l < 8)%nat) after).

(** The stages of [computeFrozenNavFromPre] on [pre], named. *)
Definition navLane (pre : Pre) : LaneFrac := pickBestTickLane pre.

Definition navRawTicks (pre : Pre) : list Z :=
  detectTimeTicksFromLeftLane pre (navLane pre).

Definition navWindow (pre : Pre) (win : Window) : Window :=
  mkWindow (Some (tickLaneOf pre (navLane pre))) (DIV_XS win) (LAST_NAV win).

(** ** The divider search *)

(** The score of [x] as a divider candidate: defined when [x] is inside
    the image and its stripe is at least 18% non-white. *)
Definition dividerCandidate (pre : Pre) (yCenter : Z) (x : Z) : option VLine :=
  if (x <=? 0) || (pre_w pre <=? x) then None
  else
    match scoreVLineAtX pre x yCenter with
    | None => None
    | Some s => if Qlt_bool (vl_nonWhiteFrac s) (18 # 100) then None else Some (withScore s)
    end.

(** [b] is the best candidate of the columns [lo .. hi]: no candidate there
    scores higher, and none that scores as high lies further left. *)
Definition BestDivider (pre : Pre) (yCenter : Z) (lo hi : Z) (b : VLine) : Prop :=
  lo <= vl_x b <= hi /\
  dividerCandidate pre yCenter (vl_x b) = Some b /\
  (18 # 100 <= vl_nonWhiteFrac b)%Q /\
  vl_score b = vlineScore (vl_nonWhiteFrac b) (vl_darkFrac b) /\
  forall x c, lo <= x <= hi -> dividerCandidate pre yCenter x = Some c ->
              (vl_score c <= vl_score b)%Q /\
              ((vl_score b <= vl_score c)%Q -> vl_x b <= x).

(** No column of [lo .. hi] is a candidate. *)
Definition NoDivider (pre : Pre) (yCenter : Z) (lo hi : Z) : Prop :=
  forall x, lo <= x <= hi -> dividerCandidate pre yCenter x = None.

(** The i-th expected position between the anchors. *)
Definition dividerGuess (leftX rightX : Z) (i : nat) : Q :=
  (inject_Z leftX + (inject_Z (rightX - leftX) / 5) * inject_Z (Z.of_nat i))%Q.

(** What [best] records after the offsets [lo] up to [d - 1] around the
    guess [g] were tried. *)
Definition searchInv (pre : Pre) (yc : Z) (g : Q) (lo d : Z) (best : option VLine) : Prop :=
  match best with
  | None => NoDivider pre yc (Qfloor g + lo) (Qfloor g + d - 1)
  | Some b => BestDivider pre yc (Qfloor g + lo) (Qfloor g + d - 1) b
  end.

(** The window searched around the i-th expected position. *)
Definition DividerAt (pre : Pre) (yc leftX rightX : Z) (i : nat) (b : VLine) : Prop :=
  BestDivider pre yc (Qfloor (dividerGuess leftX rightX i) - 40)
              (Qfloor (dividerGuess leftX rightX i) + 40) b.

Definition NoDividerAt (pre : Pre) (yc leftX rightX : Z) (i : nat) : Prop :=
  NoDivider pre yc (Qfloor (dividerGuess leftX rightX i) - 40)
            (Qfloor (dividerGuess leftX rightX i) + 40).

(** The anchors the detector starts from. *)
Definition leftAnchor (pre : Pre) (yc : Z) : option VLine :=
  firstAnchor pre yc
    (rangeStep (Qfloor (inject_Z (pre_w pre) * (10 # 100)))
               (Qfloor (inject_Z (pre_w pre) * (985 # 1000))) 2).

Definition rightAnchor (pre : Pre) (yc : Z) : option VLine :=
  firstAnchor pre yc
    (rangeDown (Qfloor (inject_Z (pre_w pre) * (985 # 1000)))
               (Qfloor (inject_Z (pre_w pre) * (10 # 100))) 2).

(** The anchors are found and far enough apart. *)
Definition AnchorsFound (pre : Pre) (yc : Z) (leftX rightX : Z) : Prop :=
  exists a b, leftAnchor pre yc = Some a /\ rightAnchor pre yc = Some b /\
              vl_x a = leftX /\ vl_x b = rightX /\ leftX + 50 < rightX.

Definition AnchorsMissing (pre : Pre) (yc : Z) : Prop :=
  leftAnchor pre yc = None \/
  exists a, leftAnchor pre yc = Some a /\
            (rightAnchor pre yc = None \/
             exists b, rightAnchor pre yc = Some b /\ vl_x b <= vl_x a + 50).

(** The regions frozen from six divider positions. *)
Definition regionsBetween (xs : list Z) : DayRegions :=
  [ (Monday, mkDayRegion (nthZ xs 0) (nthZ xs 1));
    (Tuesday, mkDayRegion (nthZ xs 1) (nthZ xs 2));
    (Wednesday, mkDayRegion (nthZ xs 2) (nthZ xs 3));
    (Thursday, mkDayRegion (nthZ xs 3) (nthZ xs 4));
    (Friday, mkDayRegion (nthZ xs 4) (nthZ xs 5)) ].

(** The search of [findBestDividerNearX] as the specification words it:
    the same offsets, taken two by two. *)
Definition specDividerSearch (pre : Pre) (yCenter : Z) (xGuess : Q) : option VLine :=
  fold_left (dividerSearchStep pre yCenter xGuess) (rangeStep (-40) 40 2) None.

(** ** Background calibration *)




(** ** Sampling and classification *)

(** The pixels that [count] rounds of a sampling loop over the rectangle
    [rc] read, from the draw [n] on. *)
Fixpoint samplesOf (rand : nat -> Q) (pre : Pre) (rc : Rect) (count n : nat)
    : list Pixel :=
  match count with
  | O => []
  | S k => samplePixel rand pre rc n :: samplesOf rand pre rc k (S (S n))
  end.

Definition countIf (f : Pixel -> bool) (l : list Pixel) : Z :=
  Z.of_nat (length (filter f l)).

(** A sample is occupied: not near white, not purple, and no match of the
    background. *)
Definition isOccupied (bg : BackgroundColor) (p : Pixel) : bool :=
  isNonWhite p && negb (isPurpleMatch p) && negb (isBgMatch p bg).

(** Two streams of draws give the same values from the draw [lo] up to,
    not including, the draw [hi]. *)
Definition sameDraws (rand1 rand2 : nat -> Q) (lo hi : nat) : Prop :=
  forall k, (lo <= k < hi)%nat -> rand1 k = rand2 k.


(** [grid[day][i] === true]. *)
Definition gridAt (grid : list (Weekday * list bool)) (day : Weekday) (i : nat) : bool :=
  match lookupDay grid day with
  | Some arr => nth i arr false
  | None => false
  end.

(** ** Saved-schedule queries *)

(** The range [r] comes from a closed run of slots that are on, among the
    slots [i0 .. j - 1]. *)
Definition runOf (maskArr : list bool) (i0 anchorMin step j : Z) (r : Query.TimeRange)
    : Prop :=
  exists a b, i0 <= a /\ a < b /\ b <= j /\
              (forall k, a <= k < b -> Query.maskAt maskArr k = true) /\
              anchorMin + a * step <= Query.startMin r /\
              Query.endMin r <= anchorMin + b * step.

(** The ranges lie in the clamp window, have a positive length, and follow
    one another at least one slot apart. *)
Definition RangesOrdered (step cs ce : Z) (rs : list Query.TimeRange) : Prop :=
  Forall (fun r => cs <= Query.startMin r /\ Query.startMin r < Query.endMin r
                   /\ Query.endMin r <= ce) rs /\
  StronglySorted (fun r1 r2 => Query.endMin r1 + step <= Query.startMin r2) rs.

(** The loop variables of [buildRangesFromMask] before slot [j], ordering
    included: the ranges so far end a slot before the open run, or before
    slot [j]. *)
Definition orderedInv (anchorMin step cs ce j : Z) (st : Query.RunState) : Prop :=
  RangesOrdered step cs ce (Query.ranges st) /\
  let bound := match Query.runStartIdx st with Some a => a | None => j end in
  match Query.runStartIdx st with Some a => a < j | None => True end /\
  Forall (fun r => Query.endMin r <= anchorMin + (bound - 1) * step) (Query.ranges st).

(** The part of slot [k] inside the clamp window, if any, lies within one
    of the ranges. *)
Definition slotCovered (anchorMin step cs ce k : Z) (rs : list Query.TimeRange) : Prop :=
  let lo := Z.max cs (anchorMin + k * step) in
  let hi := Z.min ce (anchorMin + (k + 1) * step) in
  lo < hi -> exists r, In r rs /\ Query.startMin r <= lo /\ hi <= Query.endMin r.

(** The loop variables of [buildRangesFromMask] before slot [j], coverage
    included: a slot that is on is covered, or belongs to the open run. *)
Definition coverInv (maskArr : list bool) (i0 anchorMin step cs ce j : Z)
    (st : Query.RunState) : Prop :=
  match Query.runStartIdx st with Some a => a < j | None => True end /\
  forall k, i0 <= k < j -> Query.maskAt maskArr k = true ->
    slotCovered anchorMin step cs ce k (Query.ranges st)
    \/ exists a, Query.runStartIdx st = Some a /\ a <= k.

(** The loop variables of [buildRangesFromMask] before slot [j]. *)
Definition rangesInv (maskArr : list bool) (i0 anchorMin step j : Z) (st : Query.RunState)
    : Prop :=
  (forall r, In r (Query.ranges st) -> runOf maskArr i0 anchorMin step j r) /\
  match Query.runStartIdx st with
  | None => True
  | Some a => i0 <= a < j /\ forall k, a <= k < j -> Query.maskAt maskArr k = true
  end.

(** The minutes of slot [i] of a schedule anchored at [anchorMin] do not
    meet the range [r]. *)
Definition slotOutside (anchorMin : Z) (i : Z) (r : Query.TimeRange) : Prop :=
  Query.endMin r <= anchorMin + i * TIME_STEP_MIN
  \/ anchorMin + (i + 1) * TIME_STEP_MIN <= Query.startMin r.

(** ** Prefix tables *)

Definition sumZ (l : list Z) : Z := fold_right Z.add 0 l.

(** The number of set bits of a mask in [x0,x1) x [y0,y1). *)
Definition boxCount (bit : Z -> Z -> Z) (x0 y0 x1 y1 : Z) : Z :=
  sumZ (map (fun y => sumZ (map (fun x => bit x y) (range x0 x1))) (range y0 y1)).

(** The near-white and the dark bit of pixel (x, y) of an image of width
    [w]. *)
Definition whiteBit (img : Z -> Z) (w x y : Z) : Z :=
  let p := idxOf x y w in
  if isNearWhite (img p) (img (p + 1)) (img (p + 2)) then 1 else 0.

Definition darkBit (img : Z -> Z) (w x y : Z) : Z :=
  let p := idxOf x y w in
  if Qle_bool ((2126 # 10000) * inject_Z (img p) + (7152 # 10000) * inject_Z (img (p + 1))
               + (722 # 10000) * inject_Z (img (p + 2))) 215
  then 1 else 0.

(** The sum of the first [x] entries of each row. *)
Definition colSum (rows : list (list Z)) (x : nat) : Z :=
  sumZ (map (fun r => sumZ (firstn x r)) rows).

(** ** Slot bands *)

(** Row [y] is a dark row of the lane: what [isDarkRow] of
    [estimateLineBandAtTick] computes. *)
Definition laneRowDark (pre : Pre) (lane : LaneFrac) (y : Z) : bool :=
  let w := pre_w pre in
  let x0 := clamp (Qfloor (inject_Z w * x0Frac lane)) 0 (w - 1) in
  let x1 := clamp (Qfloor (inject_Z w * x1Frac lane)) (x0 + 1) w in
  isDarkRow pre x0 x1 (Z.max 2 (Qfloor (inject_Z (x1 - x0) * (12 # 100)))) y.

(** The band is the run of dark rows around its centre row. *)
Definition LineBandAround (pre : Pre) (lane : LaneFrac) (b : LineBand) : Prop :=
  0 <= lb_y0 b <= lb_cy b /\ lb_cy b < lb_y1 b <= pre_h pre /\
  (forall y, lb_y0 b <= y < lb_y1 b -> y <> lb_cy b -> laneRowDark pre lane y = true) /\
  (0 < lb_y0 b -> laneRowDark pre lane (lb_y0 b - 1) = false) /\
  (lb_y1 b < pre_h pre -> laneRowDark pre lane (lb_y1 b) = false).

(** The slot is the gap between the lines of its two ticks: it starts at
    the first row under the top tick that is not dark, and ends over the
    dark rows that lead to the bottom tick. *)
Definition SlotBetweenLines (pre : Pre) (lane : LaneFrac) (s : SlotBand) : Prop :=
  0 <= topTick s < yStart s /\ yStart s + 8 <= yEnd s /\ yEnd s <= botTick s < pre_h pre /\
  (forall y, topTick s < y < yStart s -> laneRowDark pre lane y = true) /\
  laneRowDark pre lane (yStart s) = false /\
  (forall y, yEnd s <= y < botTick s -> laneRowDark pre lane y = true) /\
  laneRowDark pre lane (yEnd s - 1) = false.

(** * Proofs *)

(** ** Arithmetic helpers *)

Lemma Qlt_bool_iff (x y : Q) : Qlt_bool x y = true <-> (x < y)%Q.
Proof.
  unfold Qlt_bool. rewrite negb_true_iff.
  destruct (Qle_bool y x) eqn:E.
  - apply Qle_bool_iff in E. split; [discriminate | intro H; exfalso; lra].
  - split; [intros _ | reflexivity].
    destruct (Qlt_le_dec x y) as [H | H]; [exact H |].
    apply Qle_bool_iff in H. congruence.
Qed.

Lemma Qlt_bool_false_iff (x y : Q) : Qlt_bool x y = false <-> (y <= x)%Q.
Proof.
  unfold Qlt_bool. rewrite negb_false_iff. apply Qle_bool_iff.
Qed.

Lemma Qle_bool_false_iff (x y : Q) : Qle_bool x y = false <-> (y < x)%Q.
Proof.
  rewrite <- Qlt_bool_iff. unfold Qlt_bool.
  destruct (Qle_bool x y); simpl; split; congruence.
Qed.

Lemma clamp_bounds (n lo hi : Z) : lo <= hi -> lo <= clamp n lo hi <= hi.
Proof. unfold clamp. lia. Qed.

Lemma clamp_lower (n lo hi : Z) : lo <= clamp n lo hi.
Proof. unfold clamp. lia. Qed.

Lemma round_spec (q : Q) :
  (inject_Z (round q) <= q + (1 # 2))%Q /\ (q - (1 # 2) < inject_Z (round q))%Q.
Proof.
  unfold round. pose proof (Qfloor_le (q + (1 # 2))) as H.
  pose proof (Qlt_floor (q + (1 # 2))) as H0.
  rewrite inject_Z_plus in H0. change (inject_Z 1) with 1%Q in H0.
  split; lra.
Qed.

(** ** Sorting *)

Lemma insertAsc_length (x : Z) (l : list Z) : length (insertAsc x l) = S (length l).
Proof.
  induction l as [| y t IH]; simpl; [reflexivity |].
  destruct (x <? y); simpl; [reflexivity | now rewrite IH].
Qed.

Lemma sortAsc_length (l : list Z) : length (sortAsc l) = length l.
Proof.
  induction l as [| x t IH]; simpl; [reflexivity |].
  now rewrite insertAsc_length, IH.
Qed.

(** ** The median spacing *)

Import TickSpec.

Lemma diffsLoop_spec (rest : list Z) : forall prev acc,
  diffsLoop prev rest acc = acc ++ positiveDiffs (prev :: rest).
Proof.
  induction rest as [| t tl IH]; intros prev acc.
  - simpl. now rewrite app_nil_r.
  - cbn [diffsLoop]. rewrite IH. unfold positiveDiffs.
    cbn [consecutiveDiffs filter].
    destruct (0 <? t - prev); [now rewrite <- app_assoc | reflexivity].
Qed.

Lemma computeMedianDy_spec (raw : list Z) : computeMedianDy raw = medianDy raw.
Proof.
  unfold computeMedianDy, medianDy.
  destruct raw as [| t0 [| t1 rest]]; [reflexivity | reflexivity |].
  rewrite diffsLoop_spec. cbn [app]. reflexivity.
Qed.

(** ** The nearest raw tick *)

Section Nearest.

Variable raw : list Z.
Variable e : Q.
Variable snap : Z.
Variable from : nat.

Lemma skipn_cons_nth (i : nat) (y : Z) (tl : list Z) :
  skipn i raw = y :: tl -> nthZ raw i = y /\ skipn (S i) raw = tl /\ (i < length raw)%nat.
Proof.
  intro H. unfold nthZ. repeat split.
  - rewrite <- (firstn_skipn i raw) at 1. rewrite H.
    assert (Hl : (i < length raw)%nat).
    { destruct (Nat.lt_ge_cases i (length raw)) as [L | L]; [exact L |].
      rewrite skipn_all2 in H by exact L. discriminate. }
    rewrite app_nth2; rewrite length_firstn, Nat.min_l by lia; [| lia].
    now rewrite Nat.sub_diag.
  - replace (S i) with (1 + i)%nat by lia. rewrite <- skipn_skipn, H. reflexivity.
  - destruct (Nat.lt_ge_cases i (length raw)) as [L | L]; [exact L |].
    rewrite skipn_all2 in H by exact L. discriminate.
Qed.

Lemma nearestInv_some (upto : nat) (y : Z) (j : nat) (d : Q) :
  y = nthZ raw j -> d = dist raw e j -> (from <= j < upto)%nat ->
  (j < length raw)%nat ->
  (dist raw e j <= inject_Z snap)%Q ->
  (forall k, (from <= k < upto)%nat -> (dist raw e k <= inject_Z snap)%Q ->
             (dist raw e j <= dist raw e k)%Q /\
             ((dist raw e k <= dist raw e j)%Q -> (j <= k)%nat)) ->
  nearestInv raw e snap from upto (Some (mkTickHit y j d)).
Proof. intros. simpl. repeat (split; [assumption || lia |]). assumption. Qed.

Lemma nearestLoop_inv (rest : list Z) : forall i best,
  skipn i raw = rest -> (from <= i)%nat ->
  nearestInv raw e snap from i best ->
  nearestInv raw e snap from (length raw) (nearestLoop rest i e snap best).
Proof.
  induction rest as [| y tl IH]; intros i best Hs Hfi Hinv.
  - simpl.
    assert (Hlen : (length raw <= i)%nat).
    { destruct (Nat.lt_ge_cases i (length raw)) as [L | L]; [| exact L].
      assert (H : length (skipn i raw) = 0%nat) by now rewrite Hs.
      rewrite length_skipn in H. lia. }
    destruct best as [[by_ bi bd] |]; simpl in *.
    + destruct Hinv as (Hy & Hd & Hr & Hl & Hw & Hmin).
      apply nearestInv_some; [assumption | assumption | lia | assumption | assumption |].
      intros k Hk Hkw. apply Hmin; [lia | exact Hkw].
    + intros k Hk. apply Hinv. lia.
  - destruct (skipn_cons_nth i y tl Hs) as (Hy & Hs' & Hlt).
    cbn [nearestLoop]. apply IH; [exact Hs' | lia |].
    assert (Hdy : Qabs (inject_Z y - e) = dist raw e i).
    { unfold dist. now rewrite Hy. }
    rewrite Hdy.
    destruct (Qle_bool (dist raw e i) (inject_Z snap)) eqn:Ew; cbn [andb].
    + apply Qle_bool_iff in Ew.
      destruct best as [[by_ bi bd] |]; simpl in Hinv.
      * destruct Hinv as (Hby & Hbd & Hbr & Hbl & Hbw & Hmin). cbn [hit_dist].
        destruct (Qlt_bool (dist raw e i) bd) eqn:El.
        -- apply Qlt_bool_iff in El. rewrite Hbd in El.
           apply nearestInv_some;
             [ first [assumption | symmetry; assumption] | first [assumption | reflexivity]
             | lia | assumption | assumption | ].
           intros k Hk Hkw.
           destruct (Nat.eq_dec k i) as [-> | Hne]; [split; [lra | lia] |].
           destruct (Hmin k) as [Hm _]; [lia | assumption |].
           split; [lra | intro; lra].
        -- apply Qlt_bool_false_iff in El. rewrite Hbd in El.
           apply nearestInv_some;
             [ first [assumption | symmetry; assumption] | first [assumption | reflexivity]
             | lia | assumption | assumption | ].
           intros k Hk Hkw.
           destruct (Nat.eq_dec k i) as [-> | Hne]; [split; [exact El | lia] |].
           apply Hmin; [lia | assumption].
      * apply nearestInv_some;
             [ first [assumption | symmetry; assumption] | first [assumption | reflexivity]
             | lia | assumption | assumption | ].
        intros k Hk Hkw.
        destruct (Nat.eq_dec k i) as [-> | Hne]; [split; [lra | lia] |].
        exfalso. apply (Hinv k); [lia | assumption].
    + apply Qle_bool_false_iff in Ew.
      destruct best as [[by_ bi bd] |]; simpl in *.
      * destruct Hinv as (Hby & Hbd & Hbr & Hbl & Hbw & Hmin).
        apply nearestInv_some;
             [ first [assumption | symmetry; assumption] | first [assumption | reflexivity]
             | lia | assumption | assumption | ].
        intros k Hk Hkw.
        destruct (Nat.eq_dec k i) as [-> | Hne]; [lra |].
        apply Hmin; [lia | assumption].
      * intros k Hk Hkw. destruct (Nat.eq_dec k i) as [-> | Hne]; [lra |].
        apply (Hinv k); [lia | assumption].
Qed.

End Nearest.

Lemma nearestTickWithin_hit (raw : list Z) (e : Q) (snap : Z) (from : nat) (b : TickHit) :
  nearestTickWithin raw e snap from = Some b ->
  hit_y b = nthZ raw (hit_idx b) /\ NearestHit raw e snap from (hit_idx b).
Proof.
  unfold nearestTickWithin. intro H.
  pose proof (nearestLoop_inv raw e snap from (skipn from raw) from None eq_refl
                (Nat.le_refl _)) as Hinv.
  rewrite H in Hinv. simpl in Hinv.
  destruct Hinv as (Hy & _ & Hr & Hl & Hw & Hmin); [intros k Hk; lia |].
  split; [exact Hy |]. unfold NearestHit.
  split; [lia |]. split; [exact Hw |]. exact Hmin.
Qed.

Lemma nearestTickWithin_none (raw : list Z) (e : Q) (snap : Z) (from : nat) :
  nearestTickWithin raw e snap from = None -> NoHit raw e snap from.
Proof.
  unfold nearestTickWithin. intro H.
  pose proof (nearestLoop_inv raw e snap from (skipn from raw) from None eq_refl
                (Nat.le_refl _)) as Hinv.
  rewrite H in Hinv. simpl in Hinv. intros k Hk.
  apply Hinv; [intros k' Hk'; lia | exact Hk].
Qed.

(** ** The greedy chain *)

Lemma NearestHit_unique (raw : list Z) (e : Q) (snap : Z) (from j1 j2 : nat) :
  NearestHit raw e snap from j1 -> NearestHit raw e snap from j2 -> j1 = j2.
Proof.
  intros (R1 & W1 & M1) (R2 & W2 & M2).
  destruct (M1 j2 R2 W2) as [A1 B1]. destruct (M2 j1 R1 W1) as [A2 B2].
  specialize (B1 A2). specialize (B2 A1). lia.
Qed.

Lemma NearestHit_not_NoHit (raw : list Z) (e : Q) (snap : Z) (from j : nat) :
  NearestHit raw e snap from j -> NoHit raw e snap from -> False.
Proof. intros (R & W & _) N. exact (N j R W). Qed.

Lemma GreedyChain_unique (raw : list Z) (dy : Q) (snap : Z) (e : Q) (from : nat)
    (c1 c2 : list Z) :
  GreedyChain raw dy snap e from c1 -> GreedyChain raw dy snap e from c2 -> c1 = c2.
Proof.
  intro H1. revert c2.
  induction H1 as [e from N | e from j rest Hj Hrest IH]; intros c2 H2.
  - inversion H2 as [| ? ? j' rest' Hj' Hrest']; subst; [reflexivity |].
    exfalso. exact (NearestHit_not_NoHit _ _ _ _ _ Hj' N).
  - inversion H2 as [? ? N | ? ? j' rest' Hj' Hrest']; subst.
    + exfalso. exact (NearestHit_not_NoHit _ _ _ _ _ Hj N).
    + assert (j = j') by exact (NearestHit_unique _ _ _ _ _ _ Hj Hj'). subst j'.
      f_equal. apply IH. exact Hrest'.
Qed.

Lemma ChainFrom_unique (raw : list Z) (dy : Q) (snap : Z) (c : nat) (c1 c2 : list Z) :
  ChainFrom raw dy snap c c1 -> ChainFrom raw dy snap c c2 -> c1 = c2.
Proof.
  intros (r1 & -> & G1) (r2 & -> & G2). f_equal.
  exact (GreedyChain_unique _ _ _ _ _ _ _ G1 G2).
Qed.

(** With more rounds allowed than raw ticks remain, the loop ends by itself
    and has walked the greedy chain. *)
Lemma validateLoop_chain (raw : list Z) (dy : Q) (snap : Z) : forall fuel e rawIdx validated,
  (length raw - rawIdx < fuel)%nat ->
  exists ch, validateLoop fuel raw dy snap e rawIdx validated = Some (validated ++ ch)
             /\ GreedyChain raw dy snap e rawIdx ch.
Proof.
  induction fuel as [| k IH]; intros e rawIdx validated Hf; [lia |].
  cbn [validateLoop].
  destruct (nearestTickWithin raw (e + dy) snap rawIdx) as [hit |] eqn:En.
  - destruct (nearestTickWithin_hit _ _ _ _ _ En) as [Hy Hn].
    destruct Hn as (Hr & Hw & Hm).
    destruct (IH (e + dy)%Q (S (hit_idx hit)) (validated ++ [hit_y hit])) as (ch & Hch & Hg);
      [lia |].
    exists (hit_y hit :: ch). split.
    + rewrite Hch, <- app_assoc. reflexivity.
    + rewrite Hy. apply chain_step; [| exact Hg]. unfold NearestHit. auto.
  - exists []. split; [now rewrite app_nil_r |].
    apply chain_stop. exact (nearestTickWithin_none _ _ _ _ En).
Qed.

Lemma validateFromIndex_chain (raw : list Z) (dy : Q) (snap : Z) (c : nat) :
  exists ch, validateFromIndex raw dy snap c = Some ch /\ ChainFrom raw dy snap c ch.
Proof.
  unfold validateFromIndex.
  destruct (validateLoop_chain raw dy snap (S (length raw)) (inject_Z (nthZ raw c)) (S c)
              [nthZ raw c]) as (ch & Hch & Hg); [lia |].
  exists (nthZ raw c :: ch). split; [exact Hch |].
  exists ch. split; [reflexivity | exact Hg].
Qed.

Lemma bestChainLoop_inv (raw : list Z) (dy : Q) (snap : Z) (cands : list nat) :
  forall tried best,
  bestInv raw dy snap tried best ->
  exists best', bestChainLoop raw dy snap cands best = Some best'
                /\ bestInv raw dy snap (tried ++ cands) best'.
Proof.
  induction cands as [| c rest IH]; intros tried best Hinv.
  - exists best. split; [reflexivity | now rewrite app_nil_r].
  - cbn [bestChainLoop].
    destruct (validateFromIndex_chain raw dy snap c) as (v & Hv & Hc). rewrite Hv.
    replace (tried ++ c :: rest) with ((tried ++ [c]) ++ rest)
      by (rewrite <- app_assoc; reflexivity).
    apply IH.
    destruct best as [[bt bc] |]; simpl in Hinv.
    + destruct Hinv as (Hin & Hbc & Hmax).
      destruct (length bt <? length v)%nat eqn:El.
      * apply Nat.ltb_lt in El. simpl. split; [apply in_or_app; right; now left |].
        split; [exact Hc |]. intros c' ch Hin' Hch'.
        apply in_app_or in Hin'. destruct Hin' as [Hin' | [<- | []]].
        -- specialize (Hmax c' ch Hin' Hch'). lia.
        -- rewrite (ChainFrom_unique _ _ _ _ _ _ Hch' Hc). lia.
      * apply Nat.ltb_ge in El. simpl. split; [apply in_or_app; now left |].
        split; [exact Hbc |]. intros c' ch Hin' Hch'.
        apply in_app_or in Hin'. destruct Hin' as [Hin' | [<- | []]].
        -- exact (Hmax c' ch Hin' Hch').
        -- rewrite (ChainFrom_unique _ _ _ _ _ _ Hch' Hc). exact El.
    + subst tried. simpl. split; [now left |]. split; [exact Hc |].
      intros c' ch [<- | []] Hch'.
      rewrite (ChainFrom_unique _ _ _ _ _ _ Hch' Hc). lia.
Qed.

(** ** The start candidates *)

Lemma seq_snoc (i : nat) : seq 0 (S i) = seq 0 i ++ [i].
Proof. rewrite seq_S. reflexivity. Qed.

Lemma candidatesLoop_spec (raw : list Z) (cut : Q) (rest : list Z) : forall i,
  skipn i raw = rest -> (i <= 8)%nat -> (i <= length raw)%nat ->
  (forall k, (k < i)%nat -> (inject_Z (nthZ raw k) <= cut)%Q) ->
  forall c, In c (candidatesLoop rest i cut (seq 0 i)) <->
            ((c < 8)%nat /\ (c < length raw)%nat /\
             forall k, (k <= c)%nat -> (inject_Z (nthZ raw k) <= cut)%Q).
Proof.
  induction rest as [| y tl IH]; intros i Hs Hi Hlen2 Hpre c.
  - simpl.
    assert (Hlen : (length raw <= i)%nat).
    { destruct (Nat.lt_ge_cases i (length raw)) as [L | L]; [| exact L].
      assert (H : length (skipn i raw) = 0%nat) by now rewrite Hs.
      rewrite length_skipn in H. lia. }
    rewrite in_seq. split.
    + intros [_ Hc]. simpl in Hc. repeat split; try lia. intros k Hk. apply Hpre. lia.
    + intros (H8 & Hl & _). lia.
  - destruct (skipn_cons_nth raw i y tl Hs) as (Hy & Hs' & Hlt).
    cbn [candidatesLoop]. rewrite length_seq.
    destruct (i <? 8)%nat eqn:E8.
    + apply Nat.ltb_lt in E8.
      destruct (Qle_bool (inject_Z y) cut) eqn:Ec.
      * apply Qle_bool_iff in Ec. rewrite <- seq_snoc. apply IH; [exact Hs' | lia | lia |].
        intros k Hk. destruct (Nat.eq_dec k i) as [-> | Hne]; [now rewrite Hy |].
        apply Hpre. lia.
      * apply Qle_bool_false_iff in Ec. rewrite in_seq. split.
        -- intros [_ Hc]. simpl in Hc. repeat split; try lia. intros k Hk. apply Hpre. lia.
        -- intros (H8 & Hl & Hall). split; [lia |]. simpl.
           destruct (Nat.lt_ge_cases c i) as [L | L]; [exact L |].
           specialize (Hall i L). rewrite Hy in Hall. lra.
    + apply Nat.ltb_ge in E8. rewrite in_seq. split.
      * intros [_ Hc]. simpl in Hc. repeat split; try lia. intros k Hk. apply Hpre. lia.
      * intros (H8 & Hl & Hall). lia.
Qed.

Lemma candidatesOf_spec (raw : list Z) :
  (1 <= length raw)%nat ->
  forall c, In c (candidatesOf raw) <-> StartCandidate raw c.
Proof.
  intros Hlen c. unfold candidatesOf, StartCandidate.
  change (topCutOf raw) with (topCut raw).
  pose proof (candidatesLoop_spec raw (topCut raw) raw 0 eq_refl ltac:(lia) ltac:(lia)
                ltac:(intros k Hk; lia)) as Hspec.
  change (seq 0 0) with (@nil nat) in Hspec.
  destruct (candidatesLoop raw 0 (topCut raw) []) as [| c0 cs] eqn:E.
  - assert (Hno : ~ (inject_Z (nthZ raw 0) <= topCut raw)%Q).
    { intro H0. apply (proj2 (Hspec 0%nat)).
      repeat split; try lia. intros k Hk. replace k with 0%nat by lia. exact H0. }
    split.
    + intros [<- | []]. right. split; [reflexivity | exact Hno].
    + intros [(_ & _ & Hall) | [-> _]]; [| now left].
      exfalso. apply Hno. apply Hall. lia.
  - split.
    + intro Hin. left. apply Hspec. exact Hin.
    + intros [H | [-> Hno]]; [apply Hspec; exact H |].
      exfalso. apply Hno.
      destruct (proj1 (Hspec c0) (or_introl eq_refl)) as (_ & _ & Hall).
      apply Hall. lia.
Qed.

Lemma snapWinOf_spec (dy : Q) : snapWinOf dy = snapWindow dy.
Proof.
  unfold snapWinOf, snapWindow, clamp, round.
  f_equal. f_equal. apply Qfloor_comp. 
  assert (H : (10 # 100) == (1 # 10)) by reflexivity.
  rewrite H. reflexivity.
Qed.

Lemma dyInRange_iff (o : option Q) :
  dyInRange o = true <-> exists dy, o = Some dy /\ (10 <= dy <= 90)%Q.
Proof.
  unfold dyInRange. destruct o as [d |].
  - rewrite andb_true_iff, !Qle_bool_iff. split.
    + intros [A B]. exists d. auto.
    + intros (dy & [= <-] & A & B). auto.
  - split; [discriminate | intros (dy & [=] & _)].
Qed.

(** A start candidate is one of the first 8 ticks and, for a list whose
    last tick is not above its first, inside the top band. *)
Lemma startCandidate_top (raw : list Z) (c : nat) :
  StartCandidate raw c ->
  (c < 8)%nat /\
  (nthZ raw 0 <= nthZ raw (length raw - 1) -> (inject_Z (nthZ raw c) <= topCut raw)%Q).
Proof.
  intros [(H8 & Hl & Hall) | [-> Hno]].
  - split; [exact H8 |]. intros _. apply Hall. lia.
  - split; [lia |]. intro Hle. exfalso. apply Hno. unfold topCut.
    assert (H0 : (0 <= inject_Z (nthZ raw (length raw - 1) - nthZ raw 0))%Q).
    { change 0%Q with (inject_Z 0). rewrite <- Zle_Qle. lia. }
    nra.
Qed.

(** The outcome of [validateTicksFromFirst]: when it fails, and what it
    returns for a plausible median. *)
Lemma validateTicksFromFirst_outcome (raw : list Z) :
  exists r, validateTicksFromFirst raw = Some r /\
    (tv_ok r = false <->
       (length raw < 2)%nat \/ ~ DyPlausible raw \/ ChainsShort raw) /\
    (forall dy, (2 <= length raw)%nat -> medianDy raw = Some dy -> (10 <= dy <= 90)%Q ->
       tv_dy r = Some dy /\
       (exists c, StartCandidate raw c /\
                  ChainFrom raw dy (snapWindow dy) c (tv_ticks r)) /\
       (forall c ch, StartCandidate raw c -> ChainFrom raw dy (snapWindow dy) c ch ->
                     (length ch <= length (tv_ticks r))%nat)).
Proof.
  unfold validateTicksFromFirst, DyPlausible, ChainsShort.
  destruct (length raw <? 2)%nat eqn:Elen.
  - apply Nat.ltb_lt in Elen. eexists. split; [reflexivity |]. cbn [tv_ok tv_dy tv_ticks].
    split.
    + split; [intros _; now left | reflexivity].
    + intros dy Hl. lia.
  - apply Nat.ltb_ge in Elen. rewrite computeMedianDy_spec.
    destruct (medianDy raw) as [dy |] eqn:Edy.
    + destruct (dyInRange (Some dy)) eqn:Er; cbn [negb].
      * pose proof (proj1 (dyInRange_iff _) Er) as (dy' & [= <-] & Hr).
        destruct (bestChainLoop_inv raw dy (snapWinOf dy) (candidatesOf raw) [] None eq_refl)
          as (best & Hb & Hinv).
        rewrite Hb. cbn [app] in Hinv.
        destruct best as [[t c0] |]; simpl in Hinv.
        -- destruct Hinv as (Hin & Hch & Hmax).
           rewrite snapWinOf_spec in Hch, Hmax.
           apply candidatesOf_spec in Hin; [| lia].
           eexists. split; [reflexivity |]. cbn [tv_ok tv_dy tv_ticks].
           split.
           ++ split.
              ** intro Hok. apply Nat.leb_gt in Hok. right. right.
                 intros dy1 c ch [= <-] Hc Hcc.
                 assert (Hle : (length ch <= length t)%nat).
                 { apply (Hmax c ch); [| exact Hcc]. apply candidatesOf_spec; [lia | exact Hc]. }
                 lia.
              ** intros [Hl | [Hn | Hs]].
                 --- lia.
                 --- exfalso. apply Hn. exists dy. split; [reflexivity | exact Hr].
                 --- apply Nat.leb_gt. exact (Hs dy c0 t eq_refl Hin Hch).
           ++ intros dy1 _ [= <-] _. split; [reflexivity |]. split.
              ** exists c0. split; assumption.
              ** intros c ch Hc Hcc. apply (Hmax c ch); [| exact Hcc].
                 apply candidatesOf_spec; [lia | exact Hc].
        -- exfalso. destruct (candidatesOf raw) eqn:Ec; [| discriminate].
           unfold candidatesOf in Ec.
           destruct (candidatesLoop raw 0 (topCutOf raw) []); discriminate.
      * eexists. split; [reflexivity |]. cbn [tv_ok tv_dy tv_ticks].
        split.
        -- split; [| reflexivity]. intros _. right. left.
           intros (dy' & [= <-] & Hr).
           assert (Ht : dyInRange (Some dy) = true)
             by (apply dyInRange_iff; exists dy; auto).
           congruence.
        -- intros dy1 _ [= <-] Hr. exfalso.
           assert (Ht : dyInRange (Some dy) = true)
             by (apply dyInRange_iff; exists dy; auto).
           congruence.
    + eexists. split; [reflexivity |]. cbn [tv_ok tv_dy tv_ticks].
      split.
      * split; [| reflexivity]. intros _. right. left. intros (dy' & [=] & _).
      * intros dy1 _ [=].
Qed.

(** C3: validateTicksFromFirst always returns a result.  It fails exactly
    when the list has fewer than 2 ticks, or the median of the positive
    consecutive differences is missing or outside [10, 90], or every greedy
    chain from a start candidate has fewer than 6 ticks.  With at least 2
    ticks and a median dy in [10, 90], the returned dy is that median and
    the returned ticks are the greedy chain from a start candidate (each
    step the nearest later raw tick within clamp(round(0.10 dy), 4, 18) of
    the expected position) that no chain from a start candidate outgrows.
    A start candidate is one of the first 8 ticks and, for a list whose
    last tick is not above its first, within the top 20% of the range. *)
Theorem validateTicksFromFirst_spec (raw : list Z) :
  exists r, validateTicksFromFirst raw = Some r /\
    (tv_ok r = false <->
       (length raw < 2)%nat \/ ~ DyPlausible raw \/ ChainsShort raw) /\
    (forall dy, (2 <= length raw)%nat -> medianDy raw = Some dy -> (10 <= dy <= 90)%Q ->
       tv_dy r = Some dy /\
       (exists c, StartCandidate raw c /\
                  ChainFrom raw dy (snapWindow dy) c (tv_ticks r)) /\
       (forall c ch, StartCandidate raw c -> ChainFrom raw dy (snapWindow dy) c ch ->
                     (length ch <= length (tv_ticks r))%nat)) /\
    (forall c, StartCandidate raw c ->
       (c < 8)%nat /\
       (nthZ raw 0 <= nthZ raw (length raw - 1) ->
        (inject_Z (nthZ raw c) <= topCut raw)%Q)).
Proof.
  destruct (validateTicksFromFirst_outcome raw) as (r & Hr & Hfail & Hsucc).
  exists r. split; [exact Hr |]. split; [exact Hfail |]. split; [exact Hsucc |].
  intros c Hc. now apply startCandidate_top.
Qed.

(** [lia] is to see through division and remainder by constants. *)
Ltac Zify.zify_post_hook ::= Z.div_mod_to_equations.

(** ** Counting loops *)

Lemma zseqStep_In (step : Z) (n : nat) : forall lo v,
  In v (zseqStep lo step n) -> exists k, 0 <= k < Z.of_nat n /\ v = lo + k * step.
Proof.
  induction n as [| n IH]; intros lo v Hin; [destruct Hin |].
  destruct Hin as [<- | Hin].
  - exists 0. lia.
  - destruct (IH _ _ Hin) as (k & Hk & ->). exists (k + 1). lia.
Qed.

Lemma rangeStep_In (lo hi step v : Z) :
  0 < step -> In v (rangeStep lo hi step) ->
  lo <= v <= hi /\ exists k, 0 <= k /\ v = lo + k * step.
Proof.
  intros Hs Hin. unfold rangeStep in Hin.
  destruct (hi <? lo) eqn:E; [destruct Hin |].
  apply Z.ltb_ge in E.
  destruct (zseqStep_In _ _ _ _ Hin) as (k & Hk & ->).
  assert (Hq : 0 <= (hi - lo) / step) by (apply Z.div_pos; lia).
  rewrite Z2Nat.id in Hk by lia.
  assert (Hm : step * ((hi - lo) / step) <= hi - lo) by (apply Z.mul_div_le; lia).
  split; [| exists k; lia]. nia.
Qed.

Lemma zseq_In (n : nat) : forall lo v,
  In v (zseq lo n) <-> lo <= v < lo + Z.of_nat n.
Proof.
  induction n as [| n IH]; intros lo v; simpl.
  - lia.
  - rewrite IH. lia.
Qed.

Lemma range_In (lo hi v : Z) : In v (range lo hi) <-> lo <= v < hi.
Proof.
  unfold range. rewrite zseq_In. lia.
Qed.

(** ** Halves: positions that are multiples of 1/2 *)

Lemma Qfloor_half (q : Q) (n : Z) : q == n # 2 -> Qfloor q = n / 2.
Proof. intro H. rewrite (Qfloor_comp _ _ H). reflexivity. Qed.

Lemma half_inject (n : Z) : n # 2 == inject_Z n * (1 # 2).
Proof. rewrite Qmake_Qdiv. reflexivity. Qed.

(** Rewrite every [n # 2] other than the constant one half. *)
Ltac halves :=
  repeat match goal with
         | |- context [Qmake ?n 2] =>
             lazymatch n with
             | 1%Z => fail
             | _ => rewrite (half_inject n)
             end
         end.

(** Push [inject_Z] through sums, products and negations. *)
Ltac push_inj :=
  unfold Z.sub;
  repeat (rewrite inject_Z_plus || rewrite inject_Z_mult || rewrite inject_Z_opp);
  change (inject_Z 2) with 2%Q; change (inject_Z 1) with 1%Q.

Ltac push_inj_in H :=
  unfold Z.sub in H;
  repeat (rewrite inject_Z_plus in H || rewrite inject_Z_mult in H
          || rewrite inject_Z_opp in H);
  change (inject_Z 2) with 2%Q in H; change (inject_Z 1) with 1%Q in H.

Ltac halves_in H :=
  repeat match type of H with
         | context [Qmake ?n 2] =>
             lazymatch n with
             | 1%Z => fail
             | _ => rewrite (half_inject n) in H
             end
         end.

Lemma Zle_Q (a b : Z) : a <= b -> (inject_Z a <= inject_Z b)%Q.
Proof. intro H. rewrite <- Zle_Qle. exact H. Qed.

Lemma Zlt_Q (a b : Z) : a < b -> (inject_Z a < inject_Z b)%Q.
Proof. intro H. rewrite <- Zlt_Qlt. exact H. Qed.

Lemma Q_Zle (a b : Z) : (inject_Z a <= inject_Z b)%Q -> a <= b.
Proof. intro H. rewrite Zle_Qle. exact H. Qed.

Lemma Q_Zlt (a b : Z) : (inject_Z a < inject_Z b)%Q -> a < b.
Proof. intro H. rewrite Zlt_Qlt. exact H. Qed.

(** ** The horizontal peak lies in its scan window *)

Lemma hPeakSpanStep_fst (pre : Pre) (y : Z) (best : option Z * Q) (sp : Q * Q) :
  fst (hPeakSpanStep pre y best sp) = fst best \/ fst (hPeakSpanStep pre y best sp) = Some y.
Proof.
  unfold hPeakSpanStep.
  destruct (Qlt_bool _ _); simpl; auto.
Qed.

Lemma hPeakRowStep_fst (pre : Pre) (y : Z) (best : option Z * Q) :
  fst (hPeakRowStep pre best y) = fst best \/ fst (hPeakRowStep pre best y) = Some y.
Proof.
  unfold hPeakRowStep. generalize hSpans. intro l. revert best.
  induction l as [| sp l IH]; intro best; simpl; [now left |].
  destruct (IH (hPeakSpanStep pre y best sp)) as [H | H]; rewrite H; [| now right].
  apply hPeakSpanStep_fst.
Qed.

Lemma hPeak_fold_In (pre : Pre) (rows : list Z) : forall best y,
  fst (fold_left (hPeakRowStep pre) rows best) = Some y ->
  fst best = Some y \/ In y rows.
Proof.
  induction rows as [| r rows IH]; intros best y H; simpl in *; [now left |].
  destruct (IH _ _ H) as [H1 | H1]; [| now right; right].
  destruct (hPeakRowStep_fst pre r best) as [H2 | H2]; rewrite H2 in H1.
  - now left.
  - injection H1 as ->. right. now left.
Qed.

Lemma findBestHLinePeak_range (pre : Pre) (e : Q) (snapWin y : Z) :
  findBestHLinePeak pre e snapWin = Some y ->
  clamp (Qfloor (e - inject_Z snapWin)) 0 (pre_h pre - 3) <= y
  <= clamp (Qfloor (e + inject_Z snapWin)) 0 (pre_h pre - 3).
Proof.
  unfold findBestHLinePeak. intro H.
  destruct (fst (fold_left _ _ _)) as [y' |] eqn:E; [| discriminate].
  destruct (Qlt_bool _ _); [discriminate |]. injection H as ->.
  destruct (hPeak_fold_In _ _ _ _ E) as [H | H]; [discriminate |].
  apply rangeStep_In in H; [| lia]. lia.
Qed.

(** ** The lane mark lies in its scan window *)

Lemma laneMarkStep_y (pre : Pre) (x0 x1 : Z) (best : option LaneMark) (y0 : Z) :
  laneMarkStep pre x0 x1 best y0 = best
  \/ exists m, laneMarkStep pre x0 x1 best y0 = Some m /\ lm_y m = y0 + 7.
Proof.
  unfold laneMarkStep.
  destruct (_ <=? 0); [now left |].
  destruct best as [b |].
  - match goal with |- context [if ?c then _ else _] => destruct c end;
      [right; eexists; split; [reflexivity | reflexivity] | now left].
  - right. eexists. split; reflexivity.
Qed.

Lemma laneMark_fold_In (pre : Pre) (x0 x1 : Z) (rows : list Z) : forall best m,
  fold_left (laneMarkStep pre x0 x1) rows best = Some m ->
  best = Some m \/ exists y0, In y0 rows /\ lm_y m = y0 + 7.
Proof.
  induction rows as [| r rows IH]; intros best m H; simpl in *; [now left |].
  destruct (IH _ _ H) as [H1 | (y0 & Hin & Hy)]; [| right; exists y0; auto].
  destruct (laneMarkStep_y pre x0 x1 best r) as [H2 | (m' & H2 & Hy)]; rewrite H2 in H1.
  - now left.
  - injection H1 as ->. right. exists r. auto.
Qed.

Lemma findBestLaneMarkNearY_range (pre : Pre) (e : Q) (lane : option TickLane)
    (snapWin y : Z) :
  findBestLaneMarkNearY pre e lane snapWin = Some y ->
  clamp (Qfloor (e - inject_Z snapWin)) 0 (pre_h pre - 14) + 7 <= y
  <= clamp (Qfloor (e + inject_Z snapWin)) 0 (pre_h pre - 14) + 7.
Proof.
  unfold findBestLaneMarkNearY. intro H.
  destruct lane as [L |]; [| discriminate].
  destruct (fold_left _ _ _) as [m |] eqn:E; [| discriminate].
  destruct (Qlt_bool _ _); [discriminate |]. injection H as <-.
  destruct (laneMark_fold_In _ _ _ _ _ _ E) as [H | (y0 & Hin & ->)]; [discriminate |].
  apply rangeStep_In in Hin; [| lia]. lia.
Qed.

(** ** The ladder invariant *)

Import LadderSpec.

Lemma adjacent_snoc (l : list Z) (a b : Z) :
  adjacent ((l ++ [a]) ++ [b]) = adjacent (l ++ [a]) ++ [(a, b)].
Proof.
  unfold adjacent. induction l as [| x l IH]; [reflexivity |].
  destruct l as [| x' l']; [reflexivity |].
  cbn [app tl combine] in *. f_equal. exact IH.
Qed.

Lemma round_half (q : Q) (n : Z) : q == n # 2 -> round q = (n + 1) / 2.
Proof.
  intro H. unfold round. apply Qfloor_half. rewrite H.
  halves. push_inj. field.
Qed.

Lemma Qfloor_half_shift (q : Q) (n s : Z) :
  q == n # 2 -> Qfloor (q + inject_Z s) = (n + 2 * s) / 2.
Proof.
  intro H. apply Qfloor_half. rewrite H.
  halves. push_inj. field.
Qed.

Lemma Qfloor_half_unshift (q : Q) (n s : Z) :
  q == n # 2 -> Qfloor (q - inject_Z s) = (n - 2 * s) / 2.
Proof.
  intro H. apply Qfloor_half. rewrite H.
  halves. push_inj. field.
Qed.

Lemma half_lt_Z (n z : Z) : (n # 2 < inject_Z z)%Q -> n < 2 * z.
Proof.
  intro H. apply Q_Zlt. push_inj. halves_in H. lra.
Qed.

Lemma half_le_Z (n z : Z) : (inject_Z z <= n # 2)%Q -> 2 * z <= n.
Proof.
  intro H. apply Q_Zle. push_inj. halves_in H. lra.
Qed.

Lemma half_ge_Z (n z : Z) : (n # 2 <= inject_Z z)%Q -> n <= 2 * z.
Proof.
  intro H. apply Q_Zle. push_inj. halves_in H. lra.
Qed.

(** From a bound on twice the gap to the bound on the gap. *)
Lemma gap_from_Z (dy : Q) (d2 g t : Z) :
  dy == d2 # 2 -> - (2 * t + 1) <= 2 * g - d2 <= 2 * t + 1 ->
  (Qabs (inject_Z g - dy) <= inject_Z t + (1 # 2))%Q.
Proof.
  intros Hdy [Hlo Hhi]. apply Qabs_Qle_condition. rewrite Hdy. halves.
  apply Zle_Q in Hlo, Hhi. push_inj_in Hlo. push_inj_in Hhi.
  split; lra.
Qed.

(** From the window test on the terminal tick to a bound on twice its
    offset. *)
Lemma window_to_Z (e : Q) (n y t : Z) :
  e == n # 2 -> (Qabs (inject_Z y - e) <= inject_Z t)%Q ->
  - (2 * t) <= 2 * y - n <= 2 * t.
Proof.
  intros He H. apply Qabs_Qle_condition in H. rewrite He in H. halves_in H.
  destruct H as [Hlo Hhi].
  split; apply Q_Zle; push_inj; lra.
Qed.

Section LadderInvariant.

Variable trim : option TrimFunction.
Variable pre : Pre.
Variable win : Window.
Variable dy : Q.
Variable d2 : Z.
Variable opts : LadderOpts.

Hypothesis Hdy : dy == d2 # 2.
Hypothesis Hrange : 20 <= d2 <= 180.

Local Abbreviation s := (ladderSnapWin dy).
Local Abbreviation W := (snapWinTermOf dy).

Lemma dy_bounds : (10 <= dy <= 90)%Q.
Proof.
  rewrite Hdy. halves. destruct Hrange as [A B]. apply Zle_Q in A, B.
  change (inject_Z 20) with 20%Q in A. change (inject_Z 180) with 180%Q in B.
  split; lra.
Qed.

Lemma snapWin_bounds : 4 <= s /\ 2 * s <= d2 - 12.
Proof.
  unfold ladderSnapWin. split; [apply clamp_lower |].
  pose proof dy_bounds as [A B].
  pose proof (round_spec (dy * (12 # 100))) as [R _].
  assert (Hq : (inject_Z (clamp (round (dy * (12 # 100))) 4 18) <= dy - 6)%Q).
  { unfold clamp.
    destruct (Z.max_spec 4 (Z.min 18 (round (dy * (12 # 100))))) as [[_ ->] | [_ ->]].
    - assert (H : (inject_Z (Z.min 18 (round (dy * (12 # 100))))
                   <= inject_Z (round (dy * (12 # 100))))%Q) by (apply Zle_Q; lia).
      lra.
    - change (inject_Z 4) with 4%Q. lra. }
  set (c := clamp (round (dy * (12 # 100))) 4 18) in *. clearbody c.
  rewrite Hdy in Hq. halves_in Hq. apply Q_Zle. push_inj.
  change (inject_Z 12) with 12%Q. lra.
Qed.

Lemma snapWinTerm_bounds : 10 <= W <= 28 /\ 2 * W <= d2.
Proof.
  unfold snapWinTermOf. split; [apply clamp_bounds; lia |].
  pose proof dy_bounds as [A B].
  pose proof (round_spec (dy * (7 # 10))) as [R _].
  assert (Hq : (inject_Z (clamp (round (dy * (7 # 10))) 10 28) <= dy)%Q).
  { unfold clamp.
    destruct (Z.max_spec 10 (Z.min 28 (round (dy * (7 # 10))))) as [[_ ->] | [_ ->]].
    - assert (H : (inject_Z (Z.min 28 (round (dy * (7 # 10))))
                   <= inject_Z (round (dy * (7 # 10))))%Q) by (apply Zle_Q; lia).
      lra.
    - change (inject_Z 10) with 10%Q. lra. }
  set (c := clamp (round (dy * (7 # 10))) 10 28) in *. clearbody c.
  rewrite Hdy in Hq. halves_in Hq. apply Q_Zle. push_inj. lra.
Qed.

Lemma accept_tick (p2 : Z) (front : list Z) (y p2' : Z) (cv : nat) (gap : bool) :
  Forall (GapWithin dy (inject_Z s + (1 # 2))) (adjacent (front ++ [(p2 + 1) / 2])) ->
  0 <= p2' -> (d2 mod 2 = 0 -> p2' mod 2 = 0) -> y = (p2' + 1) / 2 ->
  (p2 + 1) / 2 < y ->
  - (2 * s + 1) <= 2 * (y - (p2 + 1) / 2) - d2 <= 2 * s + 1 ->
  forall prev', prev' == p2' # 2 ->
  LadderInv dy d2 (mkLadderState ((front ++ [(p2 + 1) / 2]) ++ [y]) prev' cv gap).
Proof.
  intros Hall Hp Hpar Hy Hlt Hgap prev' Hprev.
  exists p2', (front ++ [(p2 + 1) / 2]). cbn [ls_prev ls_out].
  repeat split; try assumption.
  - now rewrite Hy.
  - rewrite adjacent_snoc. apply Forall_app. split; [exact Hall |].
    constructor; [| constructor]. split; [exact Hlt |]. cbn [fst snd].
    apply (gap_from_Z dy d2); assumption.
Qed.

Lemma terminalStep_exit (st : LadderState) (p2 : Z) (front : list Z) :
  ls_prev st == p2 # 2 -> 0 <= p2 ->
  ls_out st = front ++ [(p2 + 1) / 2] ->
  (ls_prev st + dy < inject_Z (pre_h pre - 2))%Q ->
  match terminalStep pre win dy (ls_prev st + dy) (ls_out st) with
  | Continue _ => False
  | Break out _ => LadderExit dy (ls_out st) out
  | Throw _ => False
  end.
Proof.
  intros Hp Hp0 Hout Hbot. unfold terminalStep. 
  destruct (findBestLaneMarkNearY _ _ _ _) as [y |] eqn:El; [| now left].
  destruct (Qle_bool _ _) eqn:Ew; [| now left].
  right. exists front, ((p2 + 1) / 2), y.
  split; [exact Hout |]. split; [reflexivity |].
  apply Qle_bool_iff in Ew.
  assert (He : ls_prev st + dy == (p2 + d2) # 2).
  { rewrite Hp, Hdy. halves. push_inj. field. }
  pose proof (window_to_Z _ _ _ _ He Ew) as Hwin.
  apply findBestLaneMarkNearY_range in El.
  rewrite (Qfloor_half_unshift _ _ _ He), (Qfloor_half_shift _ _ _ He) in El.
  rewrite He in Hbot. apply half_lt_Z in Hbot.
  destruct snapWinTerm_bounds as [HW HWd]. 
  unfold clamp in El.
  split; cbn [fst snd].
  - lia.
  - apply (gap_from_Z dy d2); [exact Hdy |]. lia.
Qed.

Lemma ladderStep_inv (st : LadderState) :
  LadderInv dy d2 st ->
  match ladderStep trim pre win dy s opts st with
  | Continue st1 => LadderInv dy d2 st1
  | Break out _ => LadderExit dy (ls_out st) out
  | Throw _ => True
  end.
Proof.
  intros (p2 & front & Hp & Hp0 & Hpar & Hout & Hall).
  unfold ladderStep.
  destruct (Qle_bool (inject_Z (pre_h pre - 2)) (ls_prev st + dy)) eqn:Eb; [now left |].
  apply Qle_bool_false_iff in Eb.
  assert (He : ls_prev st + dy == (p2 + d2) # 2).
  { rewrite Hp, Hdy. halves. push_inj. field. }
  pose proof Eb as Hbot. rewrite He in Hbot. apply half_lt_Z in Hbot.
  destruct snapWin_bounds as [Hs4 Hs].
  assert (Hvert : forall cv,
    LadderInv dy d2 (mkLadderState (ls_out st ++ [round (ls_prev st + dy)])
                 (ls_prev st + dy) cv false)).
  { intro cv. rewrite Hout. rewrite Hout in Hall.
    apply (accept_tick p2 front _ (p2 + d2)); try assumption.
    - lia.
    - intro H. specialize (Hpar H).
      rewrite Z.add_mod by lia. rewrite H, Hpar. reflexivity.
    - apply round_half. exact He.
    - rewrite (round_half _ _ He). lia.
    - rewrite (round_half _ _ He). lia. }
  destruct (findBestHLinePeak pre (ls_prev st + dy) s) as [y |] eqn:Eh.
  - apply findBestHLinePeak_range in Eh.
    rewrite (Qfloor_half_unshift _ _ _ He), (Qfloor_half_shift _ _ _ He) in Eh.
    unfold clamp in Eh.
    rewrite Hout. rewrite Hout in Hall.
    apply (accept_tick p2 front y (2 * y)); try assumption.
    + lia.
    + intros _. rewrite Z.mul_comm. apply Z.mod_mul. lia.
    + lia.
    + lia.
    + assert (Hcase : d2 mod 2 = 0 \/ d2 mod 2 = 1) by lia.
      destruct Hcase as [H0 | H1]; [specialize (Hpar H0) |]; lia.
    + halves. push_inj. field.
  - destruct (hasVerticalDayStructureAtY _ _ _ _).
    + destruct (hasRowLikeStructure _ _ _ _ _) as [[|] | m];
        [apply Hvert | now left | exact I].
    + destruct (5 <=? ls_consecutiveVGood st)%nat.
      * destruct (hasVerticalDayStructureAtY _ _ _ _).
        -- destruct (hasRowLikeStructure _ _ _ _ _) as [[|] | m];
        [apply Hvert | now left | exact I].
        -- destruct (ls_allowedGapUsed st); cbn [negb].
           ++ pose proof (terminalStep_exit st p2 front Hp Hp0 Hout Eb) as Ht.
              destruct (terminalStep _ _ _ _ _); [contradiction | exact Ht | contradiction].
           ++ exists p2, front. cbn [ls_prev ls_out]. auto.
      * pose proof (terminalStep_exit st p2 front Hp Hp0 Hout Eb) as Ht.
        destruct (terminalStep _ _ _ _ _); [contradiction | exact Ht | contradiction].
Qed.

End LadderInvariant.

(** ** The whole ladder *)

Lemma Forall_removelast {A : Type} (P : A -> Prop) (l : list A) :
  Forall P l -> Forall P (removelast l).
Proof.
  induction 1 as [| x l Hx Hl IH]; [constructor |].
  destruct l as [| y l']; [constructor |].
  change (removelast (x :: y :: l')) with (x :: removelast (y :: l')).
  constructor; assumption.
Qed.

Lemma GapWithin_weaken (dy t1 t2 : Q) (p : Z * Z) :
  (t1 <= t2)%Q -> GapWithin dy t1 p -> GapWithin dy t2 p.
Proof. intros Ht [A B]. split; [exact A | lra]. Qed.

Lemma snapWin_le_term (dy : Q) : (0 <= dy)%Q -> ladderSnapWin dy <= snapWinTermOf dy.
Proof.
  intro H. unfold ladderSnapWin, snapWinTermOf, clamp, round.
  assert (Hm : Qfloor (dy * (12 # 100) + (1 # 2)) <= Qfloor (dy * (7 # 10) + (1 # 2))).
  { apply Qfloor_resp_le. lra. }
  lia.
Qed.

Lemma LadderExit_ok (dy : Q) (good out : list Z) :
  (0 <= dy)%Q ->
  Forall (GapWithin dy (inject_Z (ladderSnapWin dy) + (1 # 2))) (adjacent good) ->
  LadderExit dy good out -> LadderTicksOk dy out.
Proof.
  intros Hd Hgood Hexit.
  assert (Hle : (inject_Z (ladderSnapWin dy) + (1 # 2)
                 <= inject_Z (snapWinTermOf dy) + (1 # 2))%Q).
  { pose proof (Zle_Q _ _ (snapWin_le_term dy Hd)). lra. }
  assert (Hwide : Forall (GapWithin dy (inject_Z (snapWinTermOf dy) + (1 # 2)))
                         (adjacent good)).
  { eapply Forall_impl; [| exact Hgood]. intros p. apply GapWithin_weaken. exact Hle. }
  destruct Hexit as [-> | (front & lastT & y & Hg & -> & Hy)].
  - split; [| split].
    + eapply Forall_impl; [| exact Hgood]. intros p [A _]. exact A.
    + exact Hwide.
    + apply Forall_removelast. exact Hgood.
  - subst good. unfold LadderTicksOk, StrictlyIncreasing.
    rewrite adjacent_snoc. split; [| split].
    + apply Forall_app. split.
      * eapply Forall_impl; [| exact Hgood]. intros p [A _]. exact A.
      * constructor; [exact (proj1 Hy) | constructor].
    + apply Forall_app. split; [exact Hwide |]. constructor; [exact Hy | constructor].
    + rewrite removelast_last. exact Hgood.
Qed.

Section LadderLoop.

Variable trim : option TrimFunction.
Variable pre : Pre.
Variable win : Window.
Variable dy : Q.
Variable d2 : Z.
Variable opts : LadderOpts.

Hypothesis Hdy : dy == d2 # 2.
Hypothesis Hrange : 20 <= d2 <= 180.

Lemma ladderLoop_ok (fuel : nat) : forall steps st,
  LadderInv dy d2 st ->
  match fst (ladderLoop trim fuel pre win dy (ladderSnapWin dy) opts steps st) with
  | Returned (out, _) => LadderTicksOk dy out
  | Thrown _ => True
  end
  /\ (snd (ladderLoop trim fuel pre win dy (ladderSnapWin dy) opts steps st)
      <= steps + fuel)%nat.
Proof.
  pose proof (dy_bounds dy d2 Hdy Hrange) as [Hd0 _].
  induction fuel as [| k IH]; intros steps st Hinv.
  - cbn [ladderLoop fst snd]. split; [| lia].
    destruct Hinv as (p2 & front & _ & _ & _ & _ & Hall).
    apply (LadderExit_ok dy (ls_out st)); [lra | exact Hall | now left].
  - cbn [ladderLoop].
    pose proof (ladderStep_inv trim pre win dy d2 opts Hdy Hrange st Hinv) as Hstep.
    destruct (ladderStep trim pre win dy (ladderSnapWin dy) opts st)
      as [st1 | out reason | message].
    + destruct (IH (S steps) st1 Hstep) as [A B]. split; [exact A | lia].
    + cbn [fst snd]. split; [| lia].
      destruct Hinv as (p2 & front & _ & _ & _ & _ & Hall).
      apply (LadderExit_ok dy (ls_out st)); [lra | exact Hall | exact Hstep].
    + cbn [fst snd]. split; [exact I | lia].
Qed.

Lemma buildGlobalTickLadder_ok (vTicks : list Z) :
  0 <= nthZ vTicks 0 ->
  match buildGlobalTickLadder trim pre win vTicks dy opts with
  | Returned g => LadderTicksOk dy (lr_ticks g)
  | Thrown _ => True
  end.
Proof.
  intro Hv. unfold buildGlobalTickLadder.
  destruct (length vTicks <? 2)%nat eqn:El.
  - cbn [lr_ticks].
    destruct vTicks as [| a [| b l]]; [| | discriminate].
    + repeat split; constructor.
    + repeat split; constructor.
  - pose proof (ladderLoop_ok maxSteps 0
                  (mkLadderState [nthZ vTicks 0] (inject_Z (nthZ vTicks 0)) 0 false)) as H.
    destruct (ladderLoop _ _ _ _ _ _ _ _ _) as [[[out reason] | message] n];
      cbn [fst lr_ticks]; [| exact I].
    cbn [fst] in H. apply H. exists (2 * nthZ vTicks 0), []. cbn [ls_prev ls_out app].
    split; [| split; [| split; [| split]]].
    + halves. push_inj. field.
    + lia.
    + intros _. rewrite Z.mul_comm. apply Z.mod_mul. lia.
    + f_equal. symmetry. 
      replace (2 * nthZ vTicks 0 + 1) with (1 + nthZ vTicks 0 * 2) by lia.
      rewrite Z.div_add by lia. reflexivity.
    + constructor.
Qed.

End LadderLoop.

(** ** The stopping rule of the ladder *)

Section LadderStops.

Variable trim : option TrimFunction.
Variable pre : Pre.
Variable win : Window.
Variable dy : Q.
Variable snapWin : Z.
Variable opts : LadderOpts.

Lemma terminalStep_TerminalExit (st : LadderState) :
  exists out reason,
    terminalStep pre win dy (ls_prev st + dy) (ls_out st) = Break out reason
    /\ TerminalExit pre win dy st out.
Proof.
  unfold terminalStep, TerminalExit.
  destruct (findBestLaneMarkNearY _ _ _ _) as [y |] eqn:El.
  - destruct (Qle_bool _ _) eqn:Ew.
    + do 2 eexists. split; [reflexivity |]. right. exists y.
      apply Qle_bool_iff in Ew. auto.
    + do 2 eexists. split; [reflexivity | now left].
  - do 2 eexists. split; [reflexivity | now left].
Qed.

Lemma ladderLoop_steps (fuel : nat) : forall steps st,
  (snd (ladderLoop trim fuel pre win dy snapWin opts steps st) <= steps + fuel)%nat.
Proof.
  induction fuel as [| k IH]; intros steps st; cbn [ladderLoop].
  - cbn [snd]. lia.
  - destruct (ladderStep _ _ _ _ _ _ _) as [st1 | out reason | message].
    + specialize (IH (S steps) st1). lia.
    + cbn [snd]. lia.
    + cbn [snd]. lia.
Qed.

Lemma ladderStep_bottom (st : LadderState) :
  (inject_Z (pre_h pre - 2) <= ls_prev st + dy)%Q ->
  ladderStep trim pre win dy snapWin opts st = Break (ls_out st) "hit image bottom".
Proof.
  intro H. unfold ladderStep. apply Qle_bool_iff in H. now rewrite H.
Qed.

(** A round in which both cues fail either ends the loop, or uses up the
    one-gap allowance and leaves everything else as it was. *)
Lemma ladderStep_bothFail (st : LadderState) :
  BothCuesFail pre dy snapWin opts st ->
  (exists out reason,
     ladderStep trim pre win dy snapWin opts st = Break out reason
     /\ TerminalExit pre win dy st out)
  \/ (ls_allowedGapUsed st = false /\
      ladderStep trim pre win dy snapWin opts st
      = Continue (mkLadderState (ls_out st) (ls_prev st) (ls_consecutiveVGood st) true)).
Proof.
  intros (Hb & Hh & Hv & Hv2). unfold ladderStep.
  apply Qle_bool_false_iff in Hb. rewrite Hb, Hh, Hv.
  destruct (5 <=? ls_consecutiveVGood st)%nat eqn:E5.
  - apply Nat.leb_le in E5. rewrite (Hv2 E5).
    destruct (ls_allowedGapUsed st) eqn:Eg; cbn [negb].
    + left. apply terminalStep_TerminalExit.
    + right. split; reflexivity.
  - left. apply terminalStep_TerminalExit.
Qed.

Lemma ladderLoop_bothFail (fuel : nat) (steps : nat) (st : LadderState) :
  BothCuesFail pre dy snapWin opts st ->
  exists out reason,
    fst (ladderLoop trim fuel pre win dy snapWin opts steps st) = Returned (out, reason)
    /\ TerminalExit pre win dy st out.
Proof.
  intro Hf. destruct fuel as [| k].
  { do 2 eexists. split; [reflexivity | now left]. }
  cbn [ladderLoop].
  destruct (ladderStep_bothFail st Hf) as [(out & reason & -> & Hout) | [Hg ->]].
  { exists out, reason. split; [reflexivity | exact Hout]. }
  set (st1 := mkLadderState (ls_out st) (ls_prev st) (ls_consecutiveVGood st) true).
  assert (Hf1 : BothCuesFail pre dy snapWin opts st1) by exact Hf.
  destruct k as [| k'].
  { do 2 eexists. split; [reflexivity | now left]. }
  cbn [ladderLoop].
  destruct (ladderStep_bothFail st1 Hf1) as [(out & reason & -> & Hout) | [Hg1 _]].
  - exists out, reason. split; [reflexivity | exact Hout].
  - discriminate Hg1.
Qed.

End LadderStops.

(** ** Raw ticks lie below the top pad *)

Section RawTicks.

Variable pre : Pre.
Variable x0 x1 h : Z.

Lemma tickScanStep_inv (st : TickScan) (y : Z) :
  6 <= y < h - 6 -> scanInv h st -> scanInv h (tickScanStep pre x0 x1 st y).
Proof.
  intros Hy [Ht Hr]. unfold tickScanStep.
  destruct (Qlt_bool _ _), (ts_inBlack st) eqn:Eb; cbn [andb negb].
  - split; [exact Ht | now rewrite Eb].
  - split; [exact Ht | intros _; exact Hy].
  - split; [| discriminate]. cbn [ts_ticks].
    destruct (2 <=? y - ts_runStart st); [| exact Ht].
    apply Forall_app. split; [exact Ht |]. constructor; [| constructor].
    specialize (Hr eq_refl). apply Z.div_le_lower_bound; lia.
  - split; [exact Ht | now rewrite Eb].
Qed.

Lemma tickScan_fold_inv (ys : list Z) : forall st,
  Forall (fun y => 6 <= y < h - 6) ys -> scanInv h st ->
  scanInv h (fold_left (tickScanStep pre x0 x1) ys st).
Proof.
  induction ys as [| y ys IH]; intros st Hys Hst; [exact Hst |].
  inversion Hys as [| ? ? Hy Hys']; subst. simpl.
  apply IH; [exact Hys' |]. apply tickScanStep_inv; assumption.
Qed.

End RawTicks.

Lemma dedupe_fold_subset (ticks : list Z) : forall out t,
  In t (fold_left dedupeStep ticks out) -> In t out \/ In t ticks.
Proof.
  induction ticks as [| y ys IH]; intros out t H; [now left |].
  simpl in H. destruct (IH _ _ H) as [H1 | H1]; [| right; now right].
  unfold dedupeStep in H1.
  destruct (rev out) as [| l r].
  - apply in_app_or in H1. destruct H1 as [H1 | [<- | []]]; [now left | right; now left].
  - destruct (10 <? Z.abs (y - l)); [| now left].
    apply in_app_or in H1. destruct H1 as [H1 | [<- | []]]; [now left | right; now left].
Qed.

Lemma detect_ticks_ge_pad (pre : Pre) (lane : LaneFrac) (t : Z) :
  In t (detectTimeTicksFromLeftLane pre lane) -> 6 <= t.
Proof.
  unfold detectTimeTicksFromLeftLane. intro H.
  apply dedupe_fold_subset in H. destruct H as [[] | H].
  match type of H with context [fold_left (tickScanStep pre ?a ?b) ?ys ?st0] =>
    pose proof (tickScan_fold_inv pre a b (pre_h pre) ys st0) as Hinv end.
  destruct Hinv as [Ht Hr].
  { apply Forall_forall. intros y Hy. apply range_In in Hy. lia. }
  { split; [constructor | discriminate]. }
  rewrite Forall_forall in Ht.
  match type of H with context [if ts_inBlack ?st then _ else _] =>
    destruct (ts_inBlack st) eqn:Eb end; [| exact (Ht _ H)].
  match type of H with context [if ?c then _ else _] => destruct c end;
    [| exact (Ht _ H)].
  apply in_app_or in H. destruct H as [H | [<- | []]]; [exact (Ht _ H) |].
  specialize (Hr eq_refl). apply Z.div_le_lower_bound; lia.
Qed.

(** ** A successful validation *)

Lemma medianDy_half (raw : list Z) (dy : Q) :
  medianDy raw = Some dy -> HalfIntegral dy.
Proof.
  unfold medianDy, medianOfSorted.
  destruct (sortAsc (positiveDiffs raw)) as [| a l]; [discriminate |].
  destruct (Nat.odd _); intros [= <-].
  - match goal with |- HalfIntegral (inject_Z ?x) => exists (2 * x) end.
    rewrite half_inject. push_inj. field.
  - match goal with |- HalfIntegral ((inject_Z ?x + inject_Z ?y) / 2) =>
      exists (x + y) end.
    rewrite half_inject. push_inj. field.
Qed.

Lemma validate_ok_inv (raw : list Z) (v : TickValidation) :
  validateTicksFromFirst raw = Some v -> tv_ok v = true ->
  exists dy c rest,
    tv_dy v = Some dy /\ medianDy raw = Some dy /\ (10 <= dy <= 90)%Q /\
    tv_ticks v = nthZ raw c :: rest /\ (c < length raw)%nat /\ (2 <= length raw)%nat.
Proof.
  intros Hv Hok.
  destruct (validateTicksFromFirst_outcome raw) as (r & Hr & Hfail & Hsucc).
  rewrite Hv in Hr. injection Hr as <-.
  assert (Hlen : (2 <= length raw)%nat).
  { destruct (Nat.lt_ge_cases (length raw) 2) as [L | L]; [| exact L].
    rewrite (proj2 Hfail (or_introl L)) in Hok. discriminate. }
  destruct (dyInRange (medianDy raw)) eqn:Er.
  - apply dyInRange_iff in Er. destruct Er as (dy & Hm & Hrange).
    destruct (Hsucc dy Hlen Hm Hrange) as (Hdy & (c & Hc & rest & Hticks & _) & _).
    exists dy, c, rest. repeat split; try assumption; try apply Hrange.
    destruct Hc as [(_ & Hl & _) | [-> _]]; lia.
  - exfalso. rewrite (proj2 Hfail) in Hok; [discriminate |].
    right. left. intro Hp. apply dyInRange_iff in Hp. congruence.
Qed.

(** ** Unfolding a successful nav build *)

Section NavInversion.

Variable trim : option TrimFunction.
Variable rand : nat -> Q.
Variable now : Z.

Lemma computeFrozenNav_inv (pre : Pre) (win : Window) (n : nat)
    (nav : Nav) (win' : Window) (n' : nat) :
  computeFrozenNavFromPre trim rand now (Some pre) win n = (Returned (Some nav), win', n') ->
  exists v dy g,
    validateTicksFromFirst (navRawTicks pre) = Some v /\ tv_ok v = true /\
    tv_dy v = Some dy /\
    let divRes := findDayDividers pre (tv_ticks v) in
    dv_ok divRes = true /\ length (dv_xs divRes) = 6%nat /\
    let fr := freezeDayRegionsFromDividers true (dv_xs divRes) in
    fr_ok fr = true /\ length (fr_xs fr) = 6%nat /\
    buildGlobalTickLadder trim pre (navWindow pre win) (tv_ticks v) dy
      (mkLadderOpts (fr_xs fr) (Some (fr_regions fr)) None) = Returned g /\
    lr_ok g = true /\
    let bands := buildSlotBandsFromTicks pre (lr_ticks g) (navLane pre) in
    (1 <= length bands)%nat /\
    exists bg,
      calibrateBackground rand pre (fr_regions fr) bands n = (Some bg, n') /\
      nav = mkNav (Some (fr_regions fr)) (Some bands) (lr_ticks g) (Some bg)
                  (Some "8:00 AM"%string)
                  (mkPreMeta (pre_w pre) (pre_h pre)
                             (if pre_ts pre =? 0 then now else pre_ts pre))
                  (navLane pre) (Some (fr_xs fr)) /\
      win' = navWindow pre win.
Proof.
  unfold computeFrozenNavFromPre. fold (navLane pre). fold (navRawTicks pre).
  fold (navWindow pre win).
  destruct (length (navRawTicks pre) <? 2)%nat; [discriminate |].
  destruct (validateTicksFromFirst (navRawTicks pre)) as [v |]; [| discriminate].
  destruct (tv_ok v) eqn:Eok; cbn [negb orb]; [| discriminate].
  destruct (length (tv_ticks v) <? 2)%nat; [discriminate |].
  destruct (tv_dy v) as [dy |] eqn:Edy; [| discriminate].
  destruct (dv_ok (findDayDividers pre (tv_ticks v))) eqn:Edv; cbn [negb orb];
    [| discriminate].
  destruct (length (dv_xs (findDayDividers pre (tv_ticks v))) <? 6)%nat eqn:E6;
    [discriminate |].
  apply Nat.ltb_ge in E6.
  assert (Hlen6 : length (dv_xs (findDayDividers pre (tv_ticks v))) = 6%nat).
  { revert Edv. unfold findDayDividers.
    repeat match goal with
           | |- context [match ?x with _ => _ end] => destruct x; cbn [dv_ok dv_xs]
           | |- context [if ?c then _ else _] => destruct c; cbn [dv_ok dv_xs]
           end; try discriminate.
    intro H. apply Nat.eqb_eq in H. exact H. }
  rewrite Hlen6. cbn [Nat.eqb].
  destruct (fr_ok _) eqn:Efr; cbn [negb orb]; [| discriminate].
  destruct (length (fr_xs _) =? 6)%nat eqn:Ex; cbn [negb]; [| discriminate].
  apply Nat.eqb_eq in Ex.
  destruct (buildGlobalTickLadder _ _ _ _ _ _) as [g | message] eqn:El; [| discriminate].
  destruct (lr_ok g) eqn:Eg; cbn [negb orb]; [| discriminate].
  destruct (length (lr_ticks g) <? 2)%nat; [discriminate |].
  destruct (length (buildSlotBandsFromTicks _ _ _) <? 1)%nat eqn:Eb; [discriminate |].
  apply Nat.ltb_ge in Eb.
  destruct (calibrateBackground _ _ _ _ _) as [[bg |] n1] eqn:Ec; [| discriminate].
  intros [= <- <- <-].
  exists v, dy, g. repeat split; try assumption.
  exists bg. repeat split; assumption.
Qed.

End NavInversion.

(** ** The tick ladder of a built nav *)

(** C7, as amended: in every nav the builder returns, the median spacing dy
    of the raw ticks is a multiple of one half in [10, 90], ticksForMap is
    strictly increasing, every gap is within dy of the terminal window
    clamp(round(0.7 dy), 10, 28) plus one half, and every gap but the last
    is within dy of the snap window clamp(round(0.12 dy), 4, 18) plus one
    half. *)
Theorem nav_ticks_ladder_invariant
    (trim : option TrimFunction) (rand : nat -> Q)
    (now : Z) (pre : Pre) (win : Window) (n : nat) (nav : Nav) (win' : Window) (n' : nat) :
  computeFrozenNavFromPre trim rand now (Some pre) win n = (Returned (Some nav), win', n') ->
  exists dy,
    medianDy (navRawTicks pre) = Some dy /\ (10 <= dy <= 90)%Q /\ HalfIntegral dy /\
    LadderTicksOk dy (ticksForMap nav).
Proof.
  intro H. apply computeFrozenNav_inv in H.
  destruct H as (v & dy & g & Hv & Hok & Hdy & _ & _ & _ & _ & Hg & _ & _ & bg & _ & -> & _).
  destruct (validate_ok_inv _ _ Hv Hok) as (dy' & c & rest & Hdy' & Hm & Hr & Ht & Hc & _).
  rewrite Hdy in Hdy'. injection Hdy' as <-.
  exists dy. split; [exact Hm |]. split; [exact Hr |].
  pose proof (medianDy_half _ _ Hm) as Hhalf. split; [exact Hhalf |].
  destruct Hhalf as (d2 & Hd2). cbn [ticksForMap].
  match type of Hg with buildGlobalTickLadder _ _ ?w ?t _ ?o = _ =>
    assert (Hl : match buildGlobalTickLadder trim pre w t dy o with
                 | Returned g0 => LadderTicksOk dy (lr_ticks g0)
                 | Thrown _ => True
                 end); [| rewrite Hg in Hl; exact Hl] end.
  apply (buildGlobalTickLadder_ok trim pre _ dy d2 _ Hd2).
  - destruct Hr as [A B]. rewrite Hd2 in A, B.
    assert (HA : 2 * 10 <= d2) by (apply half_le_Z; exact A).
    assert (HB : d2 <= 2 * 90) by (apply half_ge_Z; exact B).
    lia.
  - rewrite Ht. cbn [nthZ nth].
    assert (Hin : In (nthZ (navRawTicks pre) c) (navRawTicks pre)).
    { unfold nthZ. apply nth_In. exact Hc. }
    pose proof (detect_ticks_ge_pad pre (navLane pre) _ Hin) as Hpad. lia.
Qed.

(** ** The divider search *)

Lemma Qfloor_plus_Z (q : Q) (z : Z) : Qfloor (q + inject_Z z) = Qfloor q + z.
Proof.
  pose proof (Qfloor_le q) as A. pose proof (Qlt_floor q) as B.
  pose proof (Qfloor_le (q + inject_Z z)) as C. pose proof (Qlt_floor (q + inject_Z z)) as D.
  rewrite inject_Z_plus in B, D. change (inject_Z 1) with 1%Q in B, D.
  assert (H1 : Qfloor (q + inject_Z z) < Qfloor q + z + 1).
  { apply Q_Zlt. push_inj. lra. }
  assert (H2 : Qfloor q + z < Qfloor (q + inject_Z z) + 1).
  { apply Q_Zlt. push_inj. lra. }
  lia.
Qed.

Lemma scoreVLineAtX_x (pre : Pre) (x yc : Z) (s : VLine) :
  scoreVLineAtX pre x yc = Some s -> vl_x s = x.
Proof.
  unfold scoreVLineAtX. destruct (_ =? 0); [discriminate |]. now intros [= <-].
Qed.

Lemma dividerCandidate_props (pre : Pre) (yc x : Z) (c : VLine) :
  dividerCandidate pre yc x = Some c ->
  vl_x c = x /\ (18 # 100 <= vl_nonWhiteFrac c)%Q /\
  vl_score c = vlineScore (vl_nonWhiteFrac c) (vl_darkFrac c).
Proof.
  unfold dividerCandidate. destruct (_ || _); [discriminate |].
  destruct (scoreVLineAtX pre x yc) as [s |] eqn:Es; [| discriminate].
  destruct (Qlt_bool _ _) eqn:El; [discriminate |]. intros [= <-].
  apply Qlt_bool_false_iff in El. apply scoreVLineAtX_x in Es.
  unfold withScore. cbn [vl_x vl_nonWhiteFrac vl_darkFrac vl_score]. auto.
Qed.

Lemma dividerSearchStep_cand (pre : Pre) (yc : Z) (g : Q) (best : option VLine) (dx : Z) :
  dividerSearchStep pre yc g best dx =
  match dividerCandidate pre yc (Qfloor g + dx) with
  | None => best
  | Some c =>
      match best with
      | None => Some c
      | Some b => if Qlt_bool (vl_score b) (vl_score c) then Some c else best
      end
  end.
Proof.
  unfold dividerSearchStep, dividerCandidate. rewrite Qfloor_plus_Z.
  destruct (_ || _); [reflexivity |].
  destruct (scoreVLineAtX _ _ _) as [s |]; [| reflexivity].
  destruct (Qlt_bool (vl_nonWhiteFrac s) _); reflexivity.
Qed.

Section DividerSearch.

Variable pre : Pre.
Variable yc : Z.
Variable g : Q.

Lemma searchStep_inv (lo d : Z) (best : option VLine) :
  lo <= d -> searchInv pre yc g lo d best ->
  searchInv pre yc g lo (d + 1) (dividerSearchStep pre yc g best d).
Proof.
  intros Hlo Hinv. rewrite dividerSearchStep_cand.
  destruct (dividerCandidate pre yc (Qfloor g + d)) as [c |] eqn:Ec.
  - destruct (dividerCandidate_props _ _ _ _ Ec) as (Hx & Hnw & Hsc).
    destruct best as [b |]; simpl in Hinv.
    + destruct Hinv as (Hr & Hb & Hbn & Hbs & Hmax).
      destruct (Qlt_bool (vl_score b) (vl_score c)) eqn:El.
      * apply Qlt_bool_iff in El. simpl. unfold BestDivider.
        rewrite Hx. split; [lia |]. split; [exact Ec |]. split; [exact Hnw |].
        split; [exact Hsc |]. intros x c' Hxr Hc'.
        destruct (Z.eq_dec x (Qfloor g + d)) as [-> | Hne].
        -- rewrite Ec in Hc'. injection Hc' as <-. split; [lra | lia].
        -- destruct (Hmax x c') as [Hm _]; [lia | exact Hc' |].
           split; [lra | intro; lra].
      * apply Qlt_bool_false_iff in El. simpl. unfold BestDivider.
        split; [lia |]. split; [exact Hb |]. split; [exact Hbn |].
        split; [exact Hbs |]. intros x c' Hxr Hc'.
        destruct (Z.eq_dec x (Qfloor g + d)) as [-> | Hne].
        -- rewrite Ec in Hc'. injection Hc' as <-. split; [exact El | lia].
        -- apply Hmax; [lia | exact Hc'].
    + simpl. unfold BestDivider. rewrite Hx.
      split; [lia |]. split; [exact Ec |]. split; [exact Hnw |].
      split; [exact Hsc |]. intros x c' Hxr Hc'.
      destruct (Z.eq_dec x (Qfloor g + d)) as [-> | Hne].
      * rewrite Ec in Hc'. injection Hc' as <-. split; [lra | lia].
      * rewrite (Hinv x) in Hc' by lia. discriminate.
  - destruct best as [b |]; simpl in *.
    + destruct Hinv as (Hr & Hb & Hbn & Hbs & Hmax). unfold BestDivider.
      split; [lia |]. split; [exact Hb |]. split; [exact Hbn |].
      split; [exact Hbs |]. intros x c' Hxr Hc'.
      destruct (Z.eq_dec x (Qfloor g + d)) as [-> | Hne]; [congruence |].
      apply Hmax; [lia | exact Hc'].
    + intros x Hxr. destruct (Z.eq_dec x (Qfloor g + d)) as [-> | Hne]; [exact Ec |].
      apply Hinv. lia.
Qed.

Lemma search_fold_inv (n : nat) : forall lo d best,
  lo <= d -> searchInv pre yc g lo d best ->
  searchInv pre yc g lo (d + Z.of_nat n) (fold_left (dividerSearchStep pre yc g) (zseqStep d 1 n) best).
Proof.
  induction n as [| n IH]; intros lo d best Hlo Hinv.
  - simpl. now rewrite Z.add_0_r.
  - cbn [zseqStep fold_left].
    replace (d + Z.of_nat (S n)) with ((d + 1) + Z.of_nat n) by lia.
    apply IH; [lia |]. apply searchStep_inv; assumption.
Qed.

Lemma searchOffsets : rangeStep (-40) 40 1 = zseqStep (-40) 1 81.
Proof. vm_compute. reflexivity. Qed.

Lemma findBestDividerNearX_spec :
  match findBestDividerNearX pre yc g with
  | Some b => BestDivider pre yc (Qfloor g - 40) (Qfloor g + 40) b
  | None => NoDivider pre yc (Qfloor g - 40) (Qfloor g + 40)
  end.
Proof.
  unfold findBestDividerNearX. rewrite searchOffsets.
  generalize (search_fold_inv 81 (-40) (-40) None ltac:(lia)).
  generalize (fold_left (dividerSearchStep pre yc g) (zseqStep (-40) 1 81) None).
  intros r H. unfold searchInv in H.
  replace (Qfloor g + (-40 + Z.of_nat 81) - 1) with (Qfloor g + 40) in H by lia.
  replace (Qfloor g + -40) with (Qfloor g - 40) in H by lia.
  apply H. intros x Hx. lia.
Qed.

End DividerSearch.

(** Shifting the window to the right cannot move the best divider to the
    left. *)
Lemma BestDivider_mono (pre : Pre) (yc : Z) (lo1 hi1 lo2 hi2 : Z) (b1 b2 : VLine) :
  lo1 <= lo2 -> hi1 <= hi2 ->
  BestDivider pre yc lo1 hi1 b1 -> BestDivider pre yc lo2 hi2 b2 ->
  vl_x b1 <= vl_x b2.
Proof.
  intros Hlo Hhi (R1 & C1 & _ & _ & M1) (R2 & C2 & _ & _ & M2).
  destruct (Z.le_gt_cases (vl_x b1) (vl_x b2)) as [L | L]; [exact L |].
  destruct (M1 (vl_x b2) b2) as [A1 B1]; [lia | exact C2 |].
  destruct (M2 (vl_x b1) b1) as [A2 B2]; [lia | exact C1 |].
  specialize (B1 A2). lia.
Qed.

(** ** Sorting a sorted list *)

Lemma insertAsc_least (x : Z) (l : list Z) :
  StronglySorted Z.le (x :: l) -> insertAsc x l = x :: l.
Proof.
  revert x. induction l as [| y t IH]; intros x H; [reflexivity |].
  cbn [insertAsc]. inversion H as [| ? ? Hs Hall]; subst.
  inversion Hall as [| ? ? Hxy Hall']; subst.
  destruct (x <? y) eqn:E; [reflexivity |].
  apply Z.ltb_ge in E. assert (x = y) by lia. subst y.
  f_equal. apply IH. exact Hs.
Qed.

Lemma sortAsc_sorted (l : list Z) : Sorted Z.le l -> sortAsc l = l.
Proof.
  intro H. apply Sorted_StronglySorted in H; [| intros a b c; lia].
  induction H as [| x t Hs IH Hall]; [reflexivity |].
  cbn [sortAsc]. rewrite IH. apply insertAsc_least. now constructor.
Qed.

(** ** The six dividers *)

Lemma walkDividers_cons (pre : Pre) (yc leftX : Z) (step : Q) (i : nat)
    (rest : list nat) (divs : list VLine) :
  walkDividers pre yc leftX step (i :: rest) divs =
  match findBestDividerNearX pre yc (inject_Z leftX + step * inject_Z (Z.of_nat i)) with
  | None => inr i
  | Some best => walkDividers pre yc leftX step rest (divs ++ [best])
  end.
Proof. reflexivity. Qed.

Lemma walkDividers_inl (pre : Pre) (yc leftX : Z) (step : Q) (idxs : list nat) :
  forall divs out,
  walkDividers pre yc leftX step idxs divs = inl out ->
  exists bests,
    out = divs ++ bests /\
    Forall2 (fun i b =>
               findBestDividerNearX pre yc
                 (inject_Z leftX + step * inject_Z (Z.of_nat i)) = Some b)
            idxs bests.
Proof.
  induction idxs as [| i rest IH]; intros divs out.
  - intros [= <-]. exists []. split; [now rewrite app_nil_r | constructor].
  - rewrite walkDividers_cons.
    destruct (findBestDividerNearX pre yc
                (inject_Z leftX + step * inject_Z (Z.of_nat i))) as [b |] eqn:Eb;
      intro H; [| discriminate].
    destruct (IH _ _ H) as (bests & -> & Hall).
    exists (b :: bests). split; [now rewrite <- app_assoc |].
    constructor; [exact Eb | exact Hall].
Qed.

Lemma walkDividers_inr (pre : Pre) (yc leftX : Z) (step : Q) (idxs : list nat) :
  forall divs i,
  walkDividers pre yc leftX step idxs divs = inr i ->
  In i idxs /\
  findBestDividerNearX pre yc (inject_Z leftX + step * inject_Z (Z.of_nat i)) = None.
Proof.
  induction idxs as [| j rest IH]; intros divs i; [discriminate |].
  rewrite walkDividers_cons.
  destruct (findBestDividerNearX pre yc
              (inject_Z leftX + step * inject_Z (Z.of_nat j))) as [b |] eqn:Eb; intro H.
  - destruct (IH _ _ H) as [Hin Hn]. split; [now right | exact Hn].
  - injection H as <-. split; [now left | exact Eb].
Qed.

Lemma dividerGuess_mono (leftX rightX : Z) (i : nat) :
  leftX <= rightX ->
  Qfloor (dividerGuess leftX rightX i) <= Qfloor (dividerGuess leftX rightX (S i)).
Proof.
  intro H. apply Qfloor_resp_le. unfold dividerGuess.
  rewrite Nat2Z.inj_succ. unfold Z.succ. rewrite (inject_Z_plus (Z.of_nat i) 1).
  change (inject_Z 1) with 1%Q.
  assert (H0 : (0 <= inject_Z (rightX - leftX))%Q).
  { change 0%Q with (inject_Z 0). apply Zle_Q. lia. }
  set (sp := inject_Z (rightX - leftX)) in *.
  assert (H1 : (0 <= sp / 5)%Q).
  { apply Qle_shift_div_l; [reflexivity | lra]. }
  set (st := (sp / 5)%Q) in *. nra.
Qed.

Lemma best_at (pre : Pre) (yc leftX rightX : Z) (i : nat) (b : VLine) :
  findBestDividerNearX pre yc
    (inject_Z leftX + inject_Z (rightX - leftX) / 5 * inject_Z (Z.of_nat i)) = Some b ->
  DividerAt pre yc leftX rightX i b.
Proof.
  intro H. unfold DividerAt, dividerGuess.
  pose proof (findBestDividerNearX_spec pre yc
    (inject_Z leftX + inject_Z (rightX - leftX) / 5 * inject_Z (Z.of_nat i))) as S.
  rewrite H in S. exact S.
Qed.

Lemma none_at (pre : Pre) (yc leftX rightX : Z) (i : nat) :
  findBestDividerNearX pre yc
    (inject_Z leftX + inject_Z (rightX - leftX) / 5 * inject_Z (Z.of_nat i)) = None ->
  NoDividerAt pre yc leftX rightX i.
Proof.
  intro H. unfold NoDividerAt, dividerGuess.
  pose proof (findBestDividerNearX_spec pre yc
    (inject_Z leftX + inject_Z (rightX - leftX) / 5 * inject_Z (Z.of_nat i))) as S.
  rewrite H in S. exact S.
Qed.

(** The score is a sum of doubles: of two stripes whose exact scores are
    both 0.2, the one that is 29/150 non-white and 4/150 dark scores less
    than the one that is 30/150 non-white. *)
Lemma vlineScore_is_rounded :
  ((29 # 150) + (4 # 150) * (25 # 100) == (30 # 150) + 0 * (25 # 100))%Q /\
  (vlineScore (29 # 150) (4 # 150) < vlineScore (30 # 150) 0)%Q.
Proof. split; [reflexivity | vm_compute; reflexivity]. Qed.

(** C8, as amended: findDayDividers either fails with no positions, the
    anchors missing or too close or some of the six expected positions
    without a candidate within 40 columns, or returns exactly 6 sorted
    positions.  Each of the six evenly spaced expected positions, the
    anchors' own included, is searched at every column within 40 of it; a
    column is a candidate only if its stripe is at least 0.18 non-white,
    and the position returned is the leftmost candidate of the highest
    score, the score being the double nonWhiteFrac + 0.25 darkFrac as the
    code computes it.  The five regions frozen from the positions are the
    intervals between neighbours, Monday to Friday. *)
Theorem findDayDividers_spec (pre : Pre) (vTicks : list Z) :
  let r := findDayDividers pre vTicks in
  let yc := pickDayBandY pre vTicks in
  (dv_ok r = false /\ dv_xs r = [] /\
   (AnchorsMissing pre yc \/
    exists leftX rightX i,
      AnchorsFound pre yc leftX rightX /\ (i < 6)%nat /\
      NoDividerAt pre yc leftX rightX i))
  \/
  (dv_ok r = true /\ length (dv_xs r) = 6%nat /\ Sorted Z.le (dv_xs r) /\
   (exists leftX rightX,
      AnchorsFound pre yc leftX rightX /\
      forall i, (i < 6)%nat ->
        exists b, DividerAt pre yc leftX rightX i b /\ nthZ (dv_xs r) i = vl_x b) /\
   freezeDayRegionsFromDividers true (dv_xs r)
   = mkFreezeResult true "ok" (regionsBetween (dv_xs r)) (dv_xs r)).
Proof.
  cbv zeta. unfold findDayDividers.
  fold (leftAnchor pre (pickDayBandY pre vTicks)).
  fold (rightAnchor pre (pickDayBandY pre vTicks)).
  set (yc := pickDayBandY pre vTicks).
  destruct (leftAnchor pre yc) as [a |] eqn:Ea.
  2:{ left. cbn [dv_ok dv_xs]. split; [reflexivity |]. split; [reflexivity |].
      left. left. exact Ea. }
  destruct (rightAnchor pre yc) as [b |] eqn:Eb.
  2:{ left. cbn [dv_ok dv_xs]. split; [reflexivity |]. split; [reflexivity |].
      left. right. exists a. split; [exact Ea | left; exact Eb]. }
  destruct (vl_x b <=? vl_x a + 50) eqn:E50.
  { apply Z.leb_le in E50. left. cbn [dv_ok dv_xs].
    split; [reflexivity |]. split; [reflexivity |].
    left. right. exists a. split; [exact Ea |]. right. exists b. split; [exact Eb | exact E50]. }
  apply Z.leb_gt in E50.
  assert (Hanch : AnchorsFound pre yc (vl_x a) (vl_x b)).
  { exists a, b. split; [exact Ea |]. split; [exact Eb |]. repeat split. lia. }
  destruct (walkDividers _ _ _ _ _ _) as [divs | i] eqn:Ew.
  - right. apply walkDividers_inl in Ew. destruct Ew as (bests & -> & Hall).
    cbn [app dv_ok dv_xs].
    change (seq 0 6) with [0; 1; 2; 3; 4; 5]%nat in Hall.
    inversion Hall as [| ? b0 ? l0 H0 Hall0]; subst.
    inversion Hall0 as [| ? b1 ? l1 H1 Hall1]; subst.
    inversion Hall1 as [| ? b2 ? l2 H2 Hall2]; subst.
    inversion Hall2 as [| ? b3 ? l3 H3 Hall3]; subst.
    inversion Hall3 as [| ? b4 ? l4 H4 Hall4]; subst.
    inversion Hall4 as [| ? b5 ? l5 H5 Hall5]; subst.
    inversion Hall5; subst. clear Hall Hall0 Hall1 Hall2 Hall3 Hall4 Hall5.
    apply best_at in H0, H1, H2, H3, H4, H5.
    pose proof H0 as S0. pose proof H1 as S1. pose proof H2 as S2.
    pose proof H3 as S3. pose proof H4 as S4. pose proof H5 as S5.
    unfold DividerAt in S0, S1, S2, S3, S4, S5.
    assert (Hle : vl_x a <= vl_x b) by lia.
    pose proof (dividerGuess_mono (vl_x a) (vl_x b) 0 Hle) as G0.
    pose proof (dividerGuess_mono (vl_x a) (vl_x b) 1 Hle) as G1.
    pose proof (dividerGuess_mono (vl_x a) (vl_x b) 2 Hle) as G2.
    pose proof (dividerGuess_mono (vl_x a) (vl_x b) 3 Hle) as G3.
    pose proof (dividerGuess_mono (vl_x a) (vl_x b) 4 Hle) as G4.
    assert (M0 : vl_x b0 <= vl_x b1)
      by (eapply BestDivider_mono; [| | exact S0 | exact S1]; lia).
    assert (M1 : vl_x b1 <= vl_x b2)
      by (eapply BestDivider_mono; [| | exact S1 | exact S2]; lia).
    assert (M2 : vl_x b2 <= vl_x b3)
      by (eapply BestDivider_mono; [| | exact S2 | exact S3]; lia).
    assert (M3 : vl_x b3 <= vl_x b4)
      by (eapply BestDivider_mono; [| | exact S3 | exact S4]; lia).
    assert (M4 : vl_x b4 <= vl_x b5)
      by (eapply BestDivider_mono; [| | exact S4 | exact S5]; lia).
    assert (Hsorted : Sorted Z.le (map vl_x [b0; b1; b2; b3; b4; b5])).
    { cbn [map]. repeat (constructor; try assumption). }
    split; [reflexivity |]. split; [reflexivity |]. split; [exact Hsorted |]. split.
    + exists (vl_x a), (vl_x b). split; [exact Hanch |].
      intros i Hi.
      destruct i as [| [| [| [| [| [| i]]]]]]; [| | | | | | lia];
        eexists; (split; [eassumption | reflexivity]).
    + unfold freezeDayRegionsFromDividers. cbn [negb].
      rewrite (sortAsc_sorted _ Hsorted). reflexivity.
  - left. apply walkDividers_inr in Ew. destruct Ew as [Hin Hn].
    cbn [dv_ok dv_xs]. split; [reflexivity |]. split; [reflexivity |].
    right. exists (vl_x a), (vl_x b), i. split; [exact Hanch |].
    split; [apply in_seq in Hin; lia |].
    apply none_at. exact Hn.
Qed.

(** ** The stopping rule of the ladder, assembled *)

(** C9: the loop of buildGlobalTickLadder runs at most 120 rounds, also
    when it ends on an exception; a round whose expected position has
    reached the image bottom less 2 pixels stops the loop; and from a state
    at which both the horizontal peak and the vertical structure fail, the
    loop ends, without an exception, with the ticks of that state and at
    most one more tick, which the lane search found within the widened
    window clamp(round(0.7 dy), 10, 28) of the expected position. *)
Theorem ladder_stopping_rule
    (trim : option TrimFunction)
    (pre : Pre) (win : Window) (dy : Q) (snapWin : Z) (opts : LadderOpts) :
  (forall st,
     (snd (ladderLoop trim maxSteps pre win dy snapWin opts 0 st) <= 120)%nat) /\
  (forall st,
     (inject_Z (pre_h pre - 2) <= ls_prev st + dy)%Q ->
     ladderStep trim pre win dy snapWin opts st = Break (ls_out st) "hit image bottom") /\
  (forall fuel steps st,
     BothCuesFail pre dy snapWin opts st ->
     exists out reason,
       fst (ladderLoop trim fuel pre win dy snapWin opts steps st) = Returned (out, reason)
       /\ TerminalExit pre win dy st out) /\
  snapWinTermOf dy = clamp (round (dy * (7 # 10))) 10 28 /\
  10 <= snapWinTermOf dy <= 28.
Proof.
  split; [| split; [| split; [| split]]].
  - intro st. apply (ladderLoop_steps trim pre win dy snapWin opts maxSteps 0 st).
  - intros st H. now apply ladderStep_bottom.
  - intros fuel steps st H. now apply ladderLoop_bothFail.
  - reflexivity.
  - unfold snapWinTermOf. apply clamp_bounds. lia.
Qed.

(** ** Counting the samples *)

Lemma samplesOf_length rand pre rc (count : nat) : forall n,
  length (samplesOf rand pre rc count n) = count.
Proof. induction count as [| k IH]; intro n; simpl; [reflexivity | now rewrite IH]. Qed.

Lemma countIf_cons (f : Pixel -> bool) (p : Pixel) (l : list Pixel) :
  countIf f (p :: l) = (if f p then 1 else 0) + countIf f l.
Proof. unfold countIf. simpl. destruct (f p); simpl length; lia. Qed.

Lemma countIf_bounds (f : Pixel -> bool) (l : list Pixel) :
  0 <= countIf f l <= Z.of_nat (length l).
Proof.
  unfold countIf. pose proof (filter_length_le f l). lia.
Qed.

Lemma purpleLoop_spec rand pre rc (count : nat) : forall n c,
  purpleLoop rand pre rc count n c
  = (c + countIf isPurpleMatch (samplesOf rand pre rc count n), (n + 2 * count)%nat).
Proof.
  induction count as [| k IH]; intros n c.
  - simpl. unfold countIf. simpl. f_equal; lia.
  - cbn [purpleLoop samplesOf]. rewrite IH, countIf_cons.
    destruct (isPurpleMatch _); f_equal; lia.
Qed.

Lemma classifyLoop_spec rand pre rc bg (count : nat) : forall n c,
  classifyLoop rand pre rc bg count n c
  = (let px := samplesOf rand pre rc count n in
     mkCounts (bgCount c + countIf (fun p => isBgMatch p bg) px)
              (nonWhiteCount c + countIf isNonWhite px)
              (purpleCount c + countIf isPurpleMatch px)
              (occupiedCount c + countIf (isOccupied bg) px),
     (n + 2 * count)%nat).
Proof.
  induction count as [| k IH]; intros n c.
  - cbn. unfold countIf. cbn. destruct c; cbn. f_equal; try lia; f_equal; lia.
  - cbn [classifyLoop samplesOf]. rewrite IH. cbv zeta.
    cbn [bgCount nonWhiteCount purpleCount occupiedCount].
    rewrite !countIf_cons. unfold isOccupied at 2.
    destruct (isBgMatch _ bg), (isNonWhite _), (isPurpleMatch _); cbn [andb negb];
      (f_equal; try lia; f_equal; lia).
Qed.

(** ** The work marker *)

Lemma measurePurpleFrac_spec rand pre slot region n :
  measurePurpleFrac rand pre slot region n
  = (frac (countIf isPurpleMatch (samplesOf rand pre (insetRect pre slot region) 160 n)) 160,
     (n + 320)%nat).
Proof.
  unfold measurePurpleFrac. rewrite purpleLoop_spec. rewrite Z.add_0_l. reflexivity.
Qed.

Lemma classifyCell_eq rand pre bg policy region slot (n : nat) :
  classifyCell rand pre bg policy region slot n
  = (if Qle_bool (18 # 100)
          (frac (countIf isPurpleMatch
                   (samplesOf rand pre (insetRect pre slot region) 160 n)) 160)
     then (mkCellOut true true, (n + 320)%nat)
     else
       (mkCellOut false
          match fst (classifySlotSample rand pre slot region bg (n + 320)) with
          | ClassifyFail _ => false
          | ClassifyOk free0 _ _ _ _ =>
              match policy with
              | SoftFree => if negb free0 then detectGridSpill pre slot region else free0
              | SpillNone => free0
              end
          end,
        snd (classifySlotSample rand pre slot region bg (n + 320)))).
Proof.
  unfold classifyCell. rewrite measurePurpleFrac_spec.
  destruct (Qle_bool _ _); [reflexivity |].
  destruct (classifySlotSample _ _ _ _ _ _) as [base n2]. reflexivity.
Qed.

(** C1, as the code has it.  For a cell whose day region and slot band are
    proper, classifySlotSample draws 140 pixels (280 draws) from the inset
    rectangle and returns the four fractions of those pixels; free is false
    when occupiedFrac is at least 0.50, and otherwise free holds exactly
    when bgFrac is at least 0.82, or bgFrac is at least 0.55 and inkFrac at
    most 0.12.  For a day region that is empty (x1 <= x0) or a slot band
    that is empty (yEnd <= yStart) it draws nothing and returns a failure,
    and such a cell, when its purple fraction is below the work threshold,
    is stored as busy. *)
Theorem classifySlotSample_rule (rand : nat -> Q) (pre : Pre) (slot : SlotBand)
    (region : DayRegion) (bg : BackgroundColor) (n : nat) :
  let px := samplesOf rand pre (insetRect pre slot region) 140 n in
  let bgFrac := frac (countIf (fun p => isBgMatch p bg) px) 140 in
  let inkFrac := frac (countIf isNonWhite px) 140 in
  let purpleFrac := frac (countIf isPurpleMatch px) 140 in
  let occupiedFrac := frac (countIf (isOccupied bg) px) 140 in
  (dr_x0 region < dr_x1 region -> yStart slot < yEnd slot ->
   length px = 140%nat /\
   exists free,
     classifySlotSample rand pre slot region bg n
     = (ClassifyOk free bgFrac inkFrac purpleFrac occupiedFrac, (n + 280)%nat) /\
     ((50 # 100 <= occupiedFrac)%Q -> free = false) /\
     (~ (50 # 100 <= occupiedFrac)%Q ->
      (free = true <->
       (82 # 100 <= bgFrac)%Q \/ ((55 # 100 <= bgFrac)%Q /\ (inkFrac <= 12 # 100)%Q)))) /\
  (dr_x1 region <= dr_x0 region ->
   classifySlotSample rand pre slot region bg n = (ClassifyFail "bad dayRegion", n)) /\
  (dr_x0 region < dr_x1 region -> yEnd slot <= yStart slot ->
   classifySlotSample rand pre slot region bg n = (ClassifyFail "bad slotBand", n)) /\
  (forall policy m,
     dr_x1 region <= dr_x0 region \/ yEnd slot <= yStart slot ->
     Qle_bool (18 # 100) (fst (measurePurpleFrac rand pre slot region m)) = false ->
     classifyCell rand pre bg policy region slot m
     = (mkCellOut false false, (m + 320)%nat)).
Proof.
  intros px bgFrac inkFrac purpleFrac occupiedFrac.
  assert (Hbad : forall k, dr_x1 region <= dr_x0 region \/ yEnd slot <= yStart slot ->
            exists reason, classifySlotSample rand pre slot region bg k
                           = (ClassifyFail reason, k)).
  { intros k H. unfold classifySlotSample.
    destruct (dr_x1 region <=? dr_x0 region) eqn:Ex; [eexists; reflexivity |].
    destruct (yEnd slot <=? yStart slot) eqn:Ey; [eexists; reflexivity |].
    apply Z.leb_gt in Ex. apply Z.leb_gt in Ey. lia. }
  split; [| split; [| split]].
  - intros Hx Hy. split; [apply samplesOf_length |].
    unfold classifySlotSample.
    replace (dr_x1 region <=? dr_x0 region) with false by (symmetry; apply Z.leb_gt; lia).
    replace (yEnd slot <=? yStart slot) with false by (symmetry; apply Z.leb_gt; lia).
    rewrite classifyLoop_spec. cbv zeta.
    cbn [bgCount nonWhiteCount purpleCount occupiedCount]. rewrite !Z.add_0_l.
    fold px. fold bgFrac inkFrac purpleFrac occupiedFrac.
    destruct (Qle_bool (50 # 100) occupiedFrac) eqn:Eo.
    + exists false. split; [reflexivity |]. split; [reflexivity |].
      intro H. exfalso. apply H. now apply Qle_bool_iff.
    + eexists. split; [reflexivity |]. split.
      * intro H. apply Qle_bool_iff in H. congruence.
      * intros _. rewrite orb_true_iff, andb_true_iff, !Qle_bool_iff. reflexivity.
  - intro Hx. unfold classifySlotSample.
    replace (dr_x1 region <=? dr_x0 region) with true by (symmetry; apply Z.leb_le; lia).
    reflexivity.
  - intros Hx Hy. unfold classifySlotSample.
    replace (dr_x1 region <=? dr_x0 region) with false by (symmetry; apply Z.leb_gt; lia).
    replace (yEnd slot <=? yStart slot) with true by (symmetry; apply Z.leb_le; lia).
    reflexivity.
  - intros policy m Hdeg Hp. rewrite classifyCell_eq.
    rewrite measurePurpleFrac_spec in Hp. cbn [fst] in Hp. rewrite Hp.
    destruct (Hbad (m + 320)%nat Hdeg) as [reason ->]. reflexivity.
Qed.



Lemma weekday_eqb_eq (a b : Weekday) : weekday_eqb a b = true <-> a = b.
Proof. destruct a, b; cbn; split; congruence. Qed.



(** ** Ranges built from a mask *)

Section Ranges.

Import Query.

Variable maskArr : list bool.
Variables i0 anchorMin step cs ce : Z.

Lemma rangeStepFn_inv (j : Z) (st : RunState) :
  i0 <= j -> rangesInv maskArr i0 anchorMin step j st ->
  rangesInv maskArr i0 anchorMin step (j + 1)
            (rangeStepFn maskArr anchorMin step cs ce st j).
Proof.
  intros Hj [Hr Hs]. unfold rangeStepFn.
  assert (Hweak : forall r, In r (ranges st) ->
                            runOf maskArr i0 anchorMin step (j + 1) r).
  { intros r Hin. destruct (Hr r Hin) as (a & b & H1 & H2 & H3 & H4 & H5).
    exists a, b. repeat split; try assumption; lia. }
  destruct (maskAt maskArr j) eqn:Em.
  - destruct (runStartIdx st) as [a |] eqn:Ea.
    + split; [exact Hweak |]. rewrite Ea. destruct Hs as [H1 H2]. split; [lia |].
      intros k Hk. destruct (Z.eq_dec k j) as [-> | Hne]; [exact Em | apply H2; lia].
    + split; [exact Hweak |]. cbn [runStartIdx]. split; [lia |].
      intros k Hk. replace k with j by lia. exact Em.
  - destruct (runStartIdx st) as [a |] eqn:Ea.
    + destruct Hs as [H1 H2]. split; [| exact I].
      cbn [ranges]. intros r Hin.
      destruct (Z.max cs (anchorMin + a * step) <? Z.min ce (anchorMin + j * step)) eqn:El;
        [| now apply Hweak].
      apply in_app_or in Hin. destruct Hin as [Hin | [<- | []]]; [now apply Hweak |].
      exists a, j. cbn [startMin endMin]. repeat split; try lia. exact H2.
    + split; [exact Hweak |]. now rewrite Ea.
Qed.

Lemma ranges_fold_inv (n : nat) : forall j st,
  i0 <= j -> rangesInv maskArr i0 anchorMin step j st ->
  rangesInv maskArr i0 anchorMin step (j + Z.of_nat n)
            (fold_left (rangeStepFn maskArr anchorMin step cs ce) (zseq j n) st).
Proof.
  induction n as [| n IH]; intros j st Hj Hinv.
  - cbn. now rewrite Z.add_0_r.
  - cbn [zseq fold_left]. replace (j + Z.of_nat (S n)) with (j + 1 + Z.of_nat n) by lia.
    apply IH; [lia |]. now apply rangeStepFn_inv.
Qed.

(** Every range of the result comes from a run of slots that are on: it
    starts no earlier than the run, and ends no later than the run, or it
    is the trailing run and ends at the clamp. *)
Lemma buildRangesFromMask_runs (i1 : Z) (r : TimeRange) :
  In r (buildRangesFromMask maskArr i0 i1 anchorMin step cs ce) ->
  exists a b, i0 <= a /\ a < b /\ b <= i1 /\
              (forall k, a <= k < b -> maskAt maskArr k = true) /\
              anchorMin + a * step <= startMin r /\
              (endMin r <= anchorMin + b * step \/ (b = i1 /\ endMin r = ce)).
Proof.
  intros Hin. unfold buildRangesFromMask in Hin. unfold range in Hin.
  destruct (Z.le_gt_cases i0 i1) as [Hi | Hi];
    [| replace (Z.to_nat (i1 - i0)) with 0%nat in Hin by lia; destruct Hin].
  pose proof (ranges_fold_inv (Z.to_nat (i1 - i0)) i0 (mkRunState [] None)) as Hinv.
  replace (i0 + Z.of_nat (Z.to_nat (i1 - i0))) with i1 in Hinv by lia.
  specialize (Hinv (Z.le_refl _)).
  assert (H0 : rangesInv maskArr i0 anchorMin step i0 (mkRunState [] None)).
  { split; [intros ? [] | exact I]. }
  specialize (Hinv H0). cbv zeta in Hin.
  set (st := fold_left _ _ _) in *. destruct Hinv as [Hr Hs].
  assert (Hold : forall r0, In r0 (ranges st) ->
            exists a b, i0 <= a /\ a < b /\ b <= i1 /\
              (forall k, a <= k < b -> maskAt maskArr k = true) /\
              anchorMin + a * step <= startMin r0 /\
              (endMin r0 <= anchorMin + b * step \/ (b = i1 /\ endMin r0 = ce))).
  { intros r0 H. destruct (Hr r0 H) as (a & b & H1 & H2 & H3 & H4 & H5 & H6).
    exists a, b. repeat split; try assumption. now left. }
  destruct (runStartIdx st) as [a |]; [| now apply Hold].
  destruct (Z.max cs (anchorMin + a * step) <? ce) eqn:El; [| now apply Hold].
  apply in_app_or in Hin. destruct Hin as [Hin | [<- | []]]; [now apply Hold |].
  destruct Hs as [H1 H2]. exists a, i1. cbn [startMin endMin].
  split; [lia |]. split; [lia |]. split; [lia |]. split; [exact H2 |].
  split; [lia | now right].
Qed.

End Ranges.

Lemma nth_zseq (n : nat) : forall lo k, (k < n)%nat -> nth k (zseq lo n) 0 = lo + Z.of_nat k.
Proof.
  induction n as [| n IH]; intros lo k Hk; [lia |].
  destruct k as [| k]; cbn [zseq nth]; [lia |]. rewrite IH by lia. lia.
Qed.

Lemma zseq_length (n : nat) : forall lo, length (zseq lo n) = n.
Proof. induction n as [| n IH]; intro lo; cbn; [reflexivity | now rewrite IH]. Qed.

Lemma nth_map_true (f : Z -> bool) (l : list Z) : forall k,
  nth k (map f l) false = true -> (k < length l)%nat /\ f (nth k l 0) = true.
Proof.
  induction l as [| x l IH]; intros k H.
  - destruct k; discriminate.
  - destruct k as [| k]; cbn in *; [split; [lia | exact H] |].
    destruct (IH k H). split; [lia | assumption].
Qed.

Lemma derivedFreeMask_at (dayArr workArr : list bool) (slots : nat) (k : Z) :
  Query.maskAt (Query.derivedFreeMask dayArr workArr slots) k = true ->
  Query.maskAt workArr k = false.
Proof.
  unfold Query.derivedFreeMask, range. intro H.
  unfold Query.maskAt at 1 in H. destruct (k <? 0) eqn:Ek; [discriminate |].
  apply Z.ltb_ge in Ek. apply nth_map_true in H. destruct H as [Hlen H].
  rewrite zseq_length in Hlen. rewrite nth_zseq in H by lia.
  replace (0 + Z.of_nat (Z.to_nat k)) with k in H by lia.
  apply andb_true_iff in H. destruct H as [_ H]. now apply negb_true_iff in H.
Qed.

Lemma ceil_div30 (z : Z) : z <= Qceiling (inject_Z z / inject_Z 30) * 30.
Proof.
  pose proof (Qle_ceiling (inject_Z z / inject_Z 30)) as Hc.
  set (c := Qceiling _) in *. clearbody c.
  change (inject_Z z / inject_Z 30)%Q with (inject_Z z * (1 # 30))%Q in Hc.
  apply Q_Zle. push_inj. change (inject_Z 30) with 30%Q. lra.
Qed.

(** C10: when the work array of the day has the length of the day array,
    a listed record's free ranges are those of the derived mask
    days AND NOT work, its work ranges those of the work array, and no
    slot marked as work meets any free range. *)
Theorem work_slots_never_free (day : Weekday) (qStart qEnd : Z) (rec : Query.SavedRecord)
    (a : Query.SavedAvail) (dayArr workArr : list bool) (wd : list (Weekday * list bool))
    (person : string) (free work : list Query.TimeRange) :
  Query.rec_avail rec = Some a ->
  lookupDay (Query.sa_days a) day = Some dayArr ->
  Query.sa_workDays a = Some wd ->
  lookupDay wd day = Some workArr ->
  length workArr = length dayArr ->
  Query.queryRecord day qStart qEnd rec = Query.Listed person free work ->
  exists anchorMin i0 i1,
    Query.timeStrToMinutes
      (Query.firstNonEmpty (Query.sa_anchorStartTime a) (Query.rec_navAnchorStartTime rec)
                           "8:00 AM") = Some anchorMin /\
    free = Query.buildRangesFromMask
             (Query.derivedFreeMask dayArr workArr (length dayArr))
             i0 i1 anchorMin TIME_STEP_MIN qStart qEnd /\
    work = Query.buildRangesFromMask workArr i0 i1 anchorMin TIME_STEP_MIN qStart qEnd /\
    forall i r, 0 <= i < Z.of_nat (length workArr) ->
                Query.maskAt workArr i = true -> In r free -> slotOutside anchorMin i r.
Proof.
  intros Ha Hd Hw Hwd Hlen Hq. unfold Query.queryRecord in Hq.
  rewrite Ha, Hd, Hw, Hwd in Hq. cbv zeta in Hq.
  set (slots := match match Query.sa_slots a with
                      | Some s => Some s | None => Query.sa_metaSlots a end with
                | Some s => s | None => 0 end) in *.
  set (slotsFinal := if 0 <? slots then slots else Z.of_nat (length dayArr)) in *.
  destruct (Z.of_nat (length dayArr) =? slotsFinal) eqn:Es; [| discriminate].
  apply Z.eqb_eq in Es. cbn [negb] in Hq.
  destruct (Query.timeStrToMinutes _) as [anchorMin |] eqn:Et; [| discriminate].
  set (clampEnd := Z.min qEnd (anchorMin + slotsFinal * TIME_STEP_MIN)) in *.
  set (clampStart := Z.max qStart anchorMin) in *.
  destruct (clampEnd <=? clampStart) eqn:Ec; [discriminate |].
  apply Z.leb_gt in Ec.
  set (i0 := Z.max 0 ((clampStart - anchorMin) / TIME_STEP_MIN)) in *.
  set (i1 := Z.min slotsFinal
               (Qceiling (inject_Z (clampEnd - anchorMin) / inject_Z TIME_STEP_MIN))) in *.
  replace (Z.of_nat (length workArr) =? slotsFinal) with true in Hq
    by (symmetry; apply Z.eqb_eq; lia).
  replace (Z.to_nat slotsFinal) with (length dayArr) in Hq by lia.
  set (freeR := Query.buildRangesFromMask _ i0 i1 _ _ _ _) in *.
  set (workR := Query.buildRangesFromMask workArr i0 i1 _ _ _ _) in *.
  assert (Hfw : free = freeR /\ work = workR).
  { destruct freeR, workR; try discriminate; injection Hq as _ <- <-; auto. }
  destruct Hfw as [-> ->].
  exists anchorMin, i0, i1. split; [reflexivity |]. split; [reflexivity |].
  split; [reflexivity |].
  intros i r Hi Hon Hin.
  assert (Hceil : i1 = slotsFinal \/ qEnd <= anchorMin + i1 * TIME_STEP_MIN).
  { unfold i1.
    destruct (Z.min_spec slotsFinal
                (Qceiling (inject_Z (clampEnd - anchorMin) / inject_Z TIME_STEP_MIN)))
      as [[_ ->] | [Hle ->]]; [now left |].
    unfold clampEnd in *.
    destruct (Z.min_spec qEnd (anchorMin + slotsFinal * TIME_STEP_MIN))
      as [[_ Em] | [_ Em]]; rewrite Em in *.
    - right. pose proof (ceil_div30 (qEnd - anchorMin)). unfold TIME_STEP_MIN. lia.
    - left. pose proof (ceil_div30 (anchorMin + slotsFinal * TIME_STEP_MIN - anchorMin)).
      unfold TIME_STEP_MIN in *. lia. }
  destruct (buildRangesFromMask_runs
              (Query.derivedFreeMask dayArr workArr (length dayArr))
              i0 anchorMin TIME_STEP_MIN qStart qEnd i1 r Hin) as
      (x & y & H1 & H2 & H3 & H4 & H5 & H6).
  assert (Hout : i < x \/ y <= i).
  { destruct (Z.lt_ge_cases i x) as [Hl | Hg]; [now left |].
    destruct (Z.lt_ge_cases i y) as [Hl' | Hg']; [| now right].
    pose proof (derivedFreeMask_at _ _ _ _ (H4 i (conj Hg Hl'))) as Hoff. congruence. }
  unfold slotOutside. unfold TIME_STEP_MIN in *.
  destruct Hout as [Hl | Hg]; [right; lia |]. left.
  destruct H6 as [H6 | [H6 H7]]; [lia |].
  destruct Hceil as [Hc | Hc]; lia.
Qed.

(** ** What the ladder reads of the window *)

Section WindowReads.

Variable trim : option TrimFunction.
Variable rand : nat -> Q.
Variable pre : Pre.
Variables w1 w2 : Window.
Hypothesis Hlane : TICK_LANE w1 = TICK_LANE w2.





End WindowReads.

Lemma computeAvail_win trim rand pre nav policy (w1 w2 : Window) (n : nat) :
  dividerXs nav <> None ->
  computeAvailFromFrozenNav trim rand pre nav policy w1 n
  = computeAvailFromFrozenNav trim rand pre nav policy w2 n.
Proof.
  intro H. unfold computeAvailFromFrozenNav.
  destruct (dividerXs nav); [reflexivity | contradiction].
Qed.

(** A nav the builder returns has every part [buildAndPublishNav] asks
    for. *)
Lemma built_nav_complete trim rand now pre win n nav win' n' :
  computeFrozenNavFromPre trim rand now (Some pre) win n = (Returned (Some nav), win', n') ->
  exists regions bands bg dXs,
    dayRegions nav = Some regions /\ slotBands nav = Some bands /\
    bgWhite nav = Some bg /\ dividerXs nav = Some dXs /\
    (1 <= length bands)%nat /\
    calibrateBackground rand pre regions bands n = (Some bg, n').
Proof.
  intro H. apply computeFrozenNav_inv in H.
  destruct H as (v & dy & g & _ & _ & _ & _ & _ & _ & _ & _ & _ & Hb & bg & Hc & -> & _).
  do 4 eexists. cbn [dayRegions slotBands bgWhite dividerXs].
  repeat split; try reflexivity; assumption.
Qed.

Lemma buildAndPublishNav_cases trim rand now pre win n :
  match computeFrozenNavFromPre trim rand now (Some pre) win n with
  | (Returned (Some nav), win1, n1) =>
      buildAndPublishNav trim rand now (Some pre) win n
      = (NavOk nav, mkWindow (TICK_LANE win1) (DIV_XS win1) (Some nav), n1)
  | (Returned None, win1, n1) =>
      buildAndPublishNav trim rand now (Some pre) win n
      = (NavFail "Nav builder returned null/undefined", win1, n1)
  | (Thrown message, win1, n1) =>
      buildAndPublishNav trim rand now (Some pre) win n = (NavFail message, win1, n1)
  end.
Proof.
  unfold buildAndPublishNav.
  destruct (computeFrozenNavFromPre trim rand now (Some pre) win n)
    as [[[[nav |] | message] win1] n1] eqn:E; try reflexivity.
  destruct (built_nav_complete _ _ _ _ _ _ _ _ _ E) as (r & b & bg & d & -> & -> & -> & _).
  reflexivity.
Qed.

(** ** The exceptions of a page without [trimDayRegionByDivider] *)

Section NoTrim.

Variable pre : Pre.
Variable win : Window.






End NoTrim.


(** ** The draws of the two stages *)

Lemma classifySlotSample_draws rand pre slot region bg n :
  snd (classifySlotSample rand pre slot region bg n) = n
  \/ snd (classifySlotSample rand pre slot region bg n) = (n + 280)%nat.
Proof.
  unfold classifySlotSample.
  destruct (dr_x1 region <=? dr_x0 region); [now left |].
  destruct (yEnd slot <=? yStart slot); [now left |].
  rewrite classifyLoop_spec. cbv zeta. right.
  destruct (Qle_bool _ _); reflexivity.
Qed.

Lemma classifyCell_draws rand pre bg policy region slot n :
  (n + 320 <= snd (classifyCell rand pre bg policy region slot n) <= n + 600)%nat.
Proof.
  unfold classifyCell. rewrite measurePurpleFrac_spec.
  destruct (Qle_bool _ _); [cbn; lia |].
  pose proof (classifySlotSample_draws rand pre slot region bg (n + 320)) as H.
  destruct (classifySlotSample _ _ _ _ _ _) as [base n2]. cbn [snd] in *. lia.
Qed.

Lemma classifySlots_draws rand pre bg policy region (slots : list SlotBand) : forall n,
  (n + 320 * length slots
   <= snd (classifySlots rand pre bg policy region slots n)
   <= n + 600 * length slots)%nat.
Proof.
  induction slots as [| s rest IH]; intro n; [cbn; lia |].
  cbn [classifySlots].
  pose proof (classifyCell_draws rand pre bg policy region s n) as Hc.
  destruct (classifyCell _ _ _ _ _ _ _) as [c n1]. cbn [snd] in Hc.
  specialize (IH n1). destruct (classifySlots _ _ _ _ _ rest n1) as [[arr w] n2].
  cbn [snd length] in *. lia.
Qed.

Lemma classifyDays_draws trim rand pre bg policy regions dXs slots (days : list Weekday) :
  forall n,
  (n <= snd (classifyDays trim rand pre bg policy regions dXs slots days n)
   <= n + 600 * length slots * length days)%nat.
Proof.
  induction days as [| d rest IH]; intro n; [cbn; lia |].
  cbn [classifyDays length].
  assert (Hskip : forall m, (n <= m <= n + 600 * length slots)%nat ->
     (n <= snd (match classifyDays trim rand pre bg policy regions dXs slots rest m with
                | (Some (ds, ws), n1) => (Some ((d, @nil bool) :: ds, (d, @nil bool) :: ws), n1)
                | (None, n1) => (None, n1) end)
      <= n + 600 * length slots * S (length rest))%nat).
  { intros m Hm. specialize (IH m).
    destruct (classifyDays _ _ _ _ _ _ _ _ rest m) as [[[ds ws] |] n1]; cbn [snd] in *; nia. }
  destruct (lookupDay regions d) as [rawRegion |]; [| apply Hskip; lia].
  destruct (safeTrimDayRegion trim rawRegion dXs) as [region |].
  - pose proof (classifySlots_draws rand pre bg policy region slots n) as Hs.
    destruct (classifySlots _ _ _ _ _ _ _) as [[arr w] n1]. cbn [snd] in Hs.
    specialize (IH n1).
    destruct (classifyDays _ _ _ _ _ _ _ _ rest n1) as [[[ds ws] |] n2]; cbn [snd] in *; nia.
  - destruct slots; [apply Hskip; lia | cbn [snd]; nia].
Qed.

Lemma sameDraws_sub r1 r2 (lo hi lo' hi' : nat) :
  sameDraws r1 r2 lo hi -> (lo <= lo')%nat -> (hi' <= hi)%nat -> sameDraws r1 r2 lo' hi'.
Proof. intros H Hlo Hhi k Hk. apply H. lia. Qed.

Lemma samplePixel_same r1 r2 pre rc (n : nat) :
  r1 n = r2 n -> r1 (S n) = r2 (S n) -> samplePixel r2 pre rc n = samplePixel r1 pre rc n.
Proof. intros H0 H1. unfold samplePixel. now rewrite H0, H1. Qed.

Lemma samplesOf_same r1 r2 pre rc (count : nat) : forall n,
  sameDraws r1 r2 n (n + 2 * count) ->
  samplesOf r2 pre rc count n = samplesOf r1 pre rc count n.
Proof.
  induction count as [| k IH]; intros n H; [reflexivity |].
  cbn [samplesOf]. f_equal.
  - apply samplePixel_same; apply H; lia.
  - apply IH. eapply sameDraws_sub; [exact H | lia | lia].
Qed.

Lemma measurePurpleFrac_same r1 r2 pre slot region (n : nat) :
  sameDraws r1 r2 n (n + 320) ->
  measurePurpleFrac r2 pre slot region n = measurePurpleFrac r1 pre slot region n.
Proof.
  intro H. rewrite !measurePurpleFrac_spec.
  rewrite (samplesOf_same r1 r2); [reflexivity |].
  eapply sameDraws_sub; [exact H | lia | lia].
Qed.








(** The calibration samples. *)




Lemma globalSamples_length r pre c (count : nat) : forall n,
  length (globalSamples r pre c count n) = count.
Proof. induction count as [| k IH]; intro n; cbn [globalSamples length]; auto. Qed.









(** Whether a calibration succeeds does not depend on the draws. *)




(** ** The nav build run twice *)

Section TwoBuilds.

Variable trim : option TrimFunction.
Variable pre : Pre.
Variables r1 r2 : nat -> Q.
Variables now1 now2 : Z.
Variables w1 w2 : Window.




End TwoBuilds.




(** ** The whitest cells *)

Lemma insertByWhite_perm (c : CalCell) (l : list CalCell) :
  Permutation (c :: l) (insertByWhite c l).
Proof.
  induction l as [| y t IH]; cbn; [apply Permutation_refl |].
  destruct (Qle_bool _ _); [apply Permutation_refl |].
  eapply perm_trans; [apply perm_swap | now apply perm_skip].
Qed.

Lemma sortByWhite_perm (l : list CalCell) : Permutation l (sortByWhite l).
Proof.
  induction l as [| c t IH]; cbn; [constructor |].
  eapply perm_trans; [apply perm_skip, IH | apply insertByWhite_perm].
Qed.

Lemma sortByWhite_length (l : list CalCell) : length (sortByWhite l) = length l.
Proof. symmetry. apply Permutation_length, sortByWhite_perm. Qed.







Lemma fridayTol_bounds (spread : Z) : 34 <= fridayTol spread <= 60.
Proof. unfold fridayTol. apply clamp_bounds. unfold BG_TOL_BASE, BG_TOL_MAX. lia. Qed.

Lemma globalTol_value : globalTol = 44.
Proof. reflexivity. Qed.





Lemma calibrateBackground_tol rand pre regions bands n bg n1 :
  calibrateBackground rand pre regions bands n = (Some bg, n1) ->
  34 <= bg_tol bg <= 60.
Proof.
  intro H. unfold calibrateBackground in H.
  destruct (calibrateFridayBackground _ _ _ _ _) as [[bg0 | r0] n0] eqn:Ef.
  - injection H as <- <-. unfold calibrateFridayBackground in Ef.
    destruct (lookupDay regions Friday); [| discriminate].
    destruct (length bands <? 4)%nat; [discriminate |].
    destruct (belowAccept _); [discriminate |].
    destruct (sampleChosen _ _ _) as [px n2].
    destruct (length (map chanR px) <? 80)%nat; [discriminate |].
    injection Ef as <- <-. cbn [bg_tol]. apply fridayTol_bounds.
  - destruct (calibrateGlobalBackground _ _ _ _ _) as [[bg1 | r1] n2] eqn:Eg;
      [| discriminate].
    injection H as <- <-. unfold calibrateGlobalBackground in Eg.
    destruct (belowAccept _); [discriminate |].
    destruct (sampleChosen _ _ _) as [px n3]. injection Eg as <- <-.
    cbn [bg_tol]. rewrite globalTol_value. lia.
Qed.


Import Fixtures.

(** ** The sheets, run *)

(** Sheet A does not build on a page that loads the scripts only: the row
    check of the ladder calls a function nothing defines. *)
Lemma sheetA_build_throws :
  fst (fst (buildAndPublishNav noTrim draws stamp sheetA emptyWindow 0))
  = NavFail "trimDayRegionByDivider is not defined".
Proof. vm_compute. reflexivity. Qed.

(** Sheet B builds, with a first gap of 26 for a spacing of 30.5. *)
Lemma sheetB_nav_built :
  exists nav win' n',
    computeFrozenNavFromPre noTrim draws stamp sheetB emptyWindow 0
    = (Returned (Some nav), win', n') /\
    ticksForMap nav = [10; 36; 67; 98; 129; 159; 189].
Proof. vm_compute. do 3 eexists. repeat split; reflexivity. Qed.

Lemma sheetB_median : medianDy (navRawTicks preB) = Some (61 # 2).
Proof. vm_compute. reflexivity. Qed.

(** C1, on the red cell of sheet A. *)
Lemma classifySlotSample_rule_witness :
  let slot := mkSlotBand 48 57 46 57 in
  let region := mkDayRegion 77 125 in
  let bg := mkBackgroundColor (Some 255) (Some 255) (Some 255) 34 in
  let px := samplesOf draws preA (insetRect preA slot region) 140 0 in
  let bgFrac := frac (countIf (fun p => isBgMatch p bg) px) 140 in
  let inkFrac := frac (countIf isNonWhite px) 140 in
  let purpleFrac := frac (countIf isPurpleMatch px) 140 in
  let occupiedFrac := frac (countIf (isOccupied bg) px) 140 in
  length px = 140%nat /\
  exists free,
    classifySlotSample draws preA slot region bg 0
    = (ClassifyOk free bgFrac inkFrac purpleFrac occupiedFrac, (0 + 280)%nat) /\
    ((50 # 100 <= occupiedFrac)%Q -> free = false) /\
    (~ (50 # 100 <= occupiedFrac)%Q ->
     (free = true <->
      (82 # 100 <= bgFrac)%Q \/ ((55 # 100 <= bgFrac)%Q /\ (inkFrac <= 12 # 100)%Q))).
Proof.
  exact (proj1 (classifySlotSample_rule draws preA (mkSlotBand 48 57 46 57)
                  (mkDayRegion 77 125)
                  (mkBackgroundColor (Some 255) (Some 255) (Some 255) 34) 0)
               eq_refl eq_refl).
Defined.

(** C1, refuted as worded: sheet E builds with the divider at column 99
    found twice, so that Tuesday is the empty region from 99 to 99.  Its
    cells have no purple, the classifier draws no pixel for them and returns
    a failure, and every slot of Tuesday is stored as busy. *)
Lemma degenerate_cell_stored_busy :
  fst (fst (buildAndPublishNav noTrim halfDraws stamp sheetE emptyWindow 0)) = NavOk navE /\
  dividerXs navE = Some [29; 99; 99; 149; 199; 269] /\
  option_map (fun r => lookupDay r Tuesday) (dayRegions navE)
  = Some (Some (mkDayRegion 99 99)) /\
  safeTrimDayRegion noTrim (mkDayRegion 99 99) (dividerXs navE)
  = Some (mkDayRegion 99 99) /\
  Qle_bool (18 # 100)
    (fst (measurePurpleFrac halfDraws preE (mkSlotBand 12 36 10 36) (mkDayRegion 99 99) 360))
  = false /\
  classifySlotSample halfDraws preE (mkSlotBand 12 36 10 36) (mkDayRegion 99 99) whiteBg 680
  = (ClassifyFail "bad dayRegion", 680%nat) /\
  exists grid,
    fst (computeAvailFromFrozenNav noTrim halfDraws preE navE SoftFree emptyWindow 360)
    = AvailOk grid /\
    lookupDay (av_days grid) Tuesday = Some [false; false; false; false; false; false] /\
    lookupDay (av_workDays grid) Tuesday
    = Some [false; false; false; false; false; false].
Proof. vm_compute. repeat split. eexists. repeat split. Qed.



(** C7, on sheet B. *)
Lemma nav_ticks_ladder_invariant_witness :
  exists nav dy,
    ticksForMap nav = [10; 36; 67; 98; 129; 159; 189] /\
    medianDy (navRawTicks preB) = Some dy /\ (10 <= dy <= 90)%Q /\ HalfIntegral dy /\
    LadderTicksOk dy (ticksForMap nav).
Proof.
  destruct sheetB_nav_built as (nav & win' & n' & E & Ht).
  exists nav.
  destruct (nav_ticks_ladder_invariant noTrim draws stamp preB emptyWindow 0 nav win' n' E)
    as (dy & H).
  exists dy. split; [exact Ht | exact H].
Defined.

(** C7, refuted as worded: on sheet B the nav is built, the spacing is
    30.5 and the snap tolerance 4, and the first gap, 26, is neither within
    4 of 30.5 nor left by the one-time allowance, which adds no tick. *)
Lemma gap_exceeds_snap_tolerance :
  exists nav win' n',
    computeFrozenNavFromPre noTrim draws stamp sheetB emptyWindow 0
    = (Returned (Some nav), win', n') /\
    ticksForMap nav = [10; 36; 67; 98; 129; 159; 189] /\
    medianDy (navRawTicks preB) = Some (61 # 2) /\
    ladderSnapWin (61 # 2) = 4 /\
    ~ GapWithin (61 # 2) (inject_Z (ladderSnapWin (61 # 2))) (10, 36).
Proof.
  destruct sheetB_nav_built as (nav & win' & n' & E & Ht).
  exists nav, win', n'. split; [exact E |]. split; [exact Ht |].
  split; [exact sheetB_median |]. split; [reflexivity |].
  intros [_ H]. vm_compute in H. apply H. reflexivity.
Qed.


(** C8, refuted as worded: on sheet A the third expected position is
    searched at every offset, which finds column 125; taking the offsets
    two by two finds column 126. *)
Lemma divider_search_step_one :
  let yc := pickDayBandY preA [10; 22; 34; 46; 58; 70; 82; 94; 106] in
  option_map vl_x (leftAnchor preA yc) = Some 29 /\
  option_map vl_x (rightAnchor preA yc) = Some 273 /\
  option_map vl_x (findBestDividerNearX preA yc (dividerGuess 29 273 2)) = Some 125 /\
  option_map vl_x (specDividerSearch preA yc (dividerGuess 29 273 2)) = Some 126 /\
  dv_xs (findDayDividers preA [10; 22; 34; 46; 58; 70; 82; 94; 106])
  = [29; 77; 125; 173; 221; 269].
Proof. vm_compute. repeat split; reflexivity. Qed.

(** C10, on a record of four slots from 8:00 AM whose second slot is work. *)
Lemma work_slots_never_free_witness :
  let a := Query.mkSavedAvail (Some 4) None (Some "8:00 AM"%string)
             [(Monday, [true; true; true; false])]
             (Some [(Monday, [false; true; false; false])]) in
  let rec := Query.mkSavedRecord (Some "Ann"%string) (Some a) None in
  Query.queryRecord Monday 480 600 rec
  = Query.Listed "Ann" [Query.mkTimeRange 480 510; Query.mkTimeRange 540 570]
                       [Query.mkTimeRange 510 540] /\
  exists anchorMin i0 i1,
    Query.timeStrToMinutes
      (Query.firstNonEmpty (Query.sa_anchorStartTime a) (Query.rec_navAnchorStartTime rec)
                           "8:00 AM") = Some anchorMin /\
    [Query.mkTimeRange 480 510; Query.mkTimeRange 540 570]
    = Query.buildRangesFromMask
        (Query.derivedFreeMask [true; true; true; false] [false; true; false; false] 4)
        i0 i1 anchorMin TIME_STEP_MIN 480 600 /\
    [Query.mkTimeRange 510 540]
    = Query.buildRangesFromMask [false; true; false; false] i0 i1 anchorMin
                                TIME_STEP_MIN 480 600 /\
    forall i r, 0 <= i < 4 ->
                Query.maskAt [false; true; false; false] i = true ->
                In r [Query.mkTimeRange 480 510; Query.mkTimeRange 540 570] ->
                slotOutside anchorMin i r.
Proof.
  intros a rec.
  assert (Hq : Query.queryRecord Monday 480 600 rec
               = Query.Listed "Ann" [Query.mkTimeRange 480 510; Query.mkTimeRange 540 570]
                              [Query.mkTimeRange 510 540]) by (vm_compute; reflexivity).
  split; [exact Hq |].
  exact (work_slots_never_free Monday 480 600 rec a [true; true; true; false]
           [false; true; false; false] [(Monday, [false; true; false; false])]
           "Ann" _ _ eq_refl eq_refl eq_refl eq_refl eq_refl Hq).
Defined.

(** ** Times of day *)

Lemma isDigit_val (c : ascii) : Query.isDigit c = true -> 0 <= Query.digitVal c <= 9.
Proof.
  unfold Query.isDigit, Query.digitVal. intro H.
  apply andb_true_iff in H. destruct H as [H1 H2].
  apply Nat.leb_le in H1, H2. lia.
Qed.

Lemma parseAfterColon_range (hh : Z) (l : list ascii) (m : Z) :
  Query.parseAfterColon hh l = Some m -> 0 <= m < 1440.
Proof.
  unfold Query.parseAfterColon.
  destruct l as [| m1 [| m2 rest]]; try discriminate.
  destruct (Query.isDigit m1) eqn:E1; [| discriminate].
  destruct (Query.isDigit m2) eqn:E2; [| discriminate]. cbn [andb].
  destruct (Query.parseAmPm rest) as [pm |]; [| discriminate].
  apply isDigit_val in E1, E2.
  destruct ((hh <? 1) || (12 <? hh)) eqn:Eh; [discriminate |].
  destruct ((_ <? 0) || (59 <? _)) eqn:Em; [discriminate |].
  apply orb_false_iff in Eh, Em. destruct Eh as [Eh1 Eh2]. destruct Em as [Em1 Em2].
  apply Z.ltb_ge in Eh1, Eh2, Em1, Em2.
  intros [= <-]. destruct pm, (Z.eqb_spec hh 12); lia.
Qed.

Lemma colon_match {A : Type} (c : ascii) (x y : A) :
  match c with ":"%char => x | _ => y end = if Ascii.eqb c ":" then x else y.
Proof. destruct c as [[] [] [] [] [] [] [] []]; reflexivity. Qed.

Lemma colon_patterns {A : Type} (l : list ascii) (f : ascii -> list ascii -> A)
    (g : ascii -> ascii -> list ascii -> A) (d : A) :
  match l with
  | h1 :: ":"%char :: rest => f h1 rest
  | h1 :: h2 :: ":"%char :: rest => g h1 h2 rest
  | _ => d
  end
  = match l with
    | h1 :: c2 :: t =>
        if Ascii.eqb c2 ":" then f h1 t
        else match t with
             | c3 :: rest => if Ascii.eqb c3 ":" then g h1 c2 rest else d
             | [] => d
             end
    | _ => d
    end.
Proof.
  destruct l as [| h1 [| c2 t]]; try reflexivity.
  destruct c2 as [[] [] [] [] [] [] [] []]; try reflexivity;
    (destruct t as [| c3 rest]; [reflexivity |];
     cbn [Ascii.eqb Bool.eqb andb]; apply colon_match).
Qed.

(** [timeStrToMinutes] with the colon tests written out. *)
Lemma timeStrToMinutes_unfold (str : string) :
  Query.timeStrToMinutes str
  = match Query.trim (list_ascii_of_string str) with
    | h1 :: c2 :: t =>
        if Ascii.eqb c2 ":" then
          if Query.isDigit h1 then Query.parseAfterColon (Query.digitVal h1) t else None
        else match t with
             | c3 :: rest =>
                 if Ascii.eqb c3 ":" then
                   if Query.isDigit h1 && Query.isDigit c2
                   then Query.parseAfterColon
                          (Query.digitVal h1 * 10 + Query.digitVal c2) rest
                   else None
                 else None
             | [] => None
             end
    | _ => None
    end.
Proof.
  unfold Query.timeStrToMinutes.
  exact (colon_patterns (Query.trim (list_ascii_of_string str))
           (fun h1 rest =>
              if Query.isDigit h1 then Query.parseAfterColon (Query.digitVal h1) rest
              else None)
           (fun h1 h2 rest =>
              if Query.isDigit h1 && Query.isDigit h2
              then Query.parseAfterColon (Query.digitVal h1 * 10 + Query.digitVal h2) rest
              else None)
           None).
Qed.

(** X1: whatever string timeStrToMinutes accepts, the minutes it returns lie
    within one day. *)
Theorem timeStrToMinutes_in_day (str : string) (m : Z) :
  Query.timeStrToMinutes str = Some m -> 0 <= m < 1440.
Proof.
  rewrite timeStrToMinutes_unfold.
  destruct (Query.trim _) as [| h1 [| c2 t]]; try discriminate.
  destruct (Ascii.eqb c2 ":").
  - destruct (Query.isDigit h1); [apply parseAfterColon_range | discriminate].
  - destruct t as [| c3 rest]; [discriminate |].
    destruct (Ascii.eqb c3 ":"); [| discriminate].
    destruct (_ && _); [apply parseAfterColon_range | discriminate].
Qed.

Lemma timeStrToMinutes_in_day_witness : 0 <= 570 < 1440.
Proof. apply (timeStrToMinutes_in_day "9:30 AM" 570). reflexivity. Defined.

Lemma round_trip_table :
  forallb (fun m => match Query.timeStrToMinutes (Query.minutesToTimeStr m) with
                    | Some m' => m' =? m
                    | None => false
                    end) (range 0 1440) = true.
Proof. vm_compute. reflexivity. Qed.

(** X2: a minute of the day, formatted by minutesToTimeStr and parsed by
    timeStrToMinutes, comes back unchanged. *)
Theorem time_round_trip (m : Z) :
  0 <= m < 1440 -> Query.timeStrToMinutes (Query.minutesToTimeStr m) = Some m.
Proof.
  intro H. pose proof round_trip_table as T. rewrite forallb_forall in T.
  specialize (T m (proj2 (range_In 0 1440 m) H)).
  destruct (Query.timeStrToMinutes _) as [m' |]; [| discriminate].
  apply Z.eqb_eq in T. now subst.
Qed.

Lemma time_round_trip_witness :
  Query.timeStrToMinutes (Query.minutesToTimeStr 750) = Some 750.
Proof. apply time_round_trip. lia. Defined.

(** ** The order of the ranges *)

Section RangeOrder.

Import Query.

Variable maskArr : list bool.
Variables anchorMin step cs ce : Z.
Hypothesis Hstep : 0 < step.

Lemma RangesOrdered_snoc (rs : list TimeRange) (r : TimeRange) :
  RangesOrdered step cs ce rs ->
  cs <= startMin r -> startMin r < endMin r -> endMin r <= ce ->
  Forall (fun r0 => endMin r0 + step <= startMin r) rs ->
  RangesOrdered step cs ce (rs ++ [r]).
Proof.
  intros [Hw Hs] H1 H2 H3 Hb. split.
  - apply Forall_app. split; [exact Hw |]. constructor; [auto | constructor].
  - clear Hw. induction Hs as [| x l Hl IH Hx]; cbn.
    + constructor; constructor.
    + inversion Hb; subst. constructor; [now apply IH |].
      apply Forall_app. split; [exact Hx |]. constructor; [assumption | constructor].
Qed.

Lemma rangeStepFn_ordered (j : Z) (st : RunState) :
  orderedInv anchorMin step cs ce j st ->
  orderedInv anchorMin step cs ce (j + 1) (rangeStepFn maskArr anchorMin step cs ce st j).
Proof.
  intros (Ho & Hlt & Hb). unfold rangeStepFn.
  destruct (maskAt maskArr j).
  - destruct (runStartIdx st) as [a |] eqn:Ea.
    + split; [exact Ho |]. rewrite Ea. cbv zeta. split; [lia | exact Hb].
    + split; [exact Ho |]. cbn [runStartIdx ranges]. cbv zeta. split; [lia | exact Hb].
  - destruct (runStartIdx st) as [a |] eqn:Ea.
    + cbv zeta in Hb.
      destruct (Z.max cs (anchorMin + a * step) <? Z.min ce (anchorMin + j * step)) eqn:El.
      * apply Z.ltb_lt in El. split; [| split; [exact I |]]; cbn [ranges runStartIdx].
        -- apply RangesOrdered_snoc; cbn [startMin endMin]; try lia; [exact Ho |].
           eapply Forall_impl; [| exact Hb]. cbn beta. intros r0 Hr0. nia.
        -- cbv zeta. apply Forall_app. split.
           ++ eapply Forall_impl; [| exact Hb]. cbn beta. intros r0 Hr0. nia.
           ++ constructor; [| constructor]. cbn [endMin]. nia.
      * split; [exact Ho |]. cbn [runStartIdx ranges]. cbv zeta. split; [exact I |].
        eapply Forall_impl; [| exact Hb]. cbn beta. intros r0 Hr0. nia.
    + split; [exact Ho |]. rewrite Ea. cbv zeta in *. split; [exact I |].
      eapply Forall_impl; [| exact Hb]. cbn beta. intros r0 Hr0. nia.
Qed.

Lemma ranges_fold_ordered (n : nat) : forall j st,
  orderedInv anchorMin step cs ce j st ->
  orderedInv anchorMin step cs ce (j + Z.of_nat n)
             (fold_left (rangeStepFn maskArr anchorMin step cs ce) (zseq j n) st).
Proof.
  induction n as [| n IH]; intros j st Hinv.
  - cbn. now rewrite Z.add_0_r.
  - cbn [zseq fold_left]. replace (j + Z.of_nat (S n)) with (j + 1 + Z.of_nat n) by lia.
    apply IH. now apply rangeStepFn_ordered.
Qed.

Lemma buildRangesFromMask_ordered (i0 i1 : Z) :
  RangesOrdered step cs ce (buildRangesFromMask maskArr i0 i1 anchorMin step cs ce).
Proof.
  unfold buildRangesFromMask, range.
  pose proof (ranges_fold_ordered (Z.to_nat (i1 - i0)) i0 (mkRunState [] None)) as Hinv.
  assert (H0 : orderedInv anchorMin step cs ce i0 (mkRunState [] None)).
  { split; [split; constructor |]. cbn. split; [exact I | constructor]. }
  specialize (Hinv H0). cbv zeta.
  set (st := fold_left _ _ _) in *. destruct Hinv as (Ho & Hlt & Hb).
  destruct (runStartIdx st) as [a |]; [| exact Ho].
  destruct (Z.max cs (anchorMin + a * step) <? ce) eqn:El; [| exact Ho].
  apply Z.ltb_lt in El. cbv zeta in Hb.
  apply RangesOrdered_snoc; cbn [startMin endMin]; try lia; [exact Ho |].
  eapply Forall_impl; [| exact Hb]. cbn beta. intros r0 Hr0. nia.
Qed.

End RangeOrder.

(** X3: for a positive slot length, the ranges buildRangesFromMask returns
    lie within the clamp window, each with a positive length, in
    increasing order and at least one slot apart. *)
Theorem ranges_in_window_and_apart (maskArr : list bool)
    (i0 i1 anchorMin step clampStartMin clampEndMin : Z) :
  0 < step ->
  RangesOrdered step clampStartMin clampEndMin
    (Query.buildRangesFromMask maskArr i0 i1 anchorMin step clampStartMin clampEndMin).
Proof. intro H. now apply buildRangesFromMask_ordered. Qed.

Lemma ranges_in_window_and_apart_witness :
  RangesOrdered 30 480 600
    (Query.buildRangesFromMask [true; false; true; true] 0 4 480 30 480 600).
Proof. apply ranges_in_window_and_apart. reflexivity. Defined.

(** ** No slot that is on is lost *)

Section RangeCover.

Import Query.

Variable maskArr : list bool.
Variables i0 anchorMin step cs ce : Z.
Hypothesis Hstep : 0 < step.

Lemma slotCovered_app (k : Z) (rs more : list TimeRange) :
  slotCovered anchorMin step cs ce k rs -> slotCovered anchorMin step cs ce k (rs ++ more).
Proof.
  unfold slotCovered. intros H Hlt. destruct (H Hlt) as (r & Hin & Hr).
  exists r. split; [apply in_or_app; now left | exact Hr].
Qed.

Lemma rangeStepFn_cover (j : Z) (st : RunState) :
  coverInv maskArr i0 anchorMin step cs ce j st ->
  coverInv maskArr i0 anchorMin step cs ce (j + 1)
           (rangeStepFn maskArr anchorMin step cs ce st j).
Proof.
  intros [Hlt Hinv]. unfold rangeStepFn.
  destruct (maskAt maskArr j) eqn:Em.
  - destruct (runStartIdx st) as [a |] eqn:Ea.
    + split; [rewrite Ea; lia |]. intros k Hk Hon.
      destruct (Z.eq_dec k j) as [-> | Hne].
      * right. exists a. split; [exact Ea | lia].
      * rewrite Ea. apply Hinv; [lia | exact Hon].
    + split; [cbn; lia |]. intros k Hk Hon. cbn [ranges runStartIdx].
      destruct (Z.eq_dec k j) as [-> | Hne].
      * right. exists j. split; [reflexivity | lia].
      * destruct (Hinv k) as [Hc | (a & Ha & _)]; [lia | exact Hon | now left |].
        discriminate Ha.
  - destruct (runStartIdx st) as [a |] eqn:Ea.
    + split; [exact I |]. intros k Hk Hon. cbn [ranges runStartIdx]. left.
      assert (Hkj : k <> j) by (intros ->; congruence).
      destruct (Hinv k) as [Hc | (a' & Ha & Hle)]; [lia | exact Hon | |].
      * destruct (_ <? _); [now apply slotCovered_app | exact Hc].
      * injection Ha as <-. unfold slotCovered. intro Hlo.
        destruct (Z.max cs (anchorMin + a * step) <? Z.min ce (anchorMin + j * step)) eqn:El.
        -- exists (mkTimeRange (Z.max cs (anchorMin + a * step))
                               (Z.min ce (anchorMin + j * step))).
           split; [apply in_or_app; right; now left |]. cbn [startMin endMin]. nia.
        -- apply Z.ltb_ge in El. exfalso. nia.
    + split; [now rewrite Ea |]. intros k Hk Hon.
      assert (Hkj : k <> j) by (intros ->; congruence).
      rewrite Ea. apply Hinv; [lia | exact Hon].
Qed.

Lemma ranges_fold_cover (n : nat) : forall j st,
  coverInv maskArr i0 anchorMin step cs ce j st ->
  coverInv maskArr i0 anchorMin step cs ce (j + Z.of_nat n)
           (fold_left (rangeStepFn maskArr anchorMin step cs ce) (zseq j n) st).
Proof.
  induction n as [| n IH]; intros j st Hinv.
  - cbn. now rewrite Z.add_0_r.
  - cbn [zseq fold_left]. replace (j + Z.of_nat (S n)) with (j + 1 + Z.of_nat n) by lia.
    apply IH. now apply rangeStepFn_cover.
Qed.

Lemma buildRangesFromMask_cover (i1 k : Z) :
  i0 <= k < i1 -> maskAt maskArr k = true ->
  slotCovered anchorMin step cs ce k
    (buildRangesFromMask maskArr i0 i1 anchorMin step cs ce).
Proof.
  intros Hk Hon. unfold buildRangesFromMask, range.
  pose proof (ranges_fold_cover (Z.to_nat (i1 - i0)) i0 (mkRunState [] None)) as Hinv.
  replace (i0 + Z.of_nat (Z.to_nat (i1 - i0))) with i1 in Hinv by lia.
  assert (H0 : coverInv maskArr i0 anchorMin step cs ce i0 (mkRunState [] None)).
  { split; [exact I | intros; lia]. }
  specialize (Hinv H0). cbv zeta.
  set (st := fold_left _ _ _) in *. destruct Hinv as [Hlt Hinv].
  destruct (Hinv k Hk Hon) as [Hc | (a & Ha & Hle)].
  - destruct (runStartIdx st); [| exact Hc].
    destruct (_ <? _); [now apply slotCovered_app | exact Hc].
  - rewrite Ha. unfold slotCovered. intro Hlo.
    destruct (Z.max cs (anchorMin + a * step) <? ce) eqn:El.
    + exists (mkTimeRange (Z.max cs (anchorMin + a * step)) ce).
      split; [apply in_or_app; right; now left |]. cbn [startMin endMin]. nia.
    + apply Z.ltb_ge in El. exfalso. nia.
Qed.

End RangeCover.

(** X4: for a positive slot length, whatever part of a slot that is on,
    among the slots scanned, lies inside the clamp window lies within one
    of the ranges buildRangesFromMask returns. *)
Theorem on_slots_are_covered (maskArr : list bool)
    (i0 i1 anchorMin step clampStartMin clampEndMin k : Z) :
  0 < step -> i0 <= k < i1 -> Query.maskAt maskArr k = true ->
  slotCovered anchorMin step clampStartMin clampEndMin k
    (Query.buildRangesFromMask maskArr i0 i1 anchorMin step clampStartMin clampEndMin).
Proof. intros Hs Hk Hon. now apply buildRangesFromMask_cover. Qed.

Lemma on_slots_are_covered_witness :
  slotCovered 480 30 480 600 2
    (Query.buildRangesFromMask [true; false; true; true] 0 4 480 30 480 600).
Proof. apply on_slots_are_covered; [reflexivity | lia | reflexivity]. Defined.

(** ** The derived mask and the slot predicates *)

(** X5: inside the grid, the derived mask of the query is the predicate
    _isFreeSlot of the day and work arrays. *)
Theorem derived_mask_is_isFreeSlot (dayArr workArr : list bool) (slots : nat) (i : Z) :
  0 <= i < Z.of_nat slots ->
  Query.maskAt (Query.derivedFreeMask dayArr workArr slots) i
  = Query._isFreeSlot (Some dayArr) (Some workArr) i.
Proof.
  intro Hi. unfold Query._isFreeSlot, Query._boolAt, Query.derivedFreeMask, range.
  unfold Query.maskAt at 1.
  replace (i <? 0) with false by (symmetry; apply Z.ltb_ge; lia).
  rewrite Z.sub_0_r, Nat2Z.id.
  rewrite (nth_indep _ false
             ((fun k => Query.maskAt dayArr k && negb (Query.maskAt workArr k)) 0))
    by (rewrite length_map, zseq_length; lia).
  rewrite (map_nth (fun k => Query.maskAt dayArr k && negb (Query.maskAt workArr k))).
  rewrite nth_zseq by lia. f_equal; f_equal; try f_equal; lia.
Qed.

Lemma derived_mask_is_isFreeSlot_witness :
  Query.maskAt (Query.derivedFreeMask [true; true] [false; true] 2) 1
  = Query._isFreeSlot (Some [true; true]) (Some [false; true]) 1.
Proof. apply derived_mask_is_isFreeSlot. lia. Defined.

(** ** The trailing run *)

Lemma zseq_snoc (n : nat) : forall lo, zseq lo (S n) = zseq lo n ++ [lo + Z.of_nat n].
Proof.
  induction n as [| n IH]; intro lo.
  - cbn. now rewrite Z.add_0_r.
  - change (zseq lo (S (S n))) with (lo :: zseq (lo + 1) (S n)). rewrite IH.
    replace (lo + Z.of_nat (S n)) with (lo + 1 + Z.of_nat n) by lia.
    reflexivity.
Qed.

(** X6: when the last slot scanned is on and starts before the end of the
    clamp window, the last range buildRangesFromMask returns ends at the end
    of the clamp window, wherever that slot ends. *)
Theorem trailing_run_ends_at_clamp_end (maskArr : list bool)
    (i0 i1 anchorMin step clampStartMin clampEndMin : Z) :
  0 < step -> i0 < i1 -> Query.maskAt maskArr (i1 - 1) = true ->
  clampStartMin < clampEndMin -> anchorMin + (i1 - 1) * step < clampEndMin ->
  exists front a,
    Query.buildRangesFromMask maskArr i0 i1 anchorMin step clampStartMin clampEndMin
    = front ++ [Query.mkTimeRange (Z.max clampStartMin (anchorMin + a * step)) clampEndMin]
    /\ i0 <= a < i1.
Proof.
  intros Hs Hi Hon Hc Hlast. unfold Query.buildRangesFromMask, range.
  replace (Z.to_nat (i1 - i0)) with (S (Z.to_nat (i1 - 1 - i0))) by lia.
  rewrite zseq_snoc, fold_left_app. cbn [fold_left].
  replace (i0 + Z.of_nat (Z.to_nat (i1 - 1 - i0))) with (i1 - 1) by lia.
  pose proof (ranges_fold_inv maskArr i0 anchorMin step clampStartMin clampEndMin
                (Z.to_nat (i1 - 1 - i0)) i0 (Query.mkRunState [] None)
                (Z.le_refl _)) as Hinv.
  replace (i0 + Z.of_nat (Z.to_nat (i1 - 1 - i0))) with (i1 - 1) in Hinv by lia.
  assert (H0 : rangesInv maskArr i0 anchorMin step i0 (Query.mkRunState [] None)).
  { split; [intros ? [] | exact I]. }
  specialize (Hinv H0). set (st := fold_left _ _ _) in *. destruct Hinv as [_ Hrun].
  unfold Query.rangeStepFn at 1 2. rewrite Hon.
  destruct (Query.runStartIdx st) as [a |] eqn:Ea.
  - rewrite Ea. destruct Hrun as [Ha _].
    replace (Z.max clampStartMin (anchorMin + a * step) <? clampEndMin) with true
      by (symmetry; apply Z.ltb_lt; nia).
    exists (Query.ranges st), a. split; [reflexivity | lia].
  - cbn [Query.runStartIdx Query.ranges].
    replace (Z.max clampStartMin (anchorMin + (i1 - 1) * step) <? clampEndMin) with true
      by (symmetry; apply Z.ltb_lt; nia).
    exists (Query.ranges st), (i1 - 1). split; [reflexivity | lia].
Qed.

(** A schedule of two slots from 8:00 AM whose last slot is free, asked
    about 8:00 AM to 6:00 PM: the free range runs to 6:00 PM. *)
Lemma trailing_run_ends_at_clamp_end_witness :
  exists front a,
    Query.buildRangesFromMask [false; true] 0 2 480 30 480 1080
    = front ++ [Query.mkTimeRange (Z.max 480 (480 + a * 30)) 1080] /\ 0 <= a < 2.
Proof.
  apply trailing_run_ends_at_clamp_end; [reflexivity | reflexivity | reflexivity
                                        | reflexivity | reflexivity].
Defined.

(** ** Listed records *)

Lemma queryRecord_listed (day : Weekday) (qStart qEnd : Z) (rec : Query.SavedRecord)
    (person : string) (free work : list Query.TimeRange) :
  Query.queryRecord day qStart qEnd rec = Query.Listed person free work ->
  (exists mask i0 i1 anchorMin,
     free = Query.buildRangesFromMask mask i0 i1 anchorMin TIME_STEP_MIN qStart qEnd) /\
  (work = [] \/
   exists mask i0 i1 anchorMin,
     work = Query.buildRangesFromMask mask i0 i1 anchorMin TIME_STEP_MIN qStart qEnd) /\
  (free <> [] \/ work <> []).
Proof.
  unfold Query.queryRecord. cbv zeta.
  destruct (match Query.rec_avail rec with
            | Some a => lookupDay (Query.sa_days a) day | None => None end)
    as [dayArr |]; [| discriminate].
  destruct (negb _); [discriminate |].
  destruct (Query.timeStrToMinutes _) as [anchorMin |]; [| discriminate].
  destruct (_ <=? _); [discriminate |].
  set (freeR := Query.buildRangesFromMask _ _ _ _ _ _ _).
  set (workR := match _ with Some _ => _ | None => [] end).
  intro H.
  assert (Hfw : free = freeR /\ work = workR /\ (free <> [] \/ work <> [])).
  { destruct freeR, workR; try discriminate; injection H as _ <- <-;
      (split; [reflexivity | split; [reflexivity |]]);
      first [left; discriminate | right; discriminate]. }
  destruct Hfw as (-> & -> & Hne). split; [| split; [| exact Hne]].
  - unfold freeR. do 4 eexists. reflexivity.
  - unfold workR.
    destruct (match Query.rec_avail rec with
              | Some a => match Query.sa_workDays a with
                          | Some wd => lookupDay wd day | None => None end
              | None => None end) as [workArr |]; [| now left].
    destruct (_ =? _); [| now left]. right. do 4 eexists. reflexivity.
Qed.

(** X7: the free and work ranges of a listed record lie within the query
    window, each with a positive length, in increasing order and at least
    30 minutes apart, and there is at least one of them. *)
Theorem listed_ranges_in_query_window (day : Weekday) (qStart qEnd : Z)
    (rec : Query.SavedRecord) (person : string) (free work : list Query.TimeRange) :
  Query.queryRecord day qStart qEnd rec = Query.Listed person free work ->
  RangesOrdered 30 qStart qEnd free /\ RangesOrdered 30 qStart qEnd work /\
  (free <> [] \/ work <> []).
Proof.
  intro H. apply queryRecord_listed in H.
  destruct H as ((mf & a0 & a1 & am & ->) & Hw & Hne).
  split; [apply buildRangesFromMask_ordered; reflexivity |]. split; [| exact Hne].
  destruct Hw as [-> | (mw & b0 & b1 & bm & ->)].
  - split; constructor.
  - apply buildRangesFromMask_ordered. reflexivity.
Qed.

Lemma listed_ranges_in_query_window_witness :
  RangesOrdered 30 480 600 [Query.mkTimeRange 480 510; Query.mkTimeRange 540 570] /\
  RangesOrdered 30 480 600 [Query.mkTimeRange 510 540] /\
  ([Query.mkTimeRange 480 510; Query.mkTimeRange 540 570] <> []
   \/ [Query.mkTimeRange 510 540] <> []).
Proof.
  apply (listed_ranges_in_query_window Monday 480 600
           (Query.mkSavedRecord (Some "Ann"%string)
              (Some (Query.mkSavedAvail (Some 4) None (Some "8:00 AM"%string)
                       [(Monday, [true; true; true; false])]
                       (Some [(Monday, [false; true; false; false])])))
              None) "Ann").
  vm_compute. reflexivity.
Defined.

(** ** Raw ticks: order and spacing *)

Lemma StronglySorted_snoc (l : list Z) (x : Z) :
  StronglySorted Z.lt l -> Forall (fun t => t < x) l -> StronglySorted Z.lt (l ++ [x]).
Proof.
  induction 1 as [| a l Hs IH Ha]; intro Hx; cbn.
  - constructor; constructor.
  - inversion Hx; subst. constructor; [now apply IH |].
    apply Forall_app. split; [exact Ha | constructor; [assumption | constructor]].
Qed.

Section OrderedScan.

Variable pre : Pre.
Variables x0 x1 : Z.

Lemma tickScanStep_ordered (st : TickScan) (y : Z) :
  6 <= y -> scanOrdered y st -> scanOrdered (y + 1) (tickScanStep pre x0 x1 st y).
Proof.
  intros Hy (Hs & Hb & Hr). unfold tickScanStep.
  unfold scanOrdered.
  destruct (Qlt_bool _ _), (ts_inBlack st) eqn:Eb; cbn [andb negb].
  - split; [exact Hs |]. rewrite Eb. split; [exact Hb |]. intros _.
    specialize (Hr eq_refl). lia.
  - split; [exact Hs |]. cbn [ts_ticks ts_inBlack ts_runStart].
    split; [exact Hb | intros _; lia].
  - specialize (Hr eq_refl). cbn [ts_ticks ts_inBlack ts_runStart].
    destruct (2 <=? y - ts_runStart st) eqn:E2.
    + apply Z.leb_le in E2. split; [| split; [| discriminate]].
      * apply StronglySorted_snoc; [exact Hs |].
        eapply Forall_impl; [| exact Hb]. cbn beta. intros t Ht. lia.
      * apply Forall_app. split.
        -- eapply Forall_impl; [| exact Hb]. cbn beta. intros t Ht. lia.
        -- constructor; [lia | constructor].
    + split; [exact Hs |]. split; [| discriminate].
      eapply Forall_impl; [| exact Hb]. cbn beta. intros t Ht. lia.
  - split; [exact Hs |]. rewrite Eb. split; [| discriminate].
    eapply Forall_impl; [| exact Hb]. cbn beta. intros t Ht. lia.
Qed.

Lemma tickScan_fold_ordered (n : nat) : forall y st,
  6 <= y -> scanOrdered y st ->
  scanOrdered (y + Z.of_nat n) (fold_left (tickScanStep pre x0 x1) (zseq y n) st).
Proof.
  induction n as [| n IH]; intros y st Hy Hst.
  - cbn. now rewrite Z.add_0_r.
  - cbn [zseq fold_left]. replace (y + Z.of_nat (S n)) with (y + 1 + Z.of_nat n) by lia.
    apply IH; [lia |]. now apply tickScanStep_ordered.
Qed.

End OrderedScan.

Lemma dedupeStep_last (out : list Z) (y : Z) :
  dedupeStep out y = out \/
  (dedupeStep out y = out ++ [y] /\
   forall front l, out = front ++ [l] -> 10 < Z.abs (y - l)).
Proof.
  unfold dedupeStep. destruct (rev out) as [| l r] eqn:Er.
  - right. split; [reflexivity |]. intros front l ->. rewrite rev_app_distr in Er.
    discriminate.
  - destruct (10 <? Z.abs (y - l)) eqn:E; [| now left].
    right. split; [reflexivity |]. intros front l' ->. rewrite rev_app_distr in Er.
    injection Er as <- _. now apply Z.ltb_lt.
Qed.

Lemma SpacedTicks_snoc (out : list Z) (y : Z) :
  SpacedTicks out -> (forall front l, out = front ++ [l] -> l + 10 < y) ->
  SpacedTicks (out ++ [y]).
Proof.
  intros Hs Hl. unfold SpacedTicks in *.
  destruct out as [| a t]; [constructor |].
  destruct (exists_last (l := a :: t)) as (front & l & E); [discriminate |].
  rewrite E in *. rewrite adjacent_snoc. apply Forall_app. split; [exact Hs |].
  constructor; [| constructor]. cbn [fst snd]. now apply (Hl front).
Qed.

Lemma dedupe_fold_spaced (ticks : list Z) : forall out,
  StronglySorted Z.lt ticks ->
  (forall o t, In o out -> In t ticks -> o < t) ->
  SpacedTicks out ->
  SpacedTicks (fold_left dedupeStep ticks out)
  /\ forall t, In t (fold_left dedupeStep ticks out) -> In t out \/ In t ticks.
Proof.
  induction ticks as [| y rest IH]; intros out Hs Hlt Hsp.
  - cbn. split; [exact Hsp | now left].
  - inversion Hs as [| ? ? Hs' Hy]; subst. cbn [fold_left].
    destruct (dedupeStep_last out y) as [-> | [-> Hgap]].
    + destruct (IH out Hs') as [H1 H2]; [| exact Hsp |].
      * intros o t Ho Ht. apply Hlt; [exact Ho | now right].
      * split; [exact H1 |]. intros t Ht. destruct (H2 t Ht); [now left | right; now right].
    + destruct (IH (out ++ [y]) Hs') as [H1 H2].
      * intros o t Ho Ht. apply in_app_or in Ho. destruct Ho as [Ho | [<- | []]].
        -- apply Hlt; [exact Ho | now right].
        -- rewrite Forall_forall in Hy. now apply Hy.
      * apply SpacedTicks_snoc; [exact Hsp |]. intros front l Hout.
        specialize (Hgap front l Hout).
        assert (l < y) by (apply Hlt; [subst; apply in_or_app; right; now left | now left]).
        lia.
      * split; [exact H1 |]. intros t Ht. destruct (H2 t Ht) as [Ho | Hr].
        -- apply in_app_or in Ho. destruct Ho as [Ho | [<- | []]];
             [now left | right; now left].
        -- right. now right.
Qed.

(** X8: the raw ticks detectTimeTicksFromLeftLane returns lie from the top
    pad (row 6) to before the bottom pad (row h - 6), and consecutive
    ticks lie more than 10 rows apart, so that they increase strictly. *)
Theorem detected_ticks_spaced (pre : Pre) (lane : LaneFrac) :
  let ticks := detectTimeTicksFromLeftLane pre lane in
  Forall (fun t => 6 <= t < pre_h pre - 6) ticks /\ SpacedTicks ticks.
Proof.
  cbv zeta. unfold detectTimeTicksFromLeftLane. cbv zeta.
  set (x0 := clamp _ 0 _). set (x1 := clamp _ (x0 + 1) _).
  set (h := pre_h pre).
  set (st := fold_left (tickScanStep pre x0 x1) (range 6 (h - 6)) (mkTickScan [] false 0)).
  set (scanned := if ts_inBlack st then _ else ts_ticks st).
  assert (Hsc : StronglySorted Z.lt scanned /\ Forall (fun t => 6 <= t < h - 6) scanned).
  { destruct (Z.le_gt_cases (h - 6) 6) as [Hsmall | Hbig].
    - assert (Est : st = mkTickScan [] false 0).
      { unfold st, range. replace (Z.to_nat (h - 6 - 6)) with 0%nat by lia. reflexivity. }
      unfold scanned. rewrite Est. cbn. split; constructor.
    - assert (Hinv : scanOrdered (6 + Z.of_nat (Z.to_nat (h - 6 - 6))) st).
      { unfold st, range. apply tickScan_fold_ordered; [lia |].
        split; [constructor | split; [constructor | discriminate]]. }
      replace (6 + Z.of_nat (Z.to_nat (h - 6 - 6))) with (h - 6) in Hinv by lia.
      destruct Hinv as (Hs & Hb & Hr). unfold scanned.
      destruct (ts_inBlack st) eqn:Eb.
      + specialize (Hr eq_refl).
        destruct (2 <=? h - 6 - ts_runStart st) eqn:E2.
        * apply Z.leb_le in E2. split.
          -- apply StronglySorted_snoc; [exact Hs |].
             eapply Forall_impl; [| exact Hb]. cbn beta. intros t Ht. lia.
          -- apply Forall_app. split.
             ++ eapply Forall_impl; [| exact Hb]. cbn beta. intros t Ht. lia.
             ++ constructor; [lia | constructor].
        * split; [exact Hs |].
          eapply Forall_impl; [| exact Hb]. cbn beta. intros t Ht. lia.
      + split; [exact Hs | exact Hb]. }
  destruct Hsc as [Hs Hb].
  destruct (dedupe_fold_spaced scanned [] Hs) as [H1 H2];
    [intros o t [] | constructor |].
  split; [| exact H1].
  apply Forall_forall. intros t Ht. destruct (H2 t Ht) as [[] | Hin].
  rewrite Forall_forall in Hb. now apply Hb.
Qed.

(** ** The lane choice *)

Lemma pickLaneLoop_choice (pre : Pre) (rest : list LaneFrac) :
  forall before b after,
  Forall (fun l => (laneScore pre l < laneScore pre b)%nat) before ->
  Forall (fun l => (laneScore pre l <= laneScore pre b)%nat) after ->
  Forall (fun l => (laneScore pre l < 8)%nat) (before ++ b :: after) ->
  exists chosen,
    pickLaneLoop pre rest (Some (b, laneScore pre b)) = Some (chosen, laneScore pre chosen)
    /\ LaneChoice pre ((before ++ b :: after) ++ rest) chosen.
Proof.
  induction rest as [| lane rest IH]; intros before b after Hb Ha H8.
  - exists b. split; [reflexivity |]. rewrite app_nil_r. exists before, after.
    split; [reflexivity |]. split.
    + apply Forall_forall. intros l Hl. rewrite Forall_forall in Hb, H8.
      split; [now apply Hb | apply H8, in_or_app; now left].
    + right. apply Forall_forall. intros l Hl. rewrite Forall_forall in Ha, H8.
      split; [now apply Ha | apply H8, in_or_app; right; now right].
  - cbn [pickLaneLoop]. fold (laneScore pre lane).
    destruct (8 <=? laneScore pre lane)%nat eqn:E8.
    + apply Nat.leb_le in E8. exists lane. split; [reflexivity |].
      exists (before ++ b :: after), rest. split; [reflexivity |]. split; [| now left].
      eapply Forall_impl; [| exact H8]. cbn beta. intros l Hl. lia.
    + apply Nat.leb_gt in E8.
      destruct (laneScore pre b <? laneScore pre lane)%nat eqn:Elt.
      * apply Nat.ltb_lt in Elt.
        destruct (IH (before ++ b :: after) lane []) as (chosen & Hc & Hch).
        -- apply Forall_app. split.
           ++ eapply Forall_impl; [| exact Hb]. cbn beta. intros l Hl. lia.
           ++ constructor; [exact Elt |].
              eapply Forall_impl; [| exact Ha]. cbn beta. intros l Hl. lia.
        -- constructor.
        -- apply Forall_app. split; [exact H8 | constructor; [exact E8 | constructor]].
        -- exists chosen. split; [exact Hc |].
           replace ((before ++ b :: after) ++ lane :: rest)
             with (((before ++ b :: after) ++ [lane]) ++ rest)
             by (rewrite <- app_assoc; reflexivity).
           exact Hch.
      * apply Nat.ltb_ge in Elt.
        destruct (IH before b (after ++ [lane])) as (chosen & Hc & Hch).
        -- exact Hb.
        -- apply Forall_app. split; [exact Ha | constructor; [exact Elt | constructor]].
        -- replace (before ++ b :: after ++ [lane]) with ((before ++ b :: after) ++ [lane])
             by (rewrite <- app_assoc; reflexivity).
           apply Forall_app. split; [exact H8 | constructor; [exact E8 | constructor]].
        -- exists chosen. split; [exact Hc |].
           replace ((before ++ b :: after) ++ lane :: rest)
             with ((before ++ b :: after ++ [lane]) ++ rest)
             by (rewrite <- !app_assoc; cbn; rewrite <- app_assoc; reflexivity).
           exact Hch.
Qed.

(** X9: pickBestTickLane returns one of the five default lanes: the first
    lane that gives at least 8 raw ticks, or, when none does, the first of
    the lanes that give the most. *)
Theorem pickBestTickLane_choice (pre : Pre) :
  LaneChoice pre defaultLanes (pickBestTickLane pre).
Proof.
  unfold pickBestTickLane, defaultLanes.
  set (l0 := mkLaneFrac (15 # 1000) (55 # 1000)).
  set (rest := [_; _; _; _]).
  cbn [pickLaneLoop]. fold (laneScore pre l0).
  destruct (8 <=? laneScore pre l0)%nat eqn:E8.
  - apply Nat.leb_le in E8. exists [], rest. split; [reflexivity |].
    split; [constructor | now left].
  - apply Nat.leb_gt in E8.
    destruct (pickLaneLoop_choice pre rest [] l0 []) as (chosen & Hc & Hch);
      [constructor | constructor | constructor; [exact E8 | constructor] |].
    rewrite Hc. exact Hch.
Qed.

(** ** The nearest raw tick, both ways *)

(** X10: nearestTickWithin returns a hit exactly for the nearest raw tick,
    from the start index on, within the snap window of the expected
    position (the first of the equally near ones), with that tick's row,
    index and distance; and it returns nothing only when no such tick lies
    within the window. *)
Theorem nearestTickWithin_char (raw : list Z) (e : Q) (snap : Z) (from : nat) :
  match nearestTickWithin raw e snap from with
  | Some b =>
      hit_y b = nthZ raw (hit_idx b) /\ hit_dist b = dist raw e (hit_idx b) /\
      NearestHit raw e snap from (hit_idx b)
  | None => NoHit raw e snap from
  end.
Proof.
  unfold nearestTickWithin.
  pose proof (nearestLoop_inv raw e snap from (skipn from raw) from None eq_refl
                (Nat.le_refl _)) as Hinv.
  assert (H0 : nearestInv raw e snap from from None) by (intros k Hk; lia).
  specialize (Hinv H0).
  destruct (nearestLoop _ _ _ _ _) as [b |]; cbn [nearestInv] in Hinv.
  - destruct Hinv as (Hy & Hd & Hr & Hl & Hw & Hmin).
    split; [exact Hy |]. split; [exact Hd |].
    split; [lia |]. split; [exact Hw | exact Hmin].
  - exact Hinv.
Qed.

(** ** Validated ticks are raw ticks *)

Lemma GreedyChain_indices (raw : list Z) (dy : Q) (snap : Z) (e : Q) (from : nat)
    (ch : list Z) :
  GreedyChain raw dy snap e from ch ->
  exists idxs, ch = map (nthZ raw) idxs /\ StronglySorted Nat.lt idxs /\
               Forall (fun i => (from <= i < length raw)%nat) idxs.
Proof.
  induction 1 as [e from Hno | e from j rest Hhit Hch (idxs & -> & Hs & Hb)].
  - exists []. repeat split; constructor.
  - exists (j :: idxs). split; [reflexivity |]. destruct Hhit as (Hj & _). split.
    + constructor; [exact Hs |].
      eapply Forall_impl; [| exact Hb]. cbn beta. intros i Hi. lia.
    + constructor; [lia |].
      eapply Forall_impl; [| exact Hb]. cbn beta. intros i Hi. lia.
Qed.

(** X11: the ticks of a successful validation are raw ticks, taken at
    strictly increasing indices, and there are at least 6 of them. *)
Theorem validated_ticks_are_raw_ticks (raw : list Z) (v : TickValidation) :
  validateTicksFromFirst raw = Some v -> tv_ok v = true ->
  exists idxs,
    tv_ticks v = map (nthZ raw) idxs /\ StronglySorted Nat.lt idxs /\
    Forall (fun i => (i < length raw)%nat) idxs /\ (6 <= length idxs)%nat.
Proof.
  intros Hv Hok.
  destruct (validate_ok_inv raw v Hv Hok) as (dy & c & rest & Hdy & Hm & Hr & _ & Hc & Hlen).
  destruct (validateTicksFromFirst_outcome raw) as (r & Hr' & Hfail & Hsucc).
  rewrite Hv in Hr'. injection Hr' as <-.
  destruct (Hsucc dy Hlen Hm Hr) as (_ & (c0 & Hc0 & rest0 & Ht & Hg) & Hmax).
  destruct (GreedyChain_indices _ _ _ _ _ _ Hg) as (idxs & -> & Hs & Hb).
  assert (Hc0l : (c0 < length raw)%nat).
  { destruct Hc0 as [(_ & Hl & _) | [-> _]]; lia. }
  exists (c0 :: idxs). split; [exact Ht |]. split; [| split].
  - constructor; [exact Hs |].
    eapply Forall_impl; [| exact Hb]. cbn beta. intros i Hi. lia.
  - constructor; [exact Hc0l |].
    eapply Forall_impl; [| exact Hb]. cbn beta. intros i Hi. lia.
  - destruct (Nat.lt_ge_cases (length (c0 :: idxs)) 6) as [Hshort | Hge]; [| exact Hge].
    exfalso. assert (Hf : tv_ok v = false); [| congruence].
    apply Hfail. right. right. intros dy1 c1 ch1 Hm1 Hc1 Hch1.
    rewrite Hm in Hm1. injection Hm1 as <-.
    specialize (Hmax c1 ch1 Hc1 Hch1). rewrite Ht in Hmax.
    cbn [length] in *. rewrite length_map in Hmax. lia.
Qed.

Lemma validated_ticks_are_raw_ticks_witness :
  exists idxs,
    [10; 22; 34; 46; 58; 70] = map (nthZ [10; 22; 34; 46; 58; 70]) idxs /\
    StronglySorted Nat.lt idxs /\
    Forall (fun i => (i < 6)%nat) idxs /\ (6 <= length idxs)%nat.
Proof.
  apply (validated_ticks_are_raw_ticks [10; 22; 34; 46; 58; 70]
           (mkTickValidation true [10; 22; 34; 46; 58; 70] (Some 12%Q) 4 0 "ok"));
    vm_compute; reflexivity.
Defined.

(** ** What the ladder reads of the validated ticks *)

Lemma ladderStep_extends trim pre win dy snapWin opts (st : LadderState) :
  match ladderStep trim pre win dy snapWin opts st with
  | Continue st1 => exists more, ls_out st1 = ls_out st ++ more
  | Break out _ => exists more, out = ls_out st ++ more
  | Throw _ => True
  end.
Proof.
  unfold ladderStep, terminalStep.
  repeat match goal with
         | |- context [if ?c then _ else _] => destruct c
         | |- context [match ?x with Some _ => _ | None => _ end] => destruct x
         | |- context [hasRowLikeStructure ?t ?p ?y ?r ?d] =>
             destruct (hasRowLikeStructure t p y r d) as [[|] | m]
         end; cbn [ls_out];
    first [exact I | exists []; now rewrite app_nil_r | eexists; reflexivity].
Qed.

Lemma ladderLoop_extends trim pre win dy snapWin opts (fuel : nat) : forall steps st,
  match fst (ladderLoop trim fuel pre win dy snapWin opts steps st) with
  | Returned (out, _) => exists more, out = ls_out st ++ more
  | Thrown _ => True
  end.
Proof.
  induction fuel as [| k IH]; intros steps st.
  - exists []. now rewrite app_nil_r.
  - cbn [ladderLoop].
    pose proof (ladderStep_extends trim pre win dy snapWin opts st) as Hs.
    destruct (ladderStep _ _ _ _ _ _ _) as [st1 | out reason | m].
    + destruct Hs as (m1 & E1). specialize (IH (S steps) st1).
      destruct (fst (ladderLoop trim k pre win dy snapWin opts (S steps) st1))
        as [[out r] | m]; [| exact I].
      destruct IH as (m2 & ->). exists (m1 ++ m2). rewrite E1. now rewrite app_assoc.
    + destruct Hs as (m1 & ->). exists m1. reflexivity.
    + exact I.
Qed.

(** X12: of at least two validated ticks the ladder reads the first only:
    when it returns, its ticks start with that tick and it is ok exactly
    when it added one; and any other list of at least two ticks with the
    same first tick gives the same ladder, or the same exception. *)
Theorem ladder_reads_first_tick_only
    (trim : option TrimFunction)
    (pre : Pre) (win : Window) (vTicks : list Z) (dy : Q) (opts : LadderOpts) :
  (2 <= length vTicks)%nat ->
  match buildGlobalTickLadder trim pre win vTicks dy opts with
  | Returned g =>
      exists more,
        lr_ticks g = nthZ vTicks 0 :: more /\ lr_ok g = (1 <=? length more)%nat
  | Thrown _ => True
  end /\
  (forall other,
     (2 <= length other)%nat -> nthZ other 0 = nthZ vTicks 0 ->
     buildGlobalTickLadder trim pre win other dy opts
     = buildGlobalTickLadder trim pre win vTicks dy opts).
Proof.
  intro Hlen. split.
  - unfold buildGlobalTickLadder.
    replace (length vTicks <? 2)%nat with false by (symmetry; apply Nat.ltb_ge; lia).
    cbv zeta.
    pose proof (ladderLoop_extends trim pre win dy (ladderSnapWin dy) opts maxSteps 0
                  (mkLadderState [nthZ vTicks 0] (inject_Z (nthZ vTicks 0)) 0 false)) as E.
    destruct (fst (ladderLoop _ _ _ _ _ _ _ _ _)) as [[out reason] | m]; [| exact I].
    cbn [ls_out] in E. destruct E as (more & ->).
    exists more. cbn [lr_ticks lr_ok app length]. split; reflexivity.
  - intros other Hl Hh. unfold buildGlobalTickLadder.
    replace (length vTicks <? 2)%nat with false by (symmetry; apply Nat.ltb_ge; lia).
    replace (length other <? 2)%nat with false by (symmetry; apply Nat.ltb_ge; lia).
    cbv zeta. rewrite Hh. reflexivity.
Qed.

Lemma ladder_reads_first_tick_only_witness :
  (2 <= length [10; 22])%nat /\
  (match buildGlobalTickLadder Fixtures.noTrim Fixtures.preC Fixtures.emptyWindow
           [10; 22] 12 (mkLadderOpts [] None None) with
   | Returned g =>
       exists more,
         lr_ticks g = nthZ [10; 22] 0 :: more /\ lr_ok g = (1 <=? length more)%nat
   | Thrown _ => True
   end /\
   (forall other,
      (2 <= length other)%nat -> nthZ other 0 = nthZ [10; 22] 0 ->
      buildGlobalTickLadder Fixtures.noTrim Fixtures.preC Fixtures.emptyWindow other 12
                            (mkLadderOpts [] None None)
      = buildGlobalTickLadder Fixtures.noTrim Fixtures.preC Fixtures.emptyWindow
                              [10; 22] 12 (mkLadderOpts [] None None))).
Proof.
  split; [cbn; lia |].
  apply (ladder_reads_first_tick_only Fixtures.noTrim Fixtures.preC Fixtures.emptyWindow
           [10; 22] 12 (mkLadderOpts [] None None)).
  cbn. lia.
Defined.

(** ** Frozen regions *)

Lemma insertAsc_perm (x : Z) (l : list Z) : Permutation (x :: l) (insertAsc x l).
Proof.
  induction l as [| y t IH]; cbn; [apply Permutation_refl |].
  destruct (x <? y); [apply Permutation_refl |].
  eapply perm_trans; [apply perm_swap | now apply perm_skip].
Qed.

Lemma sortAsc_perm (l : list Z) : Permutation l (sortAsc l).
Proof.
  induction l as [| x t IH]; cbn; [constructor |].
  eapply perm_trans; [apply perm_skip, IH | apply insertAsc_perm].
Qed.

Lemma insertAsc_ascending (x : Z) (l : list Z) :
  StronglySorted Z.le l -> StronglySorted Z.le (insertAsc x l).
Proof.
  induction l as [| y t IH]; intro Hs; cbn.
  - constructor; constructor.
  - inversion Hs as [| ? ? Hst Hall]; subst.
    destruct (x <? y) eqn:E.
    + apply Z.ltb_lt in E. constructor; [exact Hs |].
      constructor; [lia |]. eapply Forall_impl; [| exact Hall]. cbn beta. intros; lia.
    + apply Z.ltb_ge in E. constructor; [now apply IH |].
      eapply Permutation_Forall; [apply insertAsc_perm |]. constructor; assumption.
Qed.

Lemma sortAsc_ascending (l : list Z) : StronglySorted Z.le (sortAsc l).
Proof.
  induction l as [| x t IH]; cbn; [constructor | now apply insertAsc_ascending].
Qed.

(** X13: from any six divider positions freezeDayRegionsFromDividers
    succeeds; its positions are the six sorted; its regions are Monday to
    Friday in this order, each from one position to the next, so that no
    region has its right edge left of its left edge and each region starts
    where the one before ends.  It fails without positions that are ok, and
    for any other count. *)
Theorem frozen_regions_are_contiguous (ok : bool) (dxs : list Z) :
  let r := freezeDayRegionsFromDividers ok dxs in
  (ok = false -> fr_ok r = false /\ fr_reason r = "no dividers"%string) /\
  (ok = true -> length dxs <> 6%nat ->
   fr_ok r = false /\ fr_reason r = "bad divider count"%string) /\
  (ok = true -> length dxs = 6%nat ->
   fr_ok r = true /\ Permutation dxs (fr_xs r) /\ StronglySorted Z.le (fr_xs r) /\
   fr_regions r = regionsBetween (fr_xs r) /\
   map fst (fr_regions r) = WEEKDAYS /\
   Forall (fun d => dr_x0 (snd d) <= dr_x1 (snd d)) (fr_regions r) /\
   Forall (fun p => dr_x1 (snd (fst p)) = dr_x0 (snd (snd p)))
          (combine (fr_regions r) (tl (fr_regions r)))).
Proof.
  cbv zeta. unfold freezeDayRegionsFromDividers. split; [| split].
  - intros ->. split; reflexivity.
  - intros -> Hl. cbn [negb]. rewrite sortAsc_length.
    replace (length dxs =? 6)%nat with false by (symmetry; apply Nat.eqb_neq; exact Hl).
    split; reflexivity.
  - intros -> Hl. cbn [negb]. rewrite sortAsc_length, Hl. cbn [Nat.eqb negb fr_ok fr_xs fr_regions].
    pose proof (sortAsc_ascending dxs) as Hs. pose proof (sortAsc_perm dxs) as Hp.
    pose proof (sortAsc_length dxs) as Hsl. rewrite Hl in Hsl.
    destruct (sortAsc dxs) as [| a [| b [| c [| d [| e [| f [| g t]]]]]]]; try discriminate.
    split; [reflexivity |]. split; [exact Hp |]. split; [exact Hs |].
    split; [reflexivity |]. split; [reflexivity |].
    repeat match goal with
           | H : StronglySorted _ (_ :: _) |- _ => inversion H; clear H; subst
           | H : Forall _ (_ :: _) |- _ => inversion H; clear H; subst
           end.
    split; repeat constructor; cbn; lia.
Qed.

(** ** The fractions of a classification *)

Lemma countIf_le (f g : Pixel -> bool) (l : list Pixel) :
  (forall p, f p = true -> g p = true) -> countIf f l <= countIf g l.
Proof.
  intro H. induction l as [| p t IH]; [unfold countIf; cbn [filter length]; lia |].
  rewrite !countIf_cons. specialize (H p).
  destruct (f p), (g p); first [lia | discriminate (H eq_refl)].
Qed.

Lemma countIf_disjoint (f g : Pixel -> bool) (l : list Pixel) :
  (forall p, f p = true -> g p = false) ->
  countIf f l + countIf g l <= Z.of_nat (length l).
Proof.
  intro H. induction l as [| p t IH]; [unfold countIf; cbn [filter length]; lia |].
  rewrite !countIf_cons. specialize (H p). cbn [length].
  destruct (f p), (g p); first [lia | discriminate (H eq_refl)].
Qed.

Lemma frac140_le (a b : Z) : a <= b -> (frac a 140 <= frac b 140)%Q.
Proof.
  intro H. unfold frac, Qdiv. apply Qmult_le_compat_r; [now apply Zle_Q | discriminate].
Qed.

Lemma frac140_sum (a b : Z) : a + b <= 140 -> (frac a 140 + frac b 140 <= 1)%Q.
Proof.
  intro H. apply Zle_Q in H. revert H. push_inj. unfold frac.
  change (inject_Z 140) with 140%Q. intro H.
  change (inject_Z a / 140)%Q with (inject_Z a * (1 # 140))%Q.
  change (inject_Z b / 140)%Q with (inject_Z b * (1 # 140))%Q. lra.
Qed.

(** X14: for a cell with a proper region and band, the occupied fraction
    classifySlotSample returns is at most the ink fraction, and at most one
    less the background fraction; every fraction lies in [0, 1]; and so the
    majority rule decides nothing of its own: free is (bgFrac >= 0.82) or
    (bgFrac >= 0.55 and inkFrac <= 0.12), whatever the occupied fraction. *)
Theorem majority_rule_is_subsumed (rand : nat -> Q) (pre : Pre) (slot : SlotBand)
    (region : DayRegion) (bg : BackgroundColor) (n : nat) :
  dr_x0 region < dr_x1 region -> yStart slot < yEnd slot ->
  exists free bgFrac inkFrac purpleFrac occupiedFrac,
    fst (classifySlotSample rand pre slot region bg n)
    = ClassifyOk free bgFrac inkFrac purpleFrac occupiedFrac /\
    (occupiedFrac <= inkFrac)%Q /\ (bgFrac + occupiedFrac <= 1)%Q /\
    (0 <= bgFrac <= 1)%Q /\ (0 <= inkFrac <= 1)%Q /\ (0 <= purpleFrac <= 1)%Q /\
    (0 <= occupiedFrac)%Q /\
    free = Qle_bool (82 # 100) bgFrac
           || (Qle_bool (55 # 100) bgFrac && Qle_bool inkFrac (12 # 100)).
Proof.
  intros Hx Hy.
  set (px := samplesOf rand pre (insetRect pre slot region) 140 n).
  assert (Hlen : length px = 140%nat) by apply samplesOf_length.
  unfold classifySlotSample.
  replace (dr_x1 region <=? dr_x0 region) with false by (symmetry; apply Z.leb_gt; lia).
  replace (yEnd slot <=? yStart slot) with false by (symmetry; apply Z.leb_gt; lia).
  rewrite classifyLoop_spec. cbv zeta.
  cbn [bgCount nonWhiteCount purpleCount occupiedCount]. rewrite !Z.add_0_l. fold px.
  assert (Hoi : (frac (countIf (isOccupied bg) px) 140 <= frac (countIf isNonWhite px) 140)%Q).
  { apply frac140_le, countIf_le. intros p Hp. unfold isOccupied in Hp.
    apply andb_true_iff in Hp. destruct Hp as [Hp _].
    apply andb_true_iff in Hp. now destruct Hp. }
  assert (Hbo : (frac (countIf (fun p => isBgMatch p bg) px) 140
                 + frac (countIf (isOccupied bg) px) 140 <= 1)%Q).
  { apply frac140_sum.
    pose proof (countIf_disjoint (fun p => isBgMatch p bg) (isOccupied bg) px) as Hd.
    rewrite Hlen in Hd. apply Hd. intros p Hp. unfold isOccupied. rewrite Hp.
    cbn. now rewrite andb_false_r. }
  assert (Hrange : forall f, (0 <= frac (countIf f px) 140 <= 1)%Q).
  { intro f. pose proof (countIf_bounds f px) as [H0 H1]. rewrite Hlen in H1.
    split.
    - apply Qle_trans with (frac 0 140); [discriminate | now apply frac140_le].
    - apply Qle_trans with (frac 140 140); [now apply frac140_le | discriminate]. }
  destruct (Qle_bool (50 # 100) (frac (countIf (isOccupied bg) px) 140)) eqn:Eo.
  - apply Qle_bool_iff in Eo. do 5 eexists. cbn [fst]. split; [reflexivity |].
    split; [exact Hoi |]. split; [exact Hbo |].
    split; [apply Hrange |]. split; [apply Hrange |]. split; [apply Hrange |].
    split; [apply Hrange |].
    symmetry. apply orb_false_iff. split.
    + apply not_true_is_false. intro Ht. apply Qle_bool_iff in Ht. lra.
    + apply andb_false_iff. left. apply not_true_is_false. intro Ht.
      apply Qle_bool_iff in Ht. lra.
  - do 5 eexists. cbn [fst]. split; [reflexivity |].
    split; [exact Hoi |]. split; [exact Hbo |].
    split; [apply Hrange |]. split; [apply Hrange |]. split; [apply Hrange |].
    split; [apply Hrange | reflexivity].
Qed.

Lemma majority_rule_is_subsumed_witness :
  exists free bgFrac inkFrac purpleFrac occupiedFrac,
    fst (classifySlotSample Fixtures.draws Fixtures.preA (mkSlotBand 48 57 46 57)
           (mkDayRegion 77 125)
           (mkBackgroundColor (Some 255) (Some 255) (Some 255) 34) 0)
    = ClassifyOk free bgFrac inkFrac purpleFrac occupiedFrac /\
    (occupiedFrac <= inkFrac)%Q /\ (bgFrac + occupiedFrac <= 1)%Q /\
    (0 <= bgFrac <= 1)%Q /\ (0 <= inkFrac <= 1)%Q /\ (0 <= purpleFrac <= 1)%Q /\
    (0 <= occupiedFrac)%Q /\
    free = Qle_bool (82 # 100) bgFrac
           || (Qle_bool (55 # 100) bgFrac && Qle_bool inkFrac (12 # 100)).
Proof.
  exact (majority_rule_is_subsumed Fixtures.draws Fixtures.preA (mkSlotBand 48 57 46 57)
           (mkDayRegion 77 125) (mkBackgroundColor (Some 255) (Some 255) (Some 255) 34) 0
           eq_refl eq_refl).
Defined.

(** ** The two spill policies *)

Lemma classifyCell_policies rand pre bg region slot n :
  let a := classifyCell rand pre bg SpillNone region slot n in
  let b := classifyCell rand pre bg SoftFree region slot n in
  snd a = snd b /\ cell_work (fst a) = cell_work (fst b) /\
  (cell_avail (fst a) = true -> cell_avail (fst b) = true).
Proof.
  cbv zeta. unfold classifyCell.
  destruct (measurePurpleFrac _ _ _ _ _) as [pf n1].
  destruct (Qle_bool (18 # 100) pf); [repeat split |].
  destruct (classifySlotSample _ _ _ _ _ _) as [[free0 ? ? ? ? | reason] n2]; cbn.
  - split; [reflexivity |]. split; [reflexivity |]. intros ->. reflexivity.
  - repeat split. discriminate.
Qed.

Lemma classifySlots_policies rand pre bg region (slots : list SlotBand) : forall n,
  let a := classifySlots rand pre bg SpillNone region slots n in
  let b := classifySlots rand pre bg SoftFree region slots n in
  snd a = snd b /\ snd (fst a) = snd (fst b) /\
  length (fst (fst a)) = length slots /\ length (fst (fst b)) = length slots /\
  length (snd (fst a)) = length slots /\
  forall i, nth i (fst (fst a)) false = true -> nth i (fst (fst b)) false = true.
Proof.
  induction slots as [| s rest IH]; intro n; cbv zeta.
  - cbn. repeat split. intros i H. exact H.
  - cbn [classifySlots].
    pose proof (classifyCell_policies rand pre bg region s n) as Hc. cbv zeta in Hc.
    destruct (classifyCell rand pre bg SpillNone region s n) as [c0 m0].
    destruct (classifyCell rand pre bg SoftFree region s n) as [c1 m1].
    cbn [fst snd] in Hc. destruct Hc as (-> & Hw & Ha).
    specialize (IH m1). cbv zeta in IH.
    destruct (classifySlots rand pre bg SpillNone region rest m1) as [[a0 w0] k0].
    destruct (classifySlots rand pre bg SoftFree region rest m1) as [[a1 w1] k1].
    cbn [fst snd] in *. destruct IH as (-> & -> & L0 & L1 & L2 & Hn).
    rewrite Hw. cbn [length]. rewrite L0, L1, L2. repeat split.
    intros [| i]; cbn [nth]; [exact Ha | apply Hn].
Qed.

Lemma classifyDays_policies trim rand pre bg regions dXs slots (days : list Weekday) :
  forall n,
  match classifyDays trim rand pre bg SpillNone regions dXs slots days n,
        classifyDays trim rand pre bg SoftFree regions dXs slots days n with
  | (Some (d0, w0), n0), (Some (d1, w1), n1) =>
      n0 = n1 /\ w0 = w1 /\
      forall day i, gridAt d0 day i = true -> gridAt d1 day i = true
  | (None, n0), (None, n1) => n0 = n1
  | _, _ => False
  end.
Proof.
  induction days as [| d rest IH]; intro n.
  - cbn. repeat split. intros day i H. exact H.
  - cbn [classifyDays].
    assert (Hskip : forall m,
      match (match classifyDays trim rand pre bg SpillNone regions dXs slots rest m with
             | (Some (ds, ws), n1) => (Some ((d, @nil bool) :: ds, (d, @nil bool) :: ws), n1)
             | (None, n1) => (None, n1) end),
            (match classifyDays trim rand pre bg SoftFree regions dXs slots rest m with
             | (Some (ds, ws), n1) => (Some ((d, @nil bool) :: ds, (d, @nil bool) :: ws), n1)
             | (None, n1) => (None, n1) end) with
      | (Some (d0, w0), n0), (Some (d1, w1), n1) =>
          n0 = n1 /\ w0 = w1 /\
          forall day i, gridAt d0 day i = true -> gridAt d1 day i = true
      | (None, n0), (None, n1) => n0 = n1
      | _, _ => False
      end).
    { intro m. specialize (IH m).
      destruct (classifyDays trim rand pre bg SpillNone regions dXs slots rest m)
        as [[[d0 w0] |] n0];
        destruct (classifyDays trim rand pre bg SoftFree regions dXs slots rest m)
          as [[[d1 w1] |] n1]; try contradiction; [| exact IH].
      destruct IH as (-> & -> & Hg). repeat split.
      intros day i. unfold gridAt. cbn [lookupDay].
      destruct (weekday_eqb d day); [intro H; exact H | apply Hg]. }
    destruct (lookupDay regions d) as [rawRegion |]; [| apply Hskip].
    destruct (safeTrimDayRegion trim rawRegion dXs) as [region |].
    + pose proof (classifySlots_policies rand pre bg region slots n) as Hs. cbv zeta in Hs.
      destruct (classifySlots rand pre bg SpillNone region slots n) as [[a0 w0] m0].
      destruct (classifySlots rand pre bg SoftFree region slots n) as [[a1 w1] m1].
      cbn [fst snd] in Hs. destruct Hs as (-> & -> & _ & _ & _ & Hn).
      specialize (IH m1).
      destruct (classifyDays trim rand pre bg SpillNone regions dXs slots rest m1)
        as [[[d0 v0] |] n0];
        destruct (classifyDays trim rand pre bg SoftFree regions dXs slots rest m1)
          as [[[d1 v1] |] n1]; try contradiction; [| exact IH].
      destruct IH as (-> & -> & Hg). repeat split.
      intros day i. unfold gridAt. cbn [lookupDay].
      destruct (weekday_eqb d day); [apply Hn | apply Hg].
    + destruct slots; [apply Hskip | reflexivity].
Qed.

(** X15: the two spill policies draw the same pixels: on the same inputs
    they fail alike or both return a grid, after the same number of draws
    and with the same work marks, and every slot that is available without
    the spill rule is available with it. *)
Theorem soft_free_only_adds_availability
    (trim : option TrimFunction) (rand : nat -> Q)
    (pre : Pre) (nav : Nav) (win : Window) (n : nat) :
  match computeAvailFromFrozenNav trim rand pre nav SpillNone win n,
        computeAvailFromFrozenNav trim rand pre nav SoftFree win n with
  | (AvailOk g0, n0), (AvailOk g1, n1) =>
      n0 = n1 /\ av_workDays g0 = av_workDays g1 /\ av_slots g0 = av_slots g1 /\
      av_anchorStartTime g0 = av_anchorStartTime g1 /\
      forall day i, gridAt (av_days g0) day i = true -> gridAt (av_days g1) day i = true
  | (AvailFail r0, n0), (AvailFail r1, n1) => r0 = r1 /\ n0 = n1
  | (AvailThrow, n0), (AvailThrow, n1) => n0 = n1
  | _, _ => False
  end.
Proof.
  unfold computeAvailFromFrozenNav.
  destruct (dayRegions nav) as [regions |]; [| split; reflexivity].
  destruct (slotBands nav) as [[| s slots] |]; try (split; reflexivity).
  destruct (bgWhite nav) as [bg |]; [| split; reflexivity].
  destruct (negb (bgChannelsFinite bg)); [split; reflexivity |].
  pose proof (classifyDays_policies trim rand pre bg regions
                (match dividerXs nav with Some d => Some d | None => DIV_XS win end)
                (s :: slots) WEEKDAYS n) as H.
  destruct (classifyDays trim rand pre bg SpillNone regions _ (s :: slots) WEEKDAYS n)
    as [[[d0 w0] |] n0];
    destruct (classifyDays trim rand pre bg SoftFree regions _ (s :: slots) WEEKDAYS n)
      as [[[d1 w1] |] n1]; try contradiction; [| exact H].
  destruct H as (-> & -> & Hg). cbn [av_workDays av_slots av_anchorStartTime av_days].
  repeat split. exact Hg.
Qed.

(** ** The draws of an availability compute *)

(** X16: an availability compute uses at most 3000 draws per slot band
    (600 for each of the five days), never goes back in the stream, and
    uses none when it refuses the nav. *)
Theorem availability_draws_are_bounded
    (trim : option TrimFunction) (rand : nat -> Q)
    (pre : Pre) (nav : Nav) (policy : SpillPolicy) (win : Window) (n : nat) :
  let slots := match slotBands nav with Some s => length s | None => 0%nat end in
  let r := computeAvailFromFrozenNav trim rand pre nav policy win n in
  (n <= snd r <= n + 3000 * slots)%nat /\
  (forall reason, fst r = AvailFail reason -> snd r = n).
Proof.
  cbv zeta. unfold computeAvailFromFrozenNav.
  destruct (dayRegions nav) as [regions |];
    [| split; [cbn [snd]; lia | reflexivity]].
  destruct (slotBands nav) as [[| s slots] |];
    try (split; [cbn [snd]; lia | reflexivity]).
  destruct (bgWhite nav) as [bg |]; [| split; [cbn [snd]; lia | reflexivity]].
  destruct (negb (bgChannelsFinite bg)); [split; [cbn [snd]; lia | reflexivity] |].
  pose proof (classifyDays_draws trim rand pre bg policy regions
                (match dividerXs nav with Some d => Some d | None => DIV_XS win end)
                (s :: slots) WEEKDAYS n) as H.
  change (length WEEKDAYS) with 5%nat in H.
  destruct (classifyDays _ _ _ _ _ _ _ _ _ _) as [[[ds ws] |] n1]; cbn [fst snd] in *.
  - split; [lia | discriminate].
  - split; [lia | discriminate].
Qed.

(** ** The shape of the grid *)

Lemma classifyDays_shape trim rand pre bg policy regions dXs slots (days : list Weekday) :
  forall n ds ws n',
  classifyDays trim rand pre bg policy regions dXs slots days n = (Some (ds, ws), n') ->
  map fst ds = days /\ map fst ws = days /\
  Forall (fun d => length (snd d) = length slots
                   \/ (snd d = [] /\ lookupDay regions (fst d) = None)) ds /\
  Forall (fun d => length (snd d) = length slots
                   \/ (snd d = [] /\ lookupDay regions (fst d) = None)) ws.
Proof.
  induction days as [| d rest IH]; intros n ds ws n' H.
  - cbn in H. injection H as <- <- _. repeat split; constructor.
  - cbn [classifyDays] in H.
    destruct (lookupDay regions d) as [rawRegion |] eqn:El.
    + destruct (safeTrimDayRegion trim rawRegion dXs) as [region |].
      * pose proof (classifySlots_policies rand pre bg region slots n) as Hs.
        pose proof (classifySlots_policies rand pre bg region slots n) as Hs'.
        cbv zeta in Hs.
        destruct policy.
        -- destruct (classifySlots rand pre bg SpillNone region slots n) as [[a0 w0] m0].
           destruct Hs as (_ & _ & L0 & _ & L2 & _). cbn [fst snd] in L0, L2.
           destruct (classifyDays _ _ _ _ _ _ _ _ rest m0) as [[[ds0 ws0] |] n2] eqn:Er;
             [| discriminate].
           injection H as <- <- _.
           destruct (IH _ _ _ _ Er) as (H1 & H2 & H3 & H4). cbn [map fst].
           rewrite H1, H2. repeat split; constructor; cbn [snd fst]; auto.
        -- destruct (classifySlots rand pre bg SoftFree region slots n) as [[a1 w1] m1].
           destruct (classifySlots rand pre bg SpillNone region slots n) as [[a0 w0] m0].
           destruct Hs as (_ & Hw & _ & L1 & L2 & _). cbn [fst snd] in Hw, L1, L2.
           subst w1.
           destruct (classifyDays _ _ _ _ _ _ _ _ rest m1) as [[[ds0 ws0] |] n2] eqn:Er;
             [| discriminate].
           injection H as <- <- _.
           destruct (IH _ _ _ _ Er) as (H1 & H2 & H3 & H4). cbn [map fst].
           rewrite H1, H2. repeat split; constructor; cbn [snd fst]; auto.
      * destruct slots; [| discriminate].
        destruct (classifyDays _ _ _ _ _ _ _ _ rest n) as [[[ds0 ws0] |] n2] eqn:Er;
          [| discriminate].
        injection H as <- <- _.
        destruct (IH _ _ _ _ Er) as (H1 & H2 & H3 & H4). cbn [map fst].
        rewrite H1, H2. repeat split; constructor; cbn [snd fst]; auto.
    + destruct (classifyDays _ _ _ _ _ _ _ _ rest n) as [[[ds0 ws0] |] n2] eqn:Er;
        [| discriminate].
      injection H as <- <- _.
      destruct (IH _ _ _ _ Er) as (H1 & H2 & H3 & H4). cbn [map fst].
      rewrite H1, H2. repeat split; constructor; cbn [snd fst]; auto.
Qed.

(** X17: a grid the availability compute returns has the five weekdays in
    order, in both of its tables; its slot count is the number of slot
    bands, which is not zero; and the row of a day, in either table, has
    one entry per slot band, or is empty for a day the nav has no region
    for. *)
Theorem availability_grid_shape
    (trim : option TrimFunction) (rand : nat -> Q)
    (pre : Pre) (nav : Nav) (policy : SpillPolicy) (win : Window) (n : nat)
    (grid : AvailabilityGrid) (n' : nat) :
  computeAvailFromFrozenNav trim rand pre nav policy win n = (AvailOk grid, n') ->
  exists regions slots,
    dayRegions nav = Some regions /\ slotBands nav = Some slots /\
    av_slots grid = length slots /\ (0 < av_slots grid)%nat /\
    av_spillPolicy grid = policy /\ av_version grid = 1 /\
    map fst (av_days grid) = WEEKDAYS /\ map fst (av_workDays grid) = WEEKDAYS /\
    Forall (fun d => length (snd d) = length slots
                     \/ (snd d = [] /\ lookupDay regions (fst d) = None)) (av_days grid) /\
    Forall (fun d => length (snd d) = length slots
                     \/ (snd d = [] /\ lookupDay regions (fst d) = None))
           (av_workDays grid).
Proof.
  unfold computeAvailFromFrozenNav.
  destruct (dayRegions nav) as [regions |]; [| discriminate].
  destruct (slotBands nav) as [[| s slots] |]; try discriminate.
  destruct (bgWhite nav) as [bg |]; [| discriminate].
  destruct (negb (bgChannelsFinite bg)); [discriminate |].
  destruct (classifyDays _ _ _ _ _ _ _ _ _ _) as [[[ds ws] |] n1] eqn:Ed; [| discriminate].
  intros [= <- _]. exists regions, (s :: slots).
  destruct (classifyDays_shape _ _ _ _ _ _ _ _ _ _ _ _ _ Ed) as (H1 & H2 & H3 & H4).
  cbn [av_slots av_spillPolicy av_version av_days av_workDays length].
  repeat split; try assumption; try reflexivity; lia.
Qed.

Lemma blankPage_grid :
  fst (computeAvailFromFrozenNav Fixtures.noTrim Fixtures.halfDraws Fixtures.blankPage
         Fixtures.blankNav SoftFree Fixtures.emptyWindow 0)
  = AvailOk (mkAvailabilityGrid 1 "8:00 AM" 1
               [(Monday, [true]); (Tuesday, [true]); (Wednesday, [true]);
                (Thursday, [true]); (Friday, [true])]
               [(Monday, [false]); (Tuesday, [false]); (Wednesday, [false]);
                (Thursday, [false]); (Friday, [false])] SoftFree).
Proof. vm_compute. reflexivity. Qed.

Lemma availability_grid_shape_witness :
  exists grid (regions : DayRegions) (slots : list SlotBand),
    fst (computeAvailFromFrozenNav Fixtures.noTrim Fixtures.halfDraws Fixtures.blankPage
           Fixtures.blankNav SoftFree Fixtures.emptyWindow 0) = AvailOk grid /\
    av_slots grid = length slots /\ (0 < av_slots grid)%nat /\
    map fst (av_days grid) = WEEKDAYS /\
    Forall (fun d => length (snd d) = length slots
                     \/ (snd d = [] /\ lookupDay regions (fst d) = None)) (av_days grid).
Proof.
  pose proof blankPage_grid as Hg.
  destruct (computeAvailFromFrozenNav Fixtures.noTrim Fixtures.halfDraws Fixtures.blankPage
              Fixtures.blankNav SoftFree Fixtures.emptyWindow 0) as [r n'] eqn:E.
  cbn [fst] in Hg. subst r.
  destruct (availability_grid_shape _ _ _ _ _ _ _ _ _ E)
    as (regions & slots & _ & _ & H1 & H2 & _ & _ & H3 & _ & H4 & _).
  eexists. exists regions, slots. split; [reflexivity |]. repeat split; assumption.
Defined.

(** ** Prefix tables *)

Lemma toUint32_idem_l (a b : Z) : toUint32 (toUint32 a + b) = toUint32 (a + b).
Proof. unfold toUint32. apply Zplus_mod_idemp_l. Qed.

Lemma toUint32_combine (a b c d : Z) :
  toUint32 (toUint32 d - toUint32 b - toUint32 c + toUint32 a) = toUint32 (d - b - c + a).
Proof.
  unfold toUint32.
  rewrite (Z.mod_eq d two32), (Z.mod_eq b two32), (Z.mod_eq c two32), (Z.mod_eq a two32)
    by discriminate.
  replace (d - two32 * (d / two32) - (b - two32 * (b / two32))
           - (c - two32 * (c / two32)) + (a - two32 * (a / two32)))
    with (d - b - c + a + (b / two32 + c / two32 - d / two32 - a / two32) * two32) by ring.
  apply Z_mod_plus_full.
Qed.

Lemma sumZ_app (l1 l2 : list Z) : sumZ (l1 ++ l2) = sumZ l1 + sumZ l2.
Proof.
  induction l1 as [| a l IH]; cbn; [reflexivity | unfold sumZ in *; rewrite IH; lia].
Qed.

Lemma sumZ_map_add {A : Type} (f g : A -> Z) (l : list A) :
  sumZ (map (fun a => f a + g a) l) = sumZ (map f l) + sumZ (map g l).
Proof.
  induction l as [| a l IH]; cbn; [reflexivity | unfold sumZ in *; rewrite IH; lia].
Qed.

Lemma sumZ_map_bounds {A : Type} (f : A -> Z) (c : Z) (l : list A) :
  (forall a, 0 <= f a <= c) -> 0 <= sumZ (map f l) <= c * Z.of_nat (length l).
Proof.
  intro H. induction l as [| a l IH]; cbn [map sumZ fold_right length]; [lia |].
  fold (sumZ (map f l)). specialize (H a). nia.
Qed.

Lemma zseq_app (n m : nat) : forall lo,
  zseq lo (n + m) = zseq lo n ++ zseq (lo + Z.of_nat n) m.
Proof.
  induction n as [| n IH]; intro lo.
  - cbn. now rewrite Z.add_0_r.
  - cbn [Nat.add zseq app]. rewrite IH.
    replace (lo + Z.of_nat (S n)) with (lo + 1 + Z.of_nat n) by lia. reflexivity.
Qed.

Lemma range_split (a b c : Z) : a <= b <= c -> range a c = range a b ++ range b c.
Proof.
  intro H. unfold range.
  replace (Z.to_nat (c - a)) with (Z.to_nat (b - a) + Z.to_nat (c - b))%nat by lia.
  rewrite zseq_app. replace (a + Z.of_nat (Z.to_nat (b - a))) with b by lia. reflexivity.
Qed.

Lemma firstn_zseq (k n : nat) : forall lo, (k <= n)%nat -> firstn k (zseq lo n) = zseq lo k.
Proof.
  revert n. induction k as [| k IH]; intros n lo H; [reflexivity |].
  destruct n as [| n]; [lia |]. cbn. f_equal. apply IH. lia.
Qed.

Lemma firstn_range (k hi : Z) : 0 <= k <= hi -> firstn (Z.to_nat k) (range 0 hi) = range 0 k.
Proof.
  intro H. unfold range. rewrite firstn_zseq by lia. f_equal. lia.
Qed.

Lemma range_length (lo hi : Z) : length (range lo hi) = Z.to_nat (hi - lo).
Proof. unfold range. apply zseq_length. Qed.

(** *** The table, row by row *)

Lemma prefixRow_length (ms : list Z) : forall rs ps,
  length (Precompute.prefixRow ms rs ps) = Nat.min (length ms) (length ps).
Proof.
  induction ms as [| m ms IH]; intros rs [| p ps]; cbn [Precompute.prefixRow length Nat.min];
    try reflexivity.
  now rewrite IH.
Qed.

Lemma prefixRow_nth (ms : list Z) : forall rs ps k,
  (k < length ms)%nat -> (k < length ps)%nat ->
  nth k (Precompute.prefixRow ms rs ps) 0
  = toUint32 (nth k ps 0 + (rs + sumZ (firstn (S k) ms))).
Proof.
  induction ms as [| m ms IH]; intros rs [| p ps] k Hm Hp; cbn [length] in *; try lia.
  cbn [Precompute.prefixRow]. destruct k as [| k].
  - cbn [nth firstn sumZ fold_right]. f_equal; lia.
  - cbn [nth]. rewrite IH by lia.
    change (firstn (S (S k)) (m :: ms)) with (m :: firstn (S k) ms).
    cbn [sumZ fold_right]. fold (sumZ (firstn (S k) ms)). f_equal; lia.
Qed.

Lemma prefixRow_row (n : nat) (mr prev : list Z) (x : nat) :
  length prev = S n -> length mr = n -> nth 0 prev 0 = 0 -> (x <= n)%nat ->
  nth x (0 :: Precompute.prefixRow mr 0 (tl prev)) 0
  = toUint32 (nth x prev 0 + sumZ (firstn x mr)).
Proof.
  intros Hp Hm H0 Hx. destruct prev as [| p0 prev]; [discriminate |].
  cbn [length] in Hp. cbn [nth] in H0. subst p0. destruct x as [| x].
  - reflexivity.
  - cbn [nth tl]. rewrite prefixRow_nth by lia. f_equal; lia.
Qed.

Lemma colSum_cons (r : list Z) (rows : list (list Z)) (x : nat) :
  colSum (r :: rows) x = sumZ (firstn x r) + colSum rows x.
Proof. reflexivity. Qed.

Lemma prefixRows_nth (n : nat) (mrs : list (list Z)) : forall prev (base : nat -> Z),
  length prev = S n -> nth 0 prev 0 = 0 ->
  (forall x, (x <= n)%nat -> nth x prev 0 = toUint32 (base x)) ->
  Forall (fun r => length r = n) mrs ->
  forall y x, (y < length mrs)%nat -> (x <= n)%nat ->
  nth x (nth y (Precompute.prefixRows mrs prev) []) 0
  = toUint32 (base x + colSum (firstn (S y) mrs) x).
Proof.
  induction mrs as [| mr rest IH]; intros prev base Hp H0 Hb Hall y x Hy Hx;
    [cbn in Hy; lia |].
  inversion Hall as [| ? ? Hmr Hrest]; subst.
  cbn [Precompute.prefixRows].
  assert (Hrow : forall k, (k <= length mr)%nat ->
            nth k (0 :: Precompute.prefixRow mr 0 (tl prev)) 0
            = toUint32 (base k + sumZ (firstn k mr))).
  { intros k Hk. rewrite (prefixRow_row (length mr)) by (assumption || reflexivity).
    rewrite Hb by assumption. apply toUint32_idem_l. }
  set (row := 0 :: Precompute.prefixRow mr 0 (tl prev)) in *.
  destruct y as [| y].
  - cbn [nth]. rewrite Hrow by assumption.
    change (firstn 1 (mr :: rest)) with [mr]. rewrite colSum_cons. f_equal.
    unfold colSum. cbn. ring.
  - cbn [nth].
    rewrite (IH _ (fun k => base k + sumZ (firstn k mr))).
    + change (firstn (S (S y)) (mr :: rest)) with (mr :: firstn (S y) rest).
      rewrite colSum_cons. f_equal; lia.
    + unfold row. cbn [length]. rewrite prefixRow_length.
      destruct prev as [| p0 prev]; [discriminate |]. cbn [tl length] in *. lia.
    + reflexivity.
    + exact Hrow.
    + exact Hrest.
    + cbn [length] in Hy. lia.
    + exact Hx.
Qed.

Lemma table_nth (w : Z) (mrs : list (list Z)) (y x : nat) :
  0 <= w -> Forall (fun r => length r = Z.to_nat w) mrs ->
  (y <= length mrs)%nat -> (x <= Z.to_nat w)%nat ->
  nth x (nth y (Precompute.buildPrefixFromMask mrs w) []) 0
  = toUint32 (colSum (firstn y mrs) x).
Proof.
  intros Hw Hall Hy Hx. unfold Precompute.buildPrefixFromMask.
  replace (Z.to_nat (w + 1)) with (S (Z.to_nat w)) by lia.
  destruct y as [| y].
  - cbn [nth firstn]. rewrite nth_repeat. reflexivity.
  - cbn [nth].
    rewrite (prefixRows_nth (Z.to_nat w) mrs _ (fun _ => 0)); try assumption; try lia.
    + reflexivity.
    + apply repeat_length.
    + reflexivity.
    + intros k _. rewrite nth_repeat. reflexivity.
Qed.

Lemma readTable_at (rows : list (list Z)) (W x y : Z) :
  0 <= x < W -> 0 <= y ->
  Precompute.readTable rows W (y * W + x)
  = nth (Z.to_nat x) (nth (Z.to_nat y) rows []) 0.
Proof.
  intros Hx Hy. unfold Precompute.readTable.
  replace ((y * W + x <? 0) || (W <=? 0)) with false
    by (symmetry; apply orb_false_iff; split; [apply Z.ltb_ge; nia | apply Z.leb_gt; lia]).
  rewrite Z.add_comm, Z_mod_plus_full, Z.mod_small by lia.
  rewrite Z_div_plus_full, Z.div_small by lia. reflexivity.
Qed.

(** *** The entries as counts *)

Lemma colSum_rows (bit : Z -> Z -> Z) (w h x y : Z) :
  0 <= x <= w -> 0 <= y <= h ->
  colSum (firstn (Z.to_nat y) (map (fun y => map (fun x => bit x y) (range 0 w)) (range 0 h)))
         (Z.to_nat x)
  = boxCount bit 0 0 x y.
Proof.
  intros Hx Hy. unfold colSum, boxCount.
  rewrite firstn_map, firstn_range, map_map by assumption.
  f_equal. apply map_ext. intro r.
  now rewrite firstn_map, firstn_range.
Qed.

Lemma boxCount_split_x (bit : Z -> Z -> Z) (x0 xm x1 y0 y1 : Z) :
  x0 <= xm <= x1 ->
  boxCount bit x0 y0 x1 y1 = boxCount bit x0 y0 xm y1 + boxCount bit xm y0 x1 y1.
Proof.
  intro H. unfold boxCount. rewrite <- sumZ_map_add. f_equal. apply map_ext. intro y.
  rewrite (range_split x0 xm x1), map_app, sumZ_app by assumption. reflexivity.
Qed.

Lemma boxCount_split_y (bit : Z -> Z -> Z) (x0 x1 y0 ym y1 : Z) :
  y0 <= ym <= y1 ->
  boxCount bit x0 y0 x1 y1 = boxCount bit x0 y0 x1 ym + boxCount bit x0 ym x1 y1.
Proof.
  intro H. unfold boxCount.
  rewrite (range_split y0 ym y1), map_app, sumZ_app by assumption. reflexivity.
Qed.

Lemma boxCount_corners (bit : Z -> Z -> Z) (x0 y0 x1 y1 : Z) :
  0 <= x0 <= x1 -> 0 <= y0 <= y1 ->
  boxCount bit 0 0 x1 y1 - boxCount bit 0 0 x1 y0 - boxCount bit 0 0 x0 y1
  + boxCount bit 0 0 x0 y0
  = boxCount bit x0 y0 x1 y1.
Proof.
  intros Hx Hy.
  rewrite (boxCount_split_x bit 0 x0 x1 0 y1) by lia.
  rewrite (boxCount_split_x bit 0 x0 x1 0 y0) by lia.
  rewrite (boxCount_split_y bit x0 x1 0 y0 y1) by lia.
  ring.
Qed.

Lemma boxCount_bounds (bit : Z -> Z -> Z) (x0 y0 x1 y1 : Z) :
  (forall x y, 0 <= bit x y <= 1) -> x0 <= x1 -> y0 <= y1 ->
  0 <= boxCount bit x0 y0 x1 y1 <= (x1 - x0) * (y1 - y0).
Proof.
  intros Hb Hx Hy. unfold boxCount.
  pose proof (sumZ_map_bounds (fun y => sumZ (map (fun x => bit x y) (range x0 x1)))
                (x1 - x0) (range y0 y1)) as H.
  rewrite range_length in H. replace (Z.of_nat (Z.to_nat (y1 - y0))) with (y1 - y0) in H by lia.
  apply H. intro y.
  pose proof (sumZ_map_bounds (fun x => bit x y) 1 (range x0 x1) (fun x => Hb x y)) as Hr.
  rewrite range_length in Hr. lia.
Qed.

Lemma rectSum_of_table (bit : Z -> Z -> Z) (w h x0 y0 x1 y1 : Z) :
  (forall x y, 0 <= bit x y <= 1) ->
  0 < w -> 0 <= x0 <= x1 -> x1 <= w -> 0 <= y0 <= y1 -> y1 <= h ->
  (x1 - x0) * (y1 - y0) < two32 ->
  rectSum (Precompute.readTable
             (Precompute.buildPrefixFromMask
                (map (fun y => map (fun x => bit x y) (range 0 w)) (range 0 h)) w) (w + 1))
          (w + 1) x0 y0 x1 y1
  = boxCount bit x0 y0 x1 y1.
Proof.
  intros Hb Hw Hx Hxw Hy Hyh Harea. unfold rectSum. cbv zeta.
  assert (Hentry : forall x y, 0 <= x <= w -> 0 <= y <= h ->
            Precompute.readTable
              (Precompute.buildPrefixFromMask
                 (map (fun y => map (fun x => bit x y) (range 0 w)) (range 0 h)) w) (w + 1)
              (y * (w + 1) + x)
            = toUint32 (boxCount bit 0 0 x y)).
  { intros x y Hx' Hy'. rewrite readTable_at by lia.
    rewrite table_nth.
    - now rewrite colSum_rows.
    - lia.
    - apply Forall_forall. intros r Hr. apply in_map_iff in Hr.
      destruct Hr as (yy & <- & _). rewrite length_map, range_length. f_equal. lia.
    - rewrite length_map, range_length. lia.
    - lia. }
  rewrite !Hentry by lia. rewrite toUint32_combine.
  replace (boxCount bit 0 0 x1 y1 - boxCount bit 0 0 x1 y0 - boxCount bit 0 0 x0 y1
           + boxCount bit 0 0 x0 y0) with (boxCount bit x0 y0 x1 y1)
    by (symmetry; apply boxCount_corners; lia).
  unfold toUint32. apply Z.mod_small.
  pose proof (boxCount_bounds bit x0 y0 x1 y1 Hb) as H. lia.
Qed.

(** X18: the precompute of a canvas of w x h pixels succeeds and is stamped
    with the clock, and rectSum on its two prefix tables gives, for a box [x0,x1) x [y0,y1) inside the
    image of fewer than 2^32 pixels, the number of near-white pixels and the
    number of dark pixels of the box. *)
Theorem prefix_tables_count_pixels (w h : Z) (img : Z -> Z) (now : Z)
    (x0 y0 x1 y1 : Z) :
  0 < w -> 0 < h -> 0 <= x0 <= x1 -> x1 <= w -> 0 <= y0 <= y1 -> y1 <= h ->
  (x1 - x0) * (y1 - y0) < two32 ->
  exists pre,
    Precompute.buildPrecompute w h img now = Some pre /\
    pre_w pre = w /\ pre_h pre = h /\ pre_W pre = w + 1 /\ pre_ts pre = now /\
    rectSum (whiteP pre) (pre_W pre) x0 y0 x1 y1 = boxCount (whiteBit img w) x0 y0 x1 y1 /\
    rectSum (darkP pre) (pre_W pre) x0 y0 x1 y1 = boxCount (darkBit img w) x0 y0 x1 y1.
Proof.
  intros Hw Hh Hx Hxw Hy Hyh Harea. unfold Precompute.buildPrecompute.
  replace ((w <=? 0) || (h <=? 0)) with false
    by (symmetry; apply orb_false_iff; split; apply Z.leb_gt; lia).
  eexists. split; [reflexivity |]. cbn [pre_w pre_h pre_W pre_ts whiteP darkP].
  split; [reflexivity |]. split; [reflexivity |]. split; [reflexivity |].
  split; [reflexivity |].
  unfold Precompute.buildMasks. rewrite !map_map.
  split.
  - rewrite <- (rectSum_of_table (whiteBit img w) w h x0 y0 x1 y1); try assumption.
    + do 3 f_equal. apply map_ext. intro y. rewrite map_map. reflexivity.
    + intros x y. unfold whiteBit. cbv zeta. destruct (isNearWhite _ _ _); lia.
  - rewrite <- (rectSum_of_table (darkBit img w) w h x0 y0 x1 y1); try assumption.
    + do 3 f_equal. apply map_ext. intro y. rewrite map_map. reflexivity.
    + intros x y. unfold darkBit. cbv zeta. destruct (Qle_bool _ _); lia.
Qed.

Lemma prefix_tables_count_pixels_witness :
  exists pre,
    Precompute.buildPrecompute 14 11 (Fixtures.imgOf 14 (fun x y => if x <? 9 then Fixtures.white else Fixtures.black)) Fixtures.stamp = Some pre /\
    pre_w pre = 14 /\ pre_h pre = 11 /\ pre_W pre = 14 + 1 /\ pre_ts pre = Fixtures.stamp /\
    rectSum (whiteP pre) (pre_W pre) 7 2 12 6
    = boxCount (whiteBit (Fixtures.imgOf 14 (fun x y => if x <? 9 then Fixtures.white else Fixtures.black)) 14) 7 2 12 6 /\
    rectSum (darkP pre) (pre_W pre) 7 2 12 6
    = boxCount (darkBit (Fixtures.imgOf 14 (fun x y => if x <? 9 then Fixtures.white else Fixtures.black)) 14) 7 2 12 6.
Proof.
  apply (prefix_tables_count_pixels 14 11); try lia. reflexivity.
Defined.

(** ** Slot bands *)

Section LineBands.

Variable pre : Pre.
Variables x0 x1 thr : Z.

Lemma growUp_spec (fuel : nat) : forall y0,
  0 <= y0 <= Z.of_nat fuel ->
  let r := growUp fuel pre x0 x1 thr y0 in
  0 <= r <= y0 /\
  (forall y, r <= y < y0 -> isDarkRow pre x0 x1 thr y = true) /\
  (0 < r -> isDarkRow pre x0 x1 thr (r - 1) = false).
Proof.
  induction fuel as [| k IH]; intros y0 H; cbv zeta.
  - cbn [growUp]. repeat split; lia.
  - cbn [growUp]. destruct (0 <? y0) eqn:Ep; cbn [andb].
    + apply Z.ltb_lt in Ep.
      destruct (isDarkRow pre x0 x1 thr (y0 - 1)) eqn:Ed.
      * destruct (IH (y0 - 1) ltac:(lia)) as (Hr & Hd & Hs).
        split; [lia |]. split; [| exact Hs].
        intros y Hy. destruct (Z.eq_dec y (y0 - 1)) as [-> | Hne]; [exact Ed |].
        apply Hd. lia.
      * split; [lia |]. split; [intros y Hy; lia | intros _; exact Ed].
    + apply Z.ltb_ge in Ep. split; [lia |]. split; [intros y Hy; lia | lia].
Qed.

Lemma growDown_spec (fuel : nat) : forall y1,
  y1 <= pre_h pre - 1 -> pre_h pre - 1 - y1 <= Z.of_nat fuel ->
  let r := growDown fuel pre x0 x1 thr y1 in
  y1 <= r <= pre_h pre - 1 /\
  (forall y, y1 < y <= r -> isDarkRow pre x0 x1 thr y = true) /\
  (r < pre_h pre - 1 -> isDarkRow pre x0 x1 thr (r + 1) = false).
Proof.
  induction fuel as [| k IH]; intros y1 H Hf; cbv zeta.
  - cbn [growDown]. repeat split; lia.
  - cbn [growDown]. destruct (y1 <? pre_h pre - 1) eqn:Ep; cbn [andb].
    + apply Z.ltb_lt in Ep.
      destruct (isDarkRow pre x0 x1 thr (y1 + 1)) eqn:Ed.
      * destruct (IH (y1 + 1) ltac:(lia) ltac:(lia)) as (Hr & Hd & Hs).
        split; [lia |]. split; [| exact Hs].
        intros y Hy. destruct (Z.eq_dec y (y1 + 1)) as [-> | Hne]; [exact Ed |].
        apply Hd. lia.
      * split; [lia |]. split; [intros y Hy; lia | intros _; exact Ed].
    + apply Z.ltb_ge in Ep. split; [lia |]. split; [intros y Hy; lia | lia].
Qed.

End LineBands.

Lemma estimateLineBandAtTick_around (pre : Pre) (t : Z) (lane : LaneFrac) :
  0 < pre_h pre ->
  LineBandAround pre lane (estimateLineBandAtTick pre t lane)
  /\ lb_cy (estimateLineBandAtTick pre t lane) = clamp t 0 (pre_h pre - 1).
Proof.
  intro Hh. unfold estimateLineBandAtTick, LineBandAround, laneRowDark. cbv zeta.
  set (x0 := clamp (Qfloor (inject_Z (pre_w pre) * x0Frac lane)) 0 (pre_w pre - 1)).
  set (x1 := clamp (Qfloor (inject_Z (pre_w pre) * x1Frac lane)) (x0 + 1) (pre_w pre)).
  set (thr := Z.max 2 _). set (yc := clamp t 0 (pre_h pre - 1)).
  cbn [lb_y0 lb_y1 lb_cy].
  assert (Hyc : 0 <= yc <= pre_h pre - 1) by (apply clamp_bounds; lia).
  destruct (growUp_spec pre x0 x1 thr (Z.to_nat yc) yc ltac:(lia)) as (Hu & Hud & Hus).
  destruct (growDown_spec pre x0 x1 thr (Z.to_nat (pre_h pre - yc)) yc ltac:(lia) ltac:(lia))
    as (Hd & Hdd & Hds).
  split; [| reflexivity].
  split; [lia |]. split; [lia |]. split; [| split].
  - intros y Hy Hne. destruct (Z_lt_le_dec y yc); [apply Hud | apply Hdd]; lia.
  - exact Hus.
  - intro Hlt. apply Hds. lia.
Qed.

Lemma pairBands_between (pre : Pre) (lane : LaneFrac) (bands : list LineBand) :
  0 < pre_h pre ->
  Forall (LineBandAround pre lane) bands ->
  StronglySorted (fun a b => lb_cy a <= lb_cy b) bands ->
  Forall (SlotBetweenLines pre lane) (pairBands pre bands) /\
  StronglySorted (fun a b => botTick a <= topTick b) (pairBands pre bands) /\
  Forall (fun s => exists top, In top bands /\ topTick s = lb_cy top) (pairBands pre bands) /\
  (length (pairBands pre bands) <= Nat.pred (length bands))%nat.
Proof.
  intros Hh Hall Hs. induction bands as [| top rest IH].
  - cbn. repeat split; constructor.
  - destruct rest as [| bot rest'].
    + cbn. repeat split; try constructor; lia.
    + inversion Hall as [| ? ? Htop Hrest]; subst.
      inversion Hs as [| ? ? Hs' Hle]; subst.
      destruct (IH Hrest Hs') as (IH1 & IH2 & IH3 & IH4).
      assert (IH3' : Forall (fun s => exists top0, In top0 (top :: bot :: rest')
                                                  /\ topTick s = lb_cy top0)
                            (pairBands pre (bot :: rest'))).
      { eapply Forall_impl; [| exact IH3]. intros s (b & Hb & E). exists b.
        split; [now right | exact E]. }
      change (pairBands pre (top :: bot :: rest'))
        with (let ys := clamp (lb_y1 top) 0 (pre_h pre - 1) in
              let ye := clamp (lb_y0 bot) 1 (pre_h pre) in
              if 8 <=? ye - ys
              then mkSlotBand ys ye (lb_cy top) (lb_cy bot) :: pairBands pre (bot :: rest')
              else pairBands pre (bot :: rest')).
      cbv zeta.
      destruct (8 <=? clamp (lb_y0 bot) 1 (pre_h pre) - clamp (lb_y1 top) 0 (pre_h pre - 1))
        eqn:E8.
      * apply Z.leb_le in E8.
        inversion Hrest as [| ? ? Hbot _]; subst.
        destruct Htop as (Ht1 & Ht2 & Ht3 & Ht4 & Ht5).
        destruct Hbot as (Hb1 & Hb2 & Hb3 & Hb4 & Hb5).
        assert (Eys : clamp (lb_y1 top) 0 (pre_h pre - 1) = lb_y1 top)
          by (unfold clamp in *; lia).
        assert (Eye : clamp (lb_y0 bot) 1 (pre_h pre) = lb_y0 bot)
          by (unfold clamp in *; lia).
        rewrite Eys, Eye in *.
        split; [| split; [| split]].
        -- constructor; [| exact IH1].
           unfold SlotBetweenLines. cbn [yStart yEnd topTick botTick].
           split; [lia |]. split; [lia |]. split; [lia |].
           split; [intros y Hy; apply Ht3; lia |].
           split; [apply Ht5; lia |].
           split; [intros y Hy; apply Hb3; lia |].
           apply Hb4. lia.
        -- constructor; [exact IH2 |].
           rewrite Forall_forall in IH3 |- *. intros s Hin.
           destruct (IH3 s Hin) as (b & Hb & ->). cbn [botTick].
           destruct Hb as [<- | Hb]; [lia |].
           inversion Hs' as [| ? ? _ Hle']; subst.
           rewrite Forall_forall in Hle'. apply Hle'. exact Hb.
        -- constructor; [| exact IH3'].
           exists top. split; [now left | reflexivity].
        -- cbn [length Nat.pred] in *. lia.
      * split; [exact IH1 |]. split; [exact IH2 |]. split; [exact IH3' |].
        cbn [length Nat.pred] in *. lia.
Qed.

Lemma clamp_monotone (a b lo hi : Z) : a <= b -> clamp a lo hi <= clamp b lo hi.
Proof. unfold clamp. lia. Qed.

Lemma lineBands_sorted (pre : Pre) (lane : LaneFrac) (ticks : list Z) :
  0 < pre_h pre -> StronglySorted Z.le ticks ->
  StronglySorted (fun a b => lb_cy a <= lb_cy b)
                 (map (fun t => estimateLineBandAtTick pre t lane) ticks).
Proof.
  intros Hh Hs. induction Hs as [| t rest Hs IH Hle]; cbn [map]; constructor; [exact IH |].
  apply Forall_forall. intros b Hb. apply in_map_iff in Hb.
  destruct Hb as (t' & <- & Hin).
  rewrite Forall_forall in Hle.
  rewrite !(proj2 (estimateLineBandAtTick_around pre _ lane Hh)).
  apply clamp_monotone, Hle, Hin.
Qed.

(** X19: on a page that has rows, with the ticks in ascending order, every
    slot band buildSlotBandsFromTicks returns is the gap between the lines
    of two ticks: it starts below its top tick at the first row of the lane
    that is not dark, all rows between being dark; it ends at or over its
    bottom tick, on the first of the dark rows that lead to that tick; it is
    at least 8 rows high; and the bands follow one another from top to
    bottom, each starting under the tick the one before ends at.  There is
    at most one band fewer than there are ticks. *)
Theorem slot_bands_lie_between_tick_lines (pre : Pre) (ticks : list Z) (lane : LaneFrac) :
  0 < pre_h pre -> StronglySorted Z.le ticks ->
  let slots := buildSlotBandsFromTicks pre ticks lane in
  Forall (SlotBetweenLines pre lane) slots /\
  StronglySorted (fun a b => botTick a <= topTick b) slots /\
  (length slots <= Nat.pred (length ticks))%nat.
Proof.
  intros Hh Hs. cbv zeta. unfold buildSlotBandsFromTicks.
  destruct (length ticks <? 2)%nat eqn:E2.
  - repeat split; try constructor. cbn. lia.
  - rewrite length_map, E2.
    destruct (pairBands_between pre lane (map (fun t => estimateLineBandAtTick pre t lane) ticks)
                Hh) as (H1 & H2 & _ & H4).
    + apply Forall_forall. intros b Hb. apply in_map_iff in Hb.
      destruct Hb as (t & <- & _). apply estimateLineBandAtTick_around. exact Hh.
    + apply lineBands_sorted; assumption.
    + rewrite length_map in H4. repeat split; assumption.
Qed.

Lemma slot_bands_lie_between_tick_lines_witness :
  buildSlotBandsFromTicks Fixtures.preC [10; 22] (mkLaneFrac (15 # 1000) (55 # 1000))
  = [mkSlotBand 12 22 10 22] /\
  Forall (SlotBetweenLines Fixtures.preC (mkLaneFrac (15 # 1000) (55 # 1000)))
         (buildSlotBandsFromTicks Fixtures.preC [10; 22] (mkLaneFrac (15 # 1000) (55 # 1000))) /\
  StronglySorted (fun a b => botTick a <= topTick b)
         (buildSlotBandsFromTicks Fixtures.preC [10; 22] (mkLaneFrac (15 # 1000) (55 # 1000))) /\
  le (length (buildSlotBandsFromTicks Fixtures.preC [10; 22] (mkLaneFrac (15 # 1000) (55 # 1000))))
     (Nat.pred (length [10; 22])).
Proof.
  split; [vm_compute; reflexivity |].
  apply (slot_bands_lie_between_tick_lines Fixtures.preC [10; 22]
           (mkLaneFrac (15 # 1000) (55 # 1000))).
  - reflexivity.
  - repeat constructor; lia.
Defined.

(** ** The nav a build returns *)

Lemma pairBands_no_rows (pre : Pre) (bands : list LineBand) :
  pre_h pre <= 0 -> pairBands pre bands = [].
Proof.
  intro Hh. induction bands as [| top rest IH]; [reflexivity |].
  destruct rest as [| bot rest']; [reflexivity |].
  change (pairBands pre (top :: bot :: rest'))
    with (let ys := clamp (lb_y1 top) 0 (pre_h pre - 1) in
          let ye := clamp (lb_y0 bot) 1 (pre_h pre) in
          if 8 <=? ye - ys
          then mkSlotBand ys ye (lb_cy top) (lb_cy bot) :: pairBands pre (bot :: rest')
          else pairBands pre (bot :: rest')).
  cbv zeta.
  replace (8 <=? clamp (lb_y0 bot) 1 (pre_h pre) - clamp (lb_y1 top) 0 (pre_h pre - 1))
    with false by (symmetry; apply Z.leb_gt; unfold clamp; lia).
  exact IH.
Qed.

Lemma slot_bands_need_rows (pre : Pre) (ticks : list Z) (lane : LaneFrac) :
  (1 <= length (buildSlotBandsFromTicks pre ticks lane))%nat -> 0 < pre_h pre.
Proof.
  intro H. destruct (Z_lt_le_dec 0 (pre_h pre)) as [L | L]; [exact L |].
  unfold buildSlotBandsFromTicks in H.
  destruct (length ticks <? 2)%nat; [cbn in H; lia |].
  destruct (length _ <? 2)%nat; [cbn in H; lia |].
  rewrite pairBands_no_rows in H by exact L. cbn in H. lia.
Qed.

Lemma StrictlyIncreasing_ascending (l : list Z) :
  StrictlyIncreasing l -> StronglySorted Z.le l.
Proof.
  unfold StrictlyIncreasing, adjacent.
  induction l as [| a rest IH]; intro H; [constructor |].
  destruct rest as [| b rest']; [constructor; constructor |].
  cbn [tl combine] in H. inversion H as [| ? ? Hab Hrest]; subst. cbn [fst snd] in Hab.
  specialize (IH Hrest). constructor; [exact IH |].
  inversion IH as [| ? ? _ Hall]; subst.
  constructor; [lia |]. eapply Forall_impl; [| exact Hall]. cbn beta. intros; lia.
Qed.

Lemma medianOf_some (l : list Z) : l <> [] -> exists m, medianOf l = Some m.
Proof.
  intro Hne. unfold medianOf.
  destruct (nth_error (sortAsc l) (length l / 2)) as [m |] eqn:E; [now exists m |].
  apply nth_error_None in E. rewrite sortAsc_length in E.
  destruct l as [| a t]; [contradiction |]. cbn [length] in E.
  pose proof (Nat.Div0.div_le_upper_bound (S (length t)) 2 (length t)) as H.
  assert (S (length t) / 2 < S (length t))%nat by (apply Nat.div_lt; lia). lia.
Qed.

Lemma medians_finite (px : list Pixel) (tol : Z) :
  px <> [] ->
  bgChannelsFinite (mkBackgroundColor (medianOf (map chanR px)) (medianOf (map chanG px))
                                      (medianOf (map chanB px)) tol) = true.
Proof.
  intro Hne. unfold bgChannelsFinite. cbn [bg_r bg_g bg_b].
  destruct (medianOf_some (map chanR px)) as (r & ->);
    [destruct px; [contradiction | discriminate] |].
  destruct (medianOf_some (map chanG px)) as (g & ->);
    [destruct px; [contradiction | discriminate] |].
  destruct (medianOf_some (map chanB px)) as (b & ->);
    [destruct px; [contradiction | discriminate] |].
  reflexivity.
Qed.

Lemma sampleChosen_nonempty (sampler : CalCell -> nat -> nat -> list Pixel)
    (c : CalCell) (rest : list CalCell) (n : nat) :
  (forall c0 n0, length (sampler c0 60%nat n0) = 60%nat) ->
  fst (sampleChosen sampler (c :: rest) n) <> [].
Proof.
  intro Hlen. cbn [sampleChosen].
  destruct (sampleChosen sampler rest (n + 120)) as [more n1]. cbn [fst].
  intro E0. apply (f_equal (@length _)) in E0.
  rewrite length_app, Hlen in E0. cbn [length] in E0. lia.
Qed.

Lemma calibrateBackground_finite rand pre regions bands n bg n1 :
  regions <> [] -> bands <> [] ->
  calibrateBackground rand pre regions bands n = (Some bg, n1) ->
  bgChannelsFinite bg = true.
Proof.
  intros Hr Hb H. unfold calibrateBackground in H.
  destruct (calibrateFridayBackground _ _ _ _ _) as [[bg0 | r0] n0] eqn:Ef.
  - injection H as <- <-. unfold calibrateFridayBackground in Ef.
    destruct (lookupDay regions Friday); [| discriminate].
    destruct (length bands <? 4)%nat; [discriminate |].
    destruct (belowAccept _); [discriminate |].
    destruct (sampleChosen _ _ _) as [px n2].
    destruct (length (map chanR px) <? 80)%nat eqn:E80; [discriminate |].
    injection Ef as <- <-. apply Nat.ltb_ge in E80.
    destruct px as [| p px]; [cbn in E80; lia |].
    unfold bgChannelsFinite. cbn [bg_r bg_g bg_b].
    destruct (medianOf_some (map chanR (p :: px))) as (r & ->); [discriminate |].
    destruct (medianOf_some (map chanG (p :: px))) as (g & ->); [discriminate |].
    destruct (medianOf_some (map chanB (p :: px))) as (b & ->); [discriminate |].
    reflexivity.
  - destruct (calibrateGlobalBackground _ _ _ _ _) as [[bg1 | r1] n2] eqn:Eg;
      [| discriminate].
    injection H as <- <-. unfold calibrateGlobalBackground in Eg.
    destruct (belowAccept _); [discriminate |].
    destruct (globalChosen pre regions bands) as [| c chosen] eqn:Ec.
    + exfalso. unfold globalChosen in Ec. apply (f_equal (@length _)) in Ec.
      rewrite length_firstn, sortByWhite_length in Ec. cbn [length] in Ec.
      destruct regions as [| d ds]; [contradiction |].
      destruct bands as [| s ss]; [contradiction |].
      cbn [flat_map map] in Ec. cbn [app length] in Ec. unfold CAL_PICK_TOP in Ec. lia.
    + pose proof (sampleChosen_nonempty (globalSamples rand pre) c chosen n0
                    (fun c0 m0 => globalSamples_length rand pre c0 60 m0)) as Hne.
      destruct (sampleChosen (globalSamples rand pre) (c :: chosen) n0) as [px n3].
      injection Eg as <- <-. apply medians_finite. exact Hne.
Qed.

(** X20: a nav that computeFrozenNavFromPre returns is complete: its six
    divider positions are ascending and its day regions are the five
    stretches between them; it has at least one slot band and fewer bands
    than ticks, every band is the gap between the lines of two ticks, and
    the bands follow one another down the page; its background has three
    finite channels and a tolerance from 34 to 60; its anchor is 8:00 AM;
    it carries the page size and the time stamp of the precompute, or the
    clock's reading when the precompute has none.  So
    computeAvailFromFrozenNav never refuses it, whatever the policy. *)
Theorem built_nav_is_accepted
    (trim : option TrimFunction) (rand : nat -> Q) (now : Z)
    (pre : Pre) (win : Window) (n : nat) (nav : Nav) (win' : Window) (n' : nat) :
  computeFrozenNavFromPre trim rand now (Some pre) win n = (Returned (Some nav), win', n') ->
  exists xs bands bg,
    dividerXs nav = Some xs /\ length xs = 6%nat /\ StronglySorted Z.le xs /\
    dayRegions nav = Some (regionsBetween xs) /\
    slotBands nav = Some bands /\
    (1 <= length bands)%nat /\ (length bands < length (ticksForMap nav))%nat /\
    Forall (SlotBetweenLines pre (laneMeta nav)) bands /\
    StronglySorted (fun a b => botTick a <= topTick b) bands /\
    bgWhite nav = Some bg /\ bgChannelsFinite bg = true /\ 34 <= bg_tol bg <= 60 /\
    anchorStartTime nav = Some "8:00 AM"%string /\
    preMeta nav = mkPreMeta (pre_w pre) (pre_h pre)
                            (if pre_ts pre =? 0 then now else pre_ts pre) /\
    forall pre' policy w m reason,
      fst (computeAvailFromFrozenNav trim rand pre' nav policy w m) <> AvailFail reason.
Proof.
  intro H. apply computeFrozenNav_inv in H.
  destruct H as (v & dy & g & Hv & Hok & Hdy & _ & Hl6 & Hfr & Hx6 & Hg & Hgok & Hb & bg
                 & Hc & -> & _).
  destruct (validate_ok_inv _ _ Hv Hok) as (dy' & c & rest & Hdy' & Hm & Hr & Ht & Hcl & _).
  rewrite Hdy in Hdy'. injection Hdy' as <-.
  set (fr := freezeDayRegionsFromDividers true (dv_xs (findDayDividers pre (tv_ticks v)))) in *.
  set (bands := buildSlotBandsFromTicks pre (lr_ticks g) (navLane pre)) in *.
  assert (Hticks : StronglySorted Z.le (lr_ticks g)).
  { apply StrictlyIncreasing_ascending.
    destruct (medianDy_half _ _ Hm) as (d2 & Hd2).
    assert (Hl : match buildGlobalTickLadder trim pre (navWindow pre win) (tv_ticks v) dy
                         (mkLadderOpts (fr_xs fr) (Some (fr_regions fr)) None) with
                 | Returned g0 => LadderTicksOk dy (lr_ticks g0)
                 | Thrown _ => True
                 end); [| rewrite Hg in Hl; exact (proj1 Hl)].
    apply (buildGlobalTickLadder_ok trim pre _ dy d2 _ Hd2).
    - destruct Hr as [A B]. rewrite Hd2 in A, B.
      assert (HA : 2 * 10 <= d2) by (apply half_le_Z; exact A).
      assert (HB : d2 <= 2 * 90) by (apply half_ge_Z; exact B).
      lia.
    - rewrite Ht. cbn [nthZ nth].
      assert (Hin : In (nthZ (navRawTicks pre) c) (navRawTicks pre)).
      { unfold nthZ. apply nth_In. exact Hcl. }
      pose proof (detect_ticks_ge_pad pre (navLane pre) _ Hin) as Hpad. lia. }
  assert (Hh : 0 < pre_h pre) by (apply (slot_bands_need_rows pre (lr_ticks g) (navLane pre)); exact Hb).
  assert (Hfrx : fr_xs fr = sortAsc (dv_xs (findDayDividers pre (tv_ticks v)))
                 /\ fr_regions fr = regionsBetween (fr_xs fr)).
  { unfold fr, freezeDayRegionsFromDividers. cbn [negb].
    rewrite sortAsc_length, Hl6. cbn [Nat.eqb negb fr_xs fr_regions]. split; reflexivity. }
  destruct Hfrx as [Hxs Hregs].
  assert (Hbands : Forall (SlotBetweenLines pre (navLane pre)) bands /\
                   StronglySorted (fun a b => botTick a <= topTick b) bands /\
                   (length bands <= Nat.pred (length (lr_ticks g)))%nat).
  { unfold bands, buildSlotBandsFromTicks.
    destruct (length (lr_ticks g) <? 2)%nat eqn:E2.
    - repeat split; try constructor. cbn. lia.
    - rewrite length_map, E2.
      destruct (pairBands_between pre (navLane pre)
                  (map (fun t => estimateLineBandAtTick pre t (navLane pre)) (lr_ticks g)) Hh)
        as (H1 & H2 & _ & H4).
      + apply Forall_forall. intros b Hbin. apply in_map_iff in Hbin.
        destruct Hbin as (t & <- & _). apply estimateLineBandAtTick_around. exact Hh.
      + apply lineBands_sorted; assumption.
      + rewrite length_map in H4. repeat split; assumption. }
  destruct Hbands as (Hb1 & Hb2 & Hb3).
  assert (Hfin : bgChannelsFinite bg = true).
  { apply (calibrateBackground_finite rand pre (fr_regions fr) bands n bg n'); try exact Hc.
    - rewrite Hregs. discriminate.
    - intro E0. rewrite E0 in Hb. cbn in Hb. lia. }
  exists (fr_xs fr), bands, bg.
  cbn [dividerXs dayRegions slotBands ticksForMap laneMeta bgWhite anchorStartTime preMeta].
  split; [reflexivity |]. split; [exact Hx6 |].
  split; [rewrite Hxs; apply sortAsc_ascending |].
  split; [now rewrite <- Hregs |]. split; [reflexivity |]. split; [exact Hb |].
  split; [lia |]. split; [exact Hb1 |]. split; [exact Hb2 |]. split; [reflexivity |].
  split; [exact Hfin |].
  split; [exact (calibrateBackground_tol _ _ _ _ _ _ _ Hc) |].
  split; [reflexivity |]. split; [reflexivity |].
  intros pre' policy w m reason. unfold computeAvailFromFrozenNav.
  cbn [dividerXs dayRegions slotBands bgWhite anchorStartTime].
  destruct bands as [| s ss]; [cbn in Hb; lia |].
  rewrite Hfin. cbn [negb].
  destruct (classifyDays _ _ _ _ _ _ _ _ _ _) as [[[ds ws] |] n1]; cbn [fst]; discriminate.
Qed.

(** Sheet B. *)
Lemma built_nav_is_accepted_witness :
  exists nav xs bands bg,
    ticksForMap nav = [10; 36; 67; 98; 129; 159; 189] /\
    dividerXs nav = Some xs /\ length xs = 6%nat /\ StronglySorted Z.le xs /\
    dayRegions nav = Some (regionsBetween xs) /\
    slotBands nav = Some bands /\
    (1 <= length bands)%nat /\ (length bands < length (ticksForMap nav))%nat /\
    Forall (SlotBetweenLines Fixtures.preB (laneMeta nav)) bands /\
    StronglySorted (fun a b => botTick a <= topTick b) bands /\
    bgWhite nav = Some bg /\ bgChannelsFinite bg = true /\ 34 <= bg_tol bg <= 60 /\
    anchorStartTime nav = Some "8:00 AM"%string /\
    preMeta nav = mkPreMeta (pre_w Fixtures.preB) (pre_h Fixtures.preB)
                            (if pre_ts Fixtures.preB =? 0 then Fixtures.stamp
                             else pre_ts Fixtures.preB) /\
    forall pre' policy w m reason,
      fst (computeAvailFromFrozenNav Fixtures.noTrim Fixtures.draws pre' nav policy w m)
      <> AvailFail reason.
Proof.
  destruct sheetB_nav_built as (nav & win' & n' & E & Ht).
  destruct (built_nav_is_accepted Fixtures.noTrim Fixtures.draws Fixtures.stamp Fixtures.preB
              Fixtures.emptyWindow 0 nav win' n' E) as (xs & bands & bg & H).
  exists nav, xs, bands, bg. split; [exact Ht | exact H].
Defined.

(** ** The second phase of an upload *)

Lemma orElse_idem (a b c : string) : b <> ""%string -> orElse (orElse a b) c = orElse a b.
Proof.
  intro Hb. unfold orElse. destruct (String.eqb a "") eqn:E.
  - destruct (String.eqb b "") eqn:E2; [apply String.eqb_eq in E2; contradiction | reflexivity].
  - now rewrite E.
Qed.

Lemma classifyDays_untrimmed rand pre bg policy regions dXs slots (days : list Weekday) :
  forall n, fst (classifyDays None rand pre bg policy regions dXs slots days n) <> None.
Proof.
  induction days as [| d rest IH]; intro n; [discriminate |].
  cbn [classifyDays].
  destruct (lookupDay regions d) as [rawRegion |].
  - unfold safeTrimDayRegion.
    destruct (classifySlots rand pre bg policy (insetRegion rawRegion 6) slots n)
      as [[arr w] n1].
    specialize (IH n1).
    destruct (classifyDays None rand pre bg policy regions dXs slots rest n1)
      as [[[ds ws] |] n2]; [discriminate | exact IH].
  - specialize (IH n).
    destruct (classifyDays None rand pre bg policy regions dXs slots rest n)
      as [[[ds ws] |] n2]; [discriminate | exact IH].
Qed.

(** X21: after a nav build that succeeded, window.LAST_NAV holds the nav of
    phase 1, whose anchor is 8:00 AM, and phase 2, run on that nav and the
    same precompute, does not end for want of inputs nor on a refusal of
    the availability compute.  It publishes, or ends on the error of a
    region that the page's trimDayRegionByDivider did not trim; on a page
    that defines no such function it always publishes.  What it publishes
    carries the start time chosen (8:00 AM for an empty value) in the nav
    and in the grid, with the soft-free policy, version 1 and one slot per
    slot band. *)
Theorem finalize_outcomes
    (trim : option TrimFunction) (rand : nat -> Q) (now : Z)
    (pre : Pre) (win : Window) (n : nat) (core : Nav) (win1 : Window) (n1 : nat)
    (startValue : string) :
  buildAndPublishNav trim rand now (Some pre) win n = (NavOk core, win1, n1) ->
  let startTime := orElse startValue "8:00 AM" in
  LAST_NAV win1 = Some core /\
  anchorStartTime core = Some "8:00 AM"%string /\
  match fst (runPhase2Finalize trim rand (Some core) (Some pre) win1 n1 startValue) with
  | Published nav avail =>
      nav = tryFinalizeNavWithStartTime core startTime /\
      anchorStartTime nav = Some startTime /\ av_anchorStartTime avail = startTime /\
      av_spillPolicy avail = SoftFree /\ av_version avail = 1 /\
      exists bands, slotBands nav = Some bands /\ av_slots avail = length bands
  | Phase2Threw => trim <> None
  | NotPublished _ | NothingToFinalize => False
  end.
Proof.
  intros Hbuild startTime.
  pose proof (buildAndPublishNav_cases trim rand now pre win n) as Hb.
  destruct (computeFrozenNavFromPre trim rand now (Some pre) win n)
    as [[[[nav0 |] | message] win0] n0] eqn:E; rewrite Hbuild in Hb; try discriminate.
  injection Hb as Hcore Hwin Hn. subst core win1 n1.
  apply computeFrozenNav_inv in E.
  destruct E as (v & dy & g & _ & _ & _ & _ & Hl6 & _ & _ & _ & _ & Hbands & bg & Hc
                 & -> & _).
  set (fr := freezeDayRegionsFromDividers true (dv_xs (findDayDividers pre (tv_ticks v)))) in *.
  set (bands := buildSlotBandsFromTicks pre _ (navLane pre)) in *.
  assert (Hregs : fr_regions fr <> []).
  { unfold fr, freezeDayRegionsFromDividers. cbn [negb].
    rewrite sortAsc_length, Hl6. cbn [Nat.eqb negb fr_regions]. discriminate. }
  assert (Hne : bands <> []) by (intro E0; rewrite E0 in Hbands; cbn in Hbands; lia).
  pose proof (calibrateBackground_finite rand pre _ _ _ _ _ Hregs Hne Hc) as Hfin.
  cbn [LAST_NAV anchorStartTime]. split; [reflexivity |]. split; [reflexivity |].
  unfold runPhase2Finalize, computeAvailFromFrozenNav, tryFinalizeNavWithStartTime.
  cbn [dividerXs dayRegions slotBands bgWhite anchorStartTime ticksForMap preMeta laneMeta].
  destruct bands as [| s ss] eqn:Eb; [contradiction |].
  rewrite Hfin. cbn [negb].
  pose proof (fun r => classifyDays_untrimmed r pre bg SoftFree (fr_regions fr)
                         (Some (fr_xs fr)) (s :: ss) WEEKDAYS n0) as Hun.
  destruct trim as [f |].
  - destruct (classifyDays _ _ _ _ _ _ _ _ _ _) as [[[ds ws] |] n2]; cbn [fst];
      [| discriminate].
    cbn [anchorStartTime slotBands av_anchorStartTime av_slots av_spillPolicy av_version].
    split; [reflexivity |].
    split; [f_equal; apply orElse_idem; discriminate |].
    split; [reflexivity |]. split; [reflexivity |]. split; [reflexivity |].
    exists (s :: ss). split; reflexivity.
  - specialize (Hun rand).
    destruct (classifyDays _ _ _ _ _ _ _ _ _ _) as [[[ds ws] |] n2]; cbn [fst] in *;
      [| contradiction].
    cbn [anchorStartTime slotBands av_anchorStartTime av_slots av_spillPolicy av_version].
    split; [reflexivity |].
    split; [f_equal; apply orElse_idem; discriminate |].
    split; [reflexivity |]. split; [reflexivity |]. split; [reflexivity |].
    exists (s :: ss). split; reflexivity.
Qed.

(** Sheet B, with the start time 9:30 AM. *)
Lemma finalize_outcomes_witness :
  buildAndPublishNav Fixtures.noTrim Fixtures.halfDraws Fixtures.stamp Fixtures.sheetB
                     Fixtures.emptyWindow 0
  = (NavOk Fixtures.navB,
     navWindow Fixtures.preB (mkWindow None None (Some Fixtures.navB)), 360%nat) /\
  LAST_NAV (navWindow Fixtures.preB (mkWindow None None (Some Fixtures.navB)))
  = Some Fixtures.navB /\
  anchorStartTime Fixtures.navB = Some "8:00 AM"%string /\
  match fst (runPhase2Finalize Fixtures.noTrim Fixtures.halfDraws (Some Fixtures.navB)
               (Some Fixtures.preB)
               (navWindow Fixtures.preB (mkWindow None None (Some Fixtures.navB)))
               360 "9:30 AM") with
  | Published nav avail =>
      nav = tryFinalizeNavWithStartTime Fixtures.navB (orElse "9:30 AM" "8:00 AM") /\
      anchorStartTime nav = Some (orElse "9:30 AM" "8:00 AM") /\
      av_anchorStartTime avail = orElse "9:30 AM" "8:00 AM" /\
      av_spillPolicy avail = SoftFree /\ av_version avail = 1 /\
      exists bands, slotBands nav = Some bands /\ av_slots avail = length bands
  | Phase2Threw => Fixtures.noTrim <> None
  | NotPublished _ | NothingToFinalize => False
  end.
Proof.
  assert (H : buildAndPublishNav Fixtures.noTrim Fixtures.halfDraws Fixtures.stamp
                Fixtures.sheetB Fixtures.emptyWindow 0
              = (NavOk Fixtures.navB,
                 navWindow Fixtures.preB (mkWindow None None (Some Fixtures.navB)), 360%nat))
    by (vm_compute; reflexivity).
  split; [exact H |].
  exact (finalize_outcomes Fixtures.noTrim Fixtures.halfDraws Fixtures.stamp Fixtures.preB
           Fixtures.emptyWindow 0 Fixtures.navB _ 360 "9:30 AM" H).
Defined.
